(** * loadgen/logging.cc: the lock-free logging core

    A shallow embedding of the double-buffered per-thread log queues
    ([TlsLogger]), the swap-request ring and the I/O thread of [Logger].

    Conventions of the embedding:
    - [size_t] and [uintptr_t] are 64-bit words, modelled as [Z] with the
      wrap-around written out ([wrap]).
    - A [TlsLogger*] is a [Z]; the TlsLogger objects live in a heap
      ([gmap Z TlsLogger]).  [0] is [nullptr].
    - The two-element arrays [entries_] and [entry_states_] are pairs
      indexed by [index]; [flip] is [^= 1].
    - Every [std::atomic] access is one atomic step of an interleaving
      semantics.  In [pstep] and [cstep] an access reads the value written
      last (sequential consistency); the one access for which the
      [memory_order] argument lets a thread of this file see something else,
      the relaxed load of [i_write_] in [TlsLogger::Log], is given its older
      values in [rpstep].
    - [assert] is enabled: a failed assertion ends the thread. *)

From Stdlib Require Import ZArith Lia.
From stdpp Require Import base gmap list strings.

Local Open Scope Z_scope.

(** ** Machine words *)

Definition word_bits : Z := 64.

Definition wrap (x : Z) : Z := x mod 2 ^ word_bits.

(** [(id << 1) | 0x1] : the tag of a slot that is free for request [id]. *)
Definition SwapRequestSlotIsWritableValue (id : Z) : Z :=
  Z.lor (wrap (Z.shiftl id 1)) 1.

(** [(value & 0x1) != 0x1] : the slot holds a pointer. *)
Definition SwapRequestSlotIsReadable (value : Z) : bool :=
  negb (Z.land value 1 =? 1).

Definition kMaxThreadsToLog : Z := 1024.

(** [compare_exchange_strong] on one atomic cell: the new cell value and
    whether the exchange took place. *)
Definition compare_exchange_strong {A} (eqb : A -> A -> bool)
    (cell expected desired : A) : A * bool :=
  if eqb cell expected then (desired, true) else (cell, false).

(** ** Indices of the two buffers *)

Inductive index := i0 | i1.

Definition flip (i : index) : index :=
  match i with i0 => i1 | i1 => i0 end.

Definition index_to_Z (i : index) : Z :=
  match i with i0 => 0 | i1 => 1 end.

Definition index_eqb (i j : index) : bool :=
  match i, j with i0, i0 | i1, i1 => true | _, _ => false end.

Definition sel {A} (i : index) (a : A * A) : A :=
  match i with i0 => fst a | i1 => snd a end.

Definition upd {A} (i : index) (v : A) (a : A * A) : A * A :=
  match i with i0 => (v, snd a) | i1 => (fst a, v) end.

(** ** Log entries

    An [AsyncLogEntry] is a [std::function<void(AsyncLog&)>].  The closures
    this file builds are listed by their capture; a closure handed in by a
    caller of [Log] is opaque and identified by a label. *)

Inductive AsyncLogEntry :=
| UserEntry (label : string)
| RetireOrphan (orphan : Z)          (* [this, orphan] in UnRegisterTlsLogger *)
| ReportContention                   (* the LogDetail lambda of StopLogging *)
| SetPromise (owner : Z) (serial : nat). (* io_thread_flushed_this_thread.set_value() *)

(** ** TlsLogger *)

Inductive EntryState := Unlocked | ReadLock | WriteLock.

Definition EntryState_eqb (a b : EntryState) : bool :=
  match a, b with
  | Unlocked, Unlocked | ReadLock, ReadLock | WriteLock, WriteLock => true
  | _, _ => false
  end.

Record TlsLogger := mkTlsLogger {
  i_read_ : index;
  entries_ : list AsyncLogEntry * list AsyncLogEntry;
  entry_states_ : EntryState * EntryState;
  i_write_ : index;
  log_cas_fail_count_ : Z;
  swap_buffers_slot_retry_count_ : Z;
  unread_swaps_ : Z;
  i_write_prev_ : index;
  trace_pid_tid_ : string;
  tid_as_string_ : string
}.

(** The member initialisers and the constructor. *)
Definition TlsLogger_ctor (trace_pid_tid tid_as_string : string) : TlsLogger :=
  {| i_read_ := i0;
     entries_ := ([], []);
     entry_states_ := (ReadLock, Unlocked);
     i_write_ := i1;
     log_cas_fail_count_ := 0;
     swap_buffers_slot_retry_count_ := 0;
     unread_swaps_ := 0;
     i_write_prev_ := i0;
     trace_pid_tid_ := trace_pid_tid;
     tid_as_string_ := tid_as_string |}.

Definition set_i_read_ (v : index) (t : TlsLogger) : TlsLogger :=
  {| i_read_ := v; entries_ := entries_ t; entry_states_ := entry_states_ t;
     i_write_ := i_write_ t; log_cas_fail_count_ := log_cas_fail_count_ t;
     swap_buffers_slot_retry_count_ := swap_buffers_slot_retry_count_ t;
     unread_swaps_ := unread_swaps_ t; i_write_prev_ := i_write_prev_ t;
     trace_pid_tid_ := trace_pid_tid_ t; tid_as_string_ := tid_as_string_ t |}.

Definition set_entries_ (v : list AsyncLogEntry * list AsyncLogEntry)
    (t : TlsLogger) : TlsLogger :=
  {| i_read_ := i_read_ t; entries_ := v; entry_states_ := entry_states_ t;
     i_write_ := i_write_ t; log_cas_fail_count_ := log_cas_fail_count_ t;
     swap_buffers_slot_retry_count_ := swap_buffers_slot_retry_count_ t;
     unread_swaps_ := unread_swaps_ t; i_write_prev_ := i_write_prev_ t;
     trace_pid_tid_ := trace_pid_tid_ t; tid_as_string_ := tid_as_string_ t |}.

Definition set_entry_states_ (v : EntryState * EntryState)
    (t : TlsLogger) : TlsLogger :=
  {| i_read_ := i_read_ t; entries_ := entries_ t; entry_states_ := v;
     i_write_ := i_write_ t; log_cas_fail_count_ := log_cas_fail_count_ t;
     swap_buffers_slot_retry_count_ := swap_buffers_slot_retry_count_ t;
     unread_swaps_ := unread_swaps_ t; i_write_prev_ := i_write_prev_ t;
     trace_pid_tid_ := trace_pid_tid_ t; tid_as_string_ := tid_as_string_ t |}.

Definition set_i_write_ (v : index) (t : TlsLogger) : TlsLogger :=
  {| i_read_ := i_read_ t; entries_ := entries_ t;
     entry_states_ := entry_states_ t;
     i_write_ := v; log_cas_fail_count_ := log_cas_fail_count_ t;
     swap_buffers_slot_retry_count_ := swap_buffers_slot_retry_count_ t;
     unread_swaps_ := unread_swaps_ t; i_write_prev_ := i_write_prev_ t;
     trace_pid_tid_ := trace_pid_tid_ t; tid_as_string_ := tid_as_string_ t |}.

Definition set_log_cas_fail_count_ (v : Z) (t : TlsLogger) : TlsLogger :=
  {| i_read_ := i_read_ t; entries_ := entries_ t;
     entry_states_ := entry_states_ t;
     i_write_ := i_write_ t; log_cas_fail_count_ := v;
     swap_buffers_slot_retry_count_ := swap_buffers_slot_retry_count_ t;
     unread_swaps_ := unread_swaps_ t; i_write_prev_ := i_write_prev_ t;
     trace_pid_tid_ := trace_pid_tid_ t; tid_as_string_ := tid_as_string_ t |}.

Definition set_swap_buffers_slot_retry_count_ (v : Z) (t : TlsLogger)
    : TlsLogger :=
  {| i_read_ := i_read_ t; entries_ := entries_ t;
     entry_states_ := entry_states_ t;
     i_write_ := i_write_ t; log_cas_fail_count_ := log_cas_fail_count_ t;
     swap_buffers_slot_retry_count_ := v;
     unread_swaps_ := unread_swaps_ t; i_write_prev_ := i_write_prev_ t;
     trace_pid_tid_ := trace_pid_tid_ t; tid_as_string_ := tid_as_string_ t |}.

Definition set_unread_swaps_ (v : Z) (t : TlsLogger) : TlsLogger :=
  {| i_read_ := i_read_ t; entries_ := entries_ t;
     entry_states_ := entry_states_ t;
     i_write_ := i_write_ t; log_cas_fail_count_ := log_cas_fail_count_ t;
     swap_buffers_slot_retry_count_ := swap_buffers_slot_retry_count_ t;
     unread_swaps_ := v; i_write_prev_ := i_write_prev_ t;
     trace_pid_tid_ := trace_pid_tid_ t; tid_as_string_ := tid_as_string_ t |}.

Definition set_i_write_prev_ (v : index) (t : TlsLogger) : TlsLogger :=
  {| i_read_ := i_read_ t; entries_ := entries_ t;
     entry_states_ := entry_states_ t;
     i_write_ := i_write_ t; log_cas_fail_count_ := log_cas_fail_count_ t;
     swap_buffers_slot_retry_count_ := swap_buffers_slot_retry_count_ t;
     unread_swaps_ := unread_swaps_ t; i_write_prev_ := v;
     trace_pid_tid_ := trace_pid_tid_ t; tid_as_string_ := tid_as_string_ t |}.

(** One [compare_exchange_strong] on [entry_states_[i]]. *)
Definition cas_entry_state (i : index) (expected desired : EntryState)
    (t : TlsLogger) : TlsLogger * bool :=
  let '(v, success) :=
    compare_exchange_strong EntryState_eqb (sel i (entry_states_ t))
      expected desired in
  (set_entry_states_ (upd i v (entry_states_ t)) t, success).

(** *** TlsLogger::Log, statement by statement *)

(** One evaluation of the loop condition: the CAS [Unlocked -> WriteLock]
    on [entry_states_[i_write]]. *)
Definition Log_try_lock (i_write : index) (t : TlsLogger) : TlsLogger * bool :=
  cas_entry_state i_write Unlocked WriteLock t.

(** [log_cas_fail_count_.fetch_add(1)] at the end of the loop body. *)
Definition Log_count_fail (t : TlsLogger) : TlsLogger :=
  set_log_cas_fail_count_ (wrap (log_cas_fail_count_ t + 1)) t.

(** [entries_[i_write].emplace_back(entry)]. *)
Definition Log_emplace_back (i_write : index) (entry : AsyncLogEntry)
    (t : TlsLogger) : TlsLogger :=
  set_entries_ (upd i_write (sel i_write (entries_ t) ++ [entry]) (entries_ t)) t.

(** The CAS [WriteLock -> Unlocked] that releases the buffer. *)
Definition Log_unlock (i_write : index) (t : TlsLogger) : TlsLogger * bool :=
  cas_entry_state i_write WriteLock Unlocked t.

(** [write_buffer_swapped = i_write_prev_ != i_write]. *)
Definition write_buffer_swapped (i_write : index) (t : TlsLogger) : bool :=
  negb (index_eqb (i_write_prev_ t) i_write).

(** *** TlsLogger::SwapBuffers *)

(** The CAS [ReadLock -> Unlocked] on [entry_states_[i_read_]]. *)
Definition SwapBuffers_release (t : TlsLogger) : TlsLogger * bool :=
  cas_entry_state (i_read_ t) ReadLock Unlocked t.

(** [i_write_.store(i_read_); i_read_ ^= 1; unread_swaps_++]. *)
Definition SwapBuffers_publish (t : TlsLogger) : TlsLogger :=
  let t1 := set_i_write_ (i_read_ t) t in
  let t2 := set_i_read_ (flip (i_read_ t1)) t1 in
  set_unread_swaps_ (wrap (unread_swaps_ t2 + 1)) t2.

(** [TlsLogger::SwapBuffers] on one object: the object after the call, or
    [None] when the check of the CAS fails. *)
Definition TlsLogger_SwapBuffers (t : TlsLogger) : option TlsLogger :=
  let '(t1, success) := SwapBuffers_release t in
  if success then Some (SwapBuffers_publish t1) else None.

(** *** The reader side *)

(** [StartReadingEntries]: [Some] is the pointer to [entries_[i_read_]],
    given as the index; [None] is [nullptr]. *)
Definition StartReadingEntries (t : TlsLogger) : TlsLogger * option index :=
  let '(t', success) := cas_entry_state (i_read_ t) Unlocked ReadLock t in
  (t', if success then Some (i_read_ t) else None).

Definition FinishReadingEntries (t : TlsLogger) : TlsLogger :=
  let t1 := set_entries_ (upd (i_read_ t) [] (entries_ t)) t in
  set_unread_swaps_ (wrap (unread_swaps_ t1 - 1)) t1.

Definition ReadBufferHasBeenConsumed (t : TlsLogger) : bool :=
  unread_swaps_ t =? 0.

Definition RequestSwapBuffersSlotRetried (t : TlsLogger) : TlsLogger :=
  set_swap_buffers_slot_retry_count_
    (wrap (swap_buffers_slot_retry_count_ t + 1)) t.

(** [ReportLogCasFailCount]: the count read, and the object after the
    [fetch_sub] of that count. *)
Definition ReportLogCasFailCount (t : TlsLogger) : Z * TlsLogger :=
  let c := log_cas_fail_count_ t in
  (c, set_log_cas_fail_count_ (wrap (log_cas_fail_count_ t - c)) t).

Definition ReportSwapBuffersSlotRetryCount (t : TlsLogger) : Z * TlsLogger :=
  let c := swap_buffers_slot_retry_count_ t in
  (c, set_swap_buffers_slot_retry_count_
        (wrap (swap_buffers_slot_retry_count_ t - c)) t).

(** ** Logger *)

Record SlotRetry := mkSlotRetry { slot : Z; next_id : Z }.

(** The calls made on the external [AsyncLog], in order.  A caller's
    closure is opaque: invoking it is recorded by its label. *)
Inductive AsyncEvent :=
| EvSetLogFiles (summary detail : string)
| EvStartNewTrace (trace_out : option string)
| EvSetCurrentTracePidTidString (pid_tid : string)
| EvUser (label : string)
| EvLogDetail (message : string) (value : option Z)
| EvFlush.

Record Logger := mkLogger {
  max_threads_to_log_ : Z;
  thread_swap_request_slots_ : list Z;
  swap_request_id_ : Z;
  swap_request_id_read_ : Z;
  swap_request_slots_to_retry_ : list SlotRetry;
  threads_to_swap_deferred_ : list Z;
  threads_to_read_ : list Z;
  tls_loggers_registerd_ : gset Z;
  tls_logger_orphans_ : list Z;
  orphans_to_destroy_ : list Z;
  swap_request_slots_retry_count_ : Z;
  swap_request_slots_retry_retry_count_ : Z;
  swap_request_slots_retry_reencounter_count_ : Z;
  start_reading_entries_retry_count_ : Z;
  tls_total_log_cas_fail_count_ : Z;
  tls_total_swap_buffers_slot_retry_count_ : Z;
  async_logger_ : list AsyncEvent;
  io_thread_ : Z;
  keep_io_thread_alive_ : bool
}.

(** The memory of the process: the [Logger] singleton, the [TlsLogger]
    objects it points to, the promises some caller is waiting on that have
    been given a value, what [LogErrorSync] has written, and (a history
    variable) the entries the I/O thread has invoked, with the TlsLogger each
    was read from. *)
Record Process := mkProcess {
  logger : Logger;
  heap : gmap Z TlsLogger;
  promises : gset (Z * nat);
  sync_log : list (string * list (string * Z));
  invoked : list (Z * AsyncLogEntry)
}.

Definition on_logger (f : Logger -> Logger) (P : Process) : Process :=
  {| logger := f (logger P); heap := heap P; promises := promises P;
     sync_log := sync_log P; invoked := invoked P |}.

Definition set_heap (v : gmap Z TlsLogger) (P : Process) : Process :=
  {| logger := logger P; heap := v; promises := promises P;
     sync_log := sync_log P; invoked := invoked P |}.

Definition set_promises (v : gset (Z * nat)) (P : Process) : Process :=
  {| logger := logger P; heap := heap P; promises := v;
     sync_log := sync_log P; invoked := invoked P |}.

Definition set_invoked (v : list (Z * AsyncLogEntry)) (P : Process) : Process :=
  {| logger := logger P; heap := heap P; promises := promises P;
     sync_log := sync_log P; invoked := v |}.

Definition LogErrorSync (message : string) (args : list (string * Z))
    (P : Process) : Process :=
  {| logger := logger P; heap := heap P; promises := promises P;
     sync_log := sync_log P ++ [(message, args)]; invoked := invoked P |}.

Definition set_thread_swap_request_slots_ (v : list Z) (L : Logger) : Logger :=
  {| max_threads_to_log_ := max_threads_to_log_ L;
     thread_swap_request_slots_ := v;
     swap_request_id_ := swap_request_id_ L;
     swap_request_id_read_ := swap_request_id_read_ L;
     swap_request_slots_to_retry_ := swap_request_slots_to_retry_ L;
     threads_to_swap_deferred_ := threads_to_swap_deferred_ L;
     threads_to_read_ := threads_to_read_ L;
     tls_loggers_registerd_ := tls_loggers_registerd_ L;
     tls_logger_orphans_ := tls_logger_orphans_ L;
     orphans_to_destroy_ := orphans_to_destroy_ L;
     swap_request_slots_retry_count_ := swap_request_slots_retry_count_ L;
     swap_request_slots_retry_retry_count_ := swap_request_slots_retry_retry_count_ L;
     swap_request_slots_retry_reencounter_count_ := swap_request_slots_retry_reencounter_count_ L;
     start_reading_entries_retry_count_ := start_reading_entries_retry_count_ L;
     tls_total_log_cas_fail_count_ := tls_total_log_cas_fail_count_ L;
     tls_total_swap_buffers_slot_retry_count_ := tls_total_swap_buffers_slot_retry_count_ L;
     async_logger_ := async_logger_ L; io_thread_ := io_thread_ L;
     keep_io_thread_alive_ := keep_io_thread_alive_ L |}.

Definition set_swap_request_id_ (v : Z) (L : Logger) : Logger :=
  {| max_threads_to_log_ := max_threads_to_log_ L;
     thread_swap_request_slots_ := thread_swap_request_slots_ L;
     swap_request_id_ := v; swap_request_id_read_ := swap_request_id_read_ L;
     swap_request_slots_to_retry_ := swap_request_slots_to_retry_ L;
     threads_to_swap_deferred_ := threads_to_swap_deferred_ L;
     threads_to_read_ := threads_to_read_ L;
     tls_loggers_registerd_ := tls_loggers_registerd_ L;
     tls_logger_orphans_ := tls_logger_orphans_ L;
     orphans_to_destroy_ := orphans_to_destroy_ L;
     swap_request_slots_retry_count_ := swap_request_slots_retry_count_ L;
     swap_request_slots_retry_retry_count_ := swap_request_slots_retry_retry_count_ L;
     swap_request_slots_retry_reencounter_count_ := swap_request_slots_retry_reencounter_count_ L;
     start_reading_entries_retry_count_ := start_reading_entries_retry_count_ L;
     tls_total_log_cas_fail_count_ := tls_total_log_cas_fail_count_ L;
     tls_total_swap_buffers_slot_retry_count_ := tls_total_swap_buffers_slot_retry_count_ L;
     async_logger_ := async_logger_ L; io_thread_ := io_thread_ L;
     keep_io_thread_alive_ := keep_io_thread_alive_ L |}.

Definition set_swap_request_id_read_ (v : Z) (L : Logger) : Logger :=
  {| max_threads_to_log_ := max_threads_to_log_ L;
     thread_swap_request_slots_ := thread_swap_request_slots_ L;
     swap_request_id_ := swap_request_id_ L; swap_request_id_read_ := v;
     swap_request_slots_to_retry_ := swap_request_slots_to_retry_ L;
     threads_to_swap_deferred_ := threads_to_swap_deferred_ L;
     threads_to_read_ := threads_to_read_ L;
     tls_loggers_registerd_ := tls_loggers_registerd_ L;
     tls_logger_orphans_ := tls_logger_orphans_ L;
     orphans_to_destroy_ := orphans_to_destroy_ L;
     swap_request_slots_retry_count_ := swap_request_slots_retry_count_ L;
     swap_request_slots_retry_retry_count_ := swap_request_slots_retry_retry_count_ L;
     swap_request_slots_retry_reencounter_count_ := swap_request_slots_retry_reencounter_count_ L;
     start_reading_entries_retry_count_ := start_reading_entries_retry_count_ L;
     tls_total_log_cas_fail_count_ := tls_total_log_cas_fail_count_ L;
     tls_total_swap_buffers_slot_retry_count_ := tls_total_swap_buffers_slot_retry_count_ L;
     async_logger_ := async_logger_ L; io_thread_ := io_thread_ L;
     keep_io_thread_alive_ := keep_io_thread_alive_ L |}.

Definition set_swap_request_slots_to_retry_ (v : list SlotRetry) (L : Logger) : Logger :=
  {| max_threads_to_log_ := max_threads_to_log_ L;
     thread_swap_request_slots_ := thread_swap_request_slots_ L;
     swap_request_id_ := swap_request_id_ L;
     swap_request_id_read_ := swap_request_id_read_ L;
     swap_request_slots_to_retry_ := v;
     threads_to_swap_deferred_ := threads_to_swap_deferred_ L;
     threads_to_read_ := threads_to_read_ L;
     tls_loggers_registerd_ := tls_loggers_registerd_ L;
     tls_logger_orphans_ := tls_logger_orphans_ L;
     orphans_to_destroy_ := orphans_to_destroy_ L;
     swap_request_slots_retry_count_ := swap_request_slots_retry_count_ L;
     swap_request_slots_retry_retry_count_ := swap_request_slots_retry_retry_count_ L;
     swap_request_slots_retry_reencounter_count_ := swap_request_slots_retry_reencounter_count_ L;
     start_reading_entries_retry_count_ := start_reading_entries_retry_count_ L;
     tls_total_log_cas_fail_count_ := tls_total_log_cas_fail_count_ L;
     tls_total_swap_buffers_slot_retry_count_ := tls_total_swap_buffers_slot_retry_count_ L;
     async_logger_ := async_logger_ L; io_thread_ := io_thread_ L;
     keep_io_thread_alive_ := keep_io_thread_alive_ L |}.

Definition set_threads_to_swap_deferred_ (v : list Z) (L : Logger) : Logger :=
  {| max_threads_to_log_ := max_threads_to_log_ L;
     thread_swap_request_slots_ := thread_swap_request_slots_ L;
     swap_request_id_ := swap_request_id_ L;
     swap_request_id_read_ := swap_request_id_read_ L;
     swap_request_slots_to_retry_ := swap_request_slots_to_retry_ L;
     threads_to_swap_deferred_ := v; threads_to_read_ := threads_to_read_ L;
     tls_loggers_registerd_ := tls_loggers_registerd_ L;
     tls_logger_orphans_ := tls_logger_orphans_ L;
     orphans_to_destroy_ := orphans_to_destroy_ L;
     swap_request_slots_retry_count_ := swap_request_slots_retry_count_ L;
     swap_request_slots_retry_retry_count_ := swap_request_slots_retry_retry_count_ L;
     swap_request_slots_retry_reencounter_count_ := swap_request_slots_retry_reencounter_count_ L;
     start_reading_entries_retry_count_ := start_reading_entries_retry_count_ L;
     tls_total_log_cas_fail_count_ := tls_total_log_cas_fail_count_ L;
     tls_total_swap_buffers_slot_retry_count_ := tls_total_swap_buffers_slot_retry_count_ L;
     async_logger_ := async_logger_ L; io_thread_ := io_thread_ L;
     keep_io_thread_alive_ := keep_io_thread_alive_ L |}.

Definition set_threads_to_read_ (v : list Z) (L : Logger) : Logger :=
  {| max_threads_to_log_ := max_threads_to_log_ L;
     thread_swap_request_slots_ := thread_swap_request_slots_ L;
     swap_request_id_ := swap_request_id_ L;
     swap_request_id_read_ := swap_request_id_read_ L;
     swap_request_slots_to_retry_ := swap_request_slots_to_retry_ L;
     threads_to_swap_deferred_ := threads_to_swap_deferred_ L;
     threads_to_read_ := v;
     tls_loggers_registerd_ := tls_loggers_registerd_ L;
     tls_logger_orphans_ := tls_logger_orphans_ L;
     orphans_to_destroy_ := orphans_to_destroy_ L;
     swap_request_slots_retry_count_ := swap_request_slots_retry_count_ L;
     swap_request_slots_retry_retry_count_ := swap_request_slots_retry_retry_count_ L;
     swap_request_slots_retry_reencounter_count_ := swap_request_slots_retry_reencounter_count_ L;
     start_reading_entries_retry_count_ := start_reading_entries_retry_count_ L;
     tls_total_log_cas_fail_count_ := tls_total_log_cas_fail_count_ L;
     tls_total_swap_buffers_slot_retry_count_ := tls_total_swap_buffers_slot_retry_count_ L;
     async_logger_ := async_logger_ L; io_thread_ := io_thread_ L;
     keep_io_thread_alive_ := keep_io_thread_alive_ L |}.

Definition set_tls_loggers_registerd_ (v : gset Z) (L : Logger) : Logger :=
  {| max_threads_to_log_ := max_threads_to_log_ L;
     thread_swap_request_slots_ := thread_swap_request_slots_ L;
     swap_request_id_ := swap_request_id_ L;
     swap_request_id_read_ := swap_request_id_read_ L;
     swap_request_slots_to_retry_ := swap_request_slots_to_retry_ L;
     threads_to_swap_deferred_ := threads_to_swap_deferred_ L;
     threads_to_read_ := threads_to_read_ L; tls_loggers_registerd_ := v;
     tls_logger_orphans_ := tls_logger_orphans_ L;
     orphans_to_destroy_ := orphans_to_destroy_ L;
     swap_request_slots_retry_count_ := swap_request_slots_retry_count_ L;
     swap_request_slots_retry_retry_count_ := swap_request_slots_retry_retry_count_ L;
     swap_request_slots_retry_reencounter_count_ := swap_request_slots_retry_reencounter_count_ L;
     start_reading_entries_retry_count_ := start_reading_entries_retry_count_ L;
     tls_total_log_cas_fail_count_ := tls_total_log_cas_fail_count_ L;
     tls_total_swap_buffers_slot_retry_count_ := tls_total_swap_buffers_slot_retry_count_ L;
     async_logger_ := async_logger_ L; io_thread_ := io_thread_ L;
     keep_io_thread_alive_ := keep_io_thread_alive_ L |}.

Definition set_tls_logger_orphans_ (v : list Z) (L : Logger) : Logger :=
  {| max_threads_to_log_ := max_threads_to_log_ L;
     thread_swap_request_slots_ := thread_swap_request_slots_ L;
     swap_request_id_ := swap_request_id_ L;
     swap_request_id_read_ := swap_request_id_read_ L;
     swap_request_slots_to_retry_ := swap_request_slots_to_retry_ L;
     threads_to_swap_deferred_ := threads_to_swap_deferred_ L;
     threads_to_read_ := threads_to_read_ L;
     tls_loggers_registerd_ := tls_loggers_registerd_ L;
     tls_logger_orphans_ := v; orphans_to_destroy_ := orphans_to_destroy_ L;
     swap_request_slots_retry_count_ := swap_request_slots_retry_count_ L;
     swap_request_slots_retry_retry_count_ := swap_request_slots_retry_retry_count_ L;
     swap_request_slots_retry_reencounter_count_ := swap_request_slots_retry_reencounter_count_ L;
     start_reading_entries_retry_count_ := start_reading_entries_retry_count_ L;
     tls_total_log_cas_fail_count_ := tls_total_log_cas_fail_count_ L;
     tls_total_swap_buffers_slot_retry_count_ := tls_total_swap_buffers_slot_retry_count_ L;
     async_logger_ := async_logger_ L; io_thread_ := io_thread_ L;
     keep_io_thread_alive_ := keep_io_thread_alive_ L |}.

Definition set_orphans_to_destroy_ (v : list Z) (L : Logger) : Logger :=
  {| max_threads_to_log_ := max_threads_to_log_ L;
     thread_swap_request_slots_ := thread_swap_request_slots_ L;
     swap_request_id_ := swap_request_id_ L;
     swap_request_id_read_ := swap_request_id_read_ L;
     swap_request_slots_to_retry_ := swap_request_slots_to_retry_ L;
     threads_to_swap_deferred_ := threads_to_swap_deferred_ L;
     threads_to_read_ := threads_to_read_ L;
     tls_loggers_registerd_ := tls_loggers_registerd_ L;
     tls_logger_orphans_ := tls_logger_orphans_ L; orphans_to_destroy_ := v;
     swap_request_slots_retry_count_ := swap_request_slots_retry_count_ L;
     swap_request_slots_retry_retry_count_ := swap_request_slots_retry_retry_count_ L;
     swap_request_slots_retry_reencounter_count_ := swap_request_slots_retry_reencounter_count_ L;
     start_reading_entries_retry_count_ := start_reading_entries_retry_count_ L;
     tls_total_log_cas_fail_count_ := tls_total_log_cas_fail_count_ L;
     tls_total_swap_buffers_slot_retry_count_ := tls_total_swap_buffers_slot_retry_count_ L;
     async_logger_ := async_logger_ L; io_thread_ := io_thread_ L;
     keep_io_thread_alive_ := keep_io_thread_alive_ L |}.

Definition set_swap_request_slots_retry_count_ (v : Z) (L : Logger) : Logger :=
  {| max_threads_to_log_ := max_threads_to_log_ L;
     thread_swap_request_slots_ := thread_swap_request_slots_ L;
     swap_request_id_ := swap_request_id_ L;
     swap_request_id_read_ := swap_request_id_read_ L;
     swap_request_slots_to_retry_ := swap_request_slots_to_retry_ L;
     threads_to_swap_deferred_ := threads_to_swap_deferred_ L;
     threads_to_read_ := threads_to_read_ L;
     tls_loggers_registerd_ := tls_loggers_registerd_ L;
     tls_logger_orphans_ := tls_logger_orphans_ L;
     orphans_to_destroy_ := orphans_to_destroy_ L;
     swap_request_slots_retry_count_ := v;
     swap_request_slots_retry_retry_count_ := swap_request_slots_retry_retry_count_ L;
     swap_request_slots_retry_reencounter_count_ := swap_request_slots_retry_reencounter_count_ L;
     start_reading_entries_retry_count_ := start_reading_entries_retry_count_ L;
     tls_total_log_cas_fail_count_ := tls_total_log_cas_fail_count_ L;
     tls_total_swap_buffers_slot_retry_count_ := tls_total_swap_buffers_slot_retry_count_ L;
     async_logger_ := async_logger_ L; io_thread_ := io_thread_ L;
     keep_io_thread_alive_ := keep_io_thread_alive_ L |}.

Definition set_swap_request_slots_retry_retry_count_ (v : Z) (L : Logger) : Logger :=
  {| max_threads_to_log_ := max_threads_to_log_ L;
     thread_swap_request_slots_ := thread_swap_request_slots_ L;
     swap_request_id_ := swap_request_id_ L;
     swap_request_id_read_ := swap_request_id_read_ L;
     swap_request_slots_to_retry_ := swap_request_slots_to_retry_ L;
     threads_to_swap_deferred_ := threads_to_swap_deferred_ L;
     threads_to_read_ := threads_to_read_ L;
     tls_loggers_registerd_ := tls_loggers_registerd_ L;
     tls_logger_orphans_ := tls_logger_orphans_ L;
     orphans_to_destroy_ := orphans_to_destroy_ L;
     swap_request_slots_retry_count_ := swap_request_slots_retry_count_ L;
     swap_request_slots_retry_retry_count_ := v;
     swap_request_slots_retry_reencounter_count_ := swap_request_slots_retry_reencounter_count_ L;
     start_reading_entries_retry_count_ := start_reading_entries_retry_count_ L;
     tls_total_log_cas_fail_count_ := tls_total_log_cas_fail_count_ L;
     tls_total_swap_buffers_slot_retry_count_ := tls_total_swap_buffers_slot_retry_count_ L;
     async_logger_ := async_logger_ L; io_thread_ := io_thread_ L;
     keep_io_thread_alive_ := keep_io_thread_alive_ L |}.

Definition set_swap_request_slots_retry_reencounter_count_ (v : Z) (L : Logger) : Logger :=
  {| max_threads_to_log_ := max_threads_to_log_ L;
     thread_swap_request_slots_ := thread_swap_request_slots_ L;
     swap_request_id_ := swap_request_id_ L;
     swap_request_id_read_ := swap_request_id_read_ L;
     swap_request_slots_to_retry_ := swap_request_slots_to_retry_ L;
     threads_to_swap_deferred_ := threads_to_swap_deferred_ L;
     threads_to_read_ := threads_to_read_ L;
     tls_loggers_registerd_ := tls_loggers_registerd_ L;
     tls_logger_orphans_ := tls_logger_orphans_ L;
     orphans_to_destroy_ := orphans_to_destroy_ L;
     swap_request_slots_retry_count_ := swap_request_slots_retry_count_ L;
     swap_request_slots_retry_retry_count_ := swap_request_slots_retry_retry_count_ L;
     swap_request_slots_retry_reencounter_count_ := v;
     start_reading_entries_retry_count_ := start_reading_entries_retry_count_ L;
     tls_total_log_cas_fail_count_ := tls_total_log_cas_fail_count_ L;
     tls_total_swap_buffers_slot_retry_count_ := tls_total_swap_buffers_slot_retry_count_ L;
     async_logger_ := async_logger_ L; io_thread_ := io_thread_ L;
     keep_io_thread_alive_ := keep_io_thread_alive_ L |}.

Definition set_start_reading_entries_retry_count_ (v : Z) (L : Logger) : Logger :=
  {| max_threads_to_log_ := max_threads_to_log_ L;
     thread_swap_request_slots_ := thread_swap_request_slots_ L;
     swap_request_id_ := swap_request_id_ L;
     swap_request_id_read_ := swap_request_id_read_ L;
     swap_request_slots_to_retry_ := swap_request_slots_to_retry_ L;
     threads_to_swap_deferred_ := threads_to_swap_deferred_ L;
     threads_to_read_ := threads_to_read_ L;
     tls_loggers_registerd_ := tls_loggers_registerd_ L;
     tls_logger_orphans_ := tls_logger_orphans_ L;
     orphans_to_destroy_ := orphans_to_destroy_ L;
     swap_request_slots_retry_count_ := swap_request_slots_retry_count_ L;
     swap_request_slots_retry_retry_count_ := swap_request_slots_retry_retry_count_ L;
     swap_request_slots_retry_reencounter_count_ := swap_request_slots_retry_reencounter_count_ L;
     start_reading_entries_retry_count_ := v;
     tls_total_log_cas_fail_count_ := tls_total_log_cas_fail_count_ L;
     tls_total_swap_buffers_slot_retry_count_ := tls_total_swap_buffers_slot_retry_count_ L;
     async_logger_ := async_logger_ L; io_thread_ := io_thread_ L;
     keep_io_thread_alive_ := keep_io_thread_alive_ L |}.

Definition set_tls_total_log_cas_fail_count_ (v : Z) (L : Logger) : Logger :=
  {| max_threads_to_log_ := max_threads_to_log_ L;
     thread_swap_request_slots_ := thread_swap_request_slots_ L;
     swap_request_id_ := swap_request_id_ L;
     swap_request_id_read_ := swap_request_id_read_ L;
     swap_request_slots_to_retry_ := swap_request_slots_to_retry_ L;
     threads_to_swap_deferred_ := threads_to_swap_deferred_ L;
     threads_to_read_ := threads_to_read_ L;
     tls_loggers_registerd_ := tls_loggers_registerd_ L;
     tls_logger_orphans_ := tls_logger_orphans_ L;
     orphans_to_destroy_ := orphans_to_destroy_ L;
     swap_request_slots_retry_count_ := swap_request_slots_retry_count_ L;
     swap_request_slots_retry_retry_count_ := swap_request_slots_retry_retry_count_ L;
     swap_request_slots_retry_reencounter_count_ := swap_request_slots_retry_reencounter_count_ L;
     start_reading_entries_retry_count_ := start_reading_entries_retry_count_ L;
     tls_total_log_cas_fail_count_ := v;
     tls_total_swap_buffers_slot_retry_count_ := tls_total_swap_buffers_slot_retry_count_ L;
     async_logger_ := async_logger_ L; io_thread_ := io_thread_ L;
     keep_io_thread_alive_ := keep_io_thread_alive_ L |}.

Definition set_tls_total_swap_buffers_slot_retry_count_ (v : Z) (L : Logger) : Logger :=
  {| max_threads_to_log_ := max_threads_to_log_ L;
     thread_swap_request_slots_ := thread_swap_request_slots_ L;
     swap_request_id_ := swap_request_id_ L;
     swap_request_id_read_ := swap_request_id_read_ L;
     swap_request_slots_to_retry_ := swap_request_slots_to_retry_ L;
     threads_to_swap_deferred_ := threads_to_swap_deferred_ L;
     threads_to_read_ := threads_to_read_ L;
     tls_loggers_registerd_ := tls_loggers_registerd_ L;
     tls_logger_orphans_ := tls_logger_orphans_ L;
     orphans_to_destroy_ := orphans_to_destroy_ L;
     swap_request_slots_retry_count_ := swap_request_slots_retry_count_ L;
     swap_request_slots_retry_retry_count_ := swap_request_slots_retry_retry_count_ L;
     swap_request_slots_retry_reencounter_count_ := swap_request_slots_retry_reencounter_count_ L;
     start_reading_entries_retry_count_ := start_reading_entries_retry_count_ L;
     tls_total_log_cas_fail_count_ := tls_total_log_cas_fail_count_ L;
     tls_total_swap_buffers_slot_retry_count_ := v;
     async_logger_ := async_logger_ L; io_thread_ := io_thread_ L;
     keep_io_thread_alive_ := keep_io_thread_alive_ L |}.

Definition set_async_logger_ (v : list AsyncEvent) (L : Logger) : Logger :=
  {| max_threads_to_log_ := max_threads_to_log_ L;
     thread_swap_request_slots_ := thread_swap_request_slots_ L;
     swap_request_id_ := swap_request_id_ L;
     swap_request_id_read_ := swap_request_id_read_ L;
     swap_request_slots_to_retry_ := swap_request_slots_to_retry_ L;
     threads_to_swap_deferred_ := threads_to_swap_deferred_ L;
     threads_to_read_ := threads_to_read_ L;
     tls_loggers_registerd_ := tls_loggers_registerd_ L;
     tls_logger_orphans_ := tls_logger_orphans_ L;
     orphans_to_destroy_ := orphans_to_destroy_ L;
     swap_request_slots_retry_count_ := swap_request_slots_retry_count_ L;
     swap_request_slots_retry_retry_count_ := swap_request_slots_retry_retry_count_ L;
     swap_request_slots_retry_reencounter_count_ := swap_request_slots_retry_reencounter_count_ L;
     start_reading_entries_retry_count_ := start_reading_entries_retry_count_ L;
     tls_total_log_cas_fail_count_ := tls_total_log_cas_fail_count_ L;
     tls_total_swap_buffers_slot_retry_count_ := tls_total_swap_buffers_slot_retry_count_ L;
     async_logger_ := v; io_thread_ := io_thread_ L;
     keep_io_thread_alive_ := keep_io_thread_alive_ L |}.

(** The constructor: [2 * max_threads_to_log] slots, slot [i] free for
    request [i]. *)
Definition Logger_ctor (max_threads_to_log : Z) (io_thread : Z) : Logger :=
  let kSlotCount := wrap (max_threads_to_log * 2) in
  {| max_threads_to_log_ := max_threads_to_log;
     thread_swap_request_slots_ :=
       map (fun i => SwapRequestSlotIsWritableValue (Z.of_nat i))
           (seq 0 (Z.to_nat kSlotCount));
     swap_request_id_ := 0;
     swap_request_id_read_ := 0;
     swap_request_slots_to_retry_ := [];
     threads_to_swap_deferred_ := [];
     threads_to_read_ := [];
     tls_loggers_registerd_ := ∅;
     tls_logger_orphans_ := [];
     orphans_to_destroy_ := [];
     swap_request_slots_retry_count_ := 0;
     swap_request_slots_retry_retry_count_ := 0;
     swap_request_slots_retry_reencounter_count_ := 0;
     start_reading_entries_retry_count_ := 0;
     tls_total_log_cas_fail_count_ := 0;
     tls_total_swap_buffers_slot_retry_count_ := 0;
     async_logger_ := [];
     io_thread_ := io_thread;
     keep_io_thread_alive_ := true |}.

(** A function that may hit a failed [assert]: the value and the memory it
    returns with, or the memory at the failed assertion. *)
Inductive result (A : Type) :=
| Ok (a : A) (P : Process)
| AssertFailed (P : Process).
Arguments Ok {A} a P.
Arguments AssertFailed {A} P.

(** [thread_swap_request_slots_.size()] *)
Definition slots_size (P : Process) : Z :=
  Z.of_nat (length (thread_swap_request_slots_ (logger P))).

(** [thread_swap_request_slots_[slot].load()].  [slot] is always an id
    modulo the size, so it is in range unless there are no slots at all.
    With no slots the program divides by zero at [id % size] (lines 141 and
    318); here [id mod 0] is [id], the load gives [0] and the store below
    does nothing, so what is proved of the ring asks for a slot, or for a
    ring that is not empty. *)
Definition load_slot (slot : Z) (P : Process) : Z :=
  default 0 (thread_swap_request_slots_ (logger P) !! Z.to_nat slot).

Definition store_slot (slot : Z) (v : Z) (P : Process) : Process :=
  on_logger (fun L => set_thread_swap_request_slots_
    (<[Z.to_nat slot := v]> (thread_swap_request_slots_ L)) L) P.

(** *** Logger::RequestSwapBuffers, statement by statement

    The assertion of line 130, that the pointer is even, is not among the
    statements: the theorems about the function ask for a readable pointer
    where they need one. *)

(** [id = swap_request_id_.fetch_add(1)] *)
Definition RequestSwapBuffers_fetch (P : Process) : Z * Process :=
  let id := swap_request_id_ (logger P) in
  (id, on_logger (set_swap_request_id_ (wrap (id + 1))) P).

(** The loop condition: the CAS of the slot of [id] from its writable tag
    to the pointer.  [true] when the exchange took place. *)
Definition RequestSwapBuffers_cas (tls_logger id : Z) (P : Process)
    : Process * bool :=
  let slot := id mod slots_size P in
  let slot_is_writeable_value := SwapRequestSlotIsWritableValue id in
  let '(v, success) :=
    compare_exchange_strong Z.eqb (load_slot slot P)
      slot_is_writeable_value tls_logger in
  (store_slot slot v P, success).

(** [tls_logger->RequestSwapBuffersSlotRetried()] *)
Definition RequestSwapBuffers_retried (tls_logger : Z) (P : Process) : Process :=
  set_heap (alter RequestSwapBuffersSlotRetried tls_logger (heap P)) P.

(** The loop, run without interference.  It ends only when a CAS succeeds,
    so it takes fuel; [None] is out of fuel. *)
Fixpoint RequestSwapBuffers_loop (fuel : nat) (tls_logger id : Z)
    (P : Process) : option Process :=
  match fuel with
  | O => None
  | S fuel' =>
    let '(P1, success) := RequestSwapBuffers_cas tls_logger id P in
    if success then Some P1
    else
      let '(id', P2) := RequestSwapBuffers_fetch P1 in
      RequestSwapBuffers_loop fuel' tls_logger id'
        (RequestSwapBuffers_retried tls_logger P2)
  end.

Definition RequestSwapBuffers (fuel : nat) (tls_logger : Z) (P : Process)
    : option Process :=
  let '(id, P1) := RequestSwapBuffers_fetch P in
  RequestSwapBuffers_loop fuel tls_logger id P1.

(** What [RequestSwapBuffers] leaves alone. *)
Definition request_frame (this : Z) (P P' : Process) : Prop :=
  logger P' =
    set_swap_request_id_ (swap_request_id_ (logger P'))
      (set_thread_swap_request_slots_
         (thread_swap_request_slots_ (logger P')) (logger P)) ∧
  (∀ q, q ≠ this → heap P' !! q = heap P !! q) ∧
  (∀ t, heap P !! this = Some t →
     ∃ n, heap P' !! this = Some (set_swap_buffers_slot_retry_count_ n t)) ∧
  (heap P !! this = None → heap P' !! this = None) ∧
  promises P' = promises P ∧ sync_log P' = sync_log P ∧
  invoked P' = invoked P.

(** What [TlsLogger::Log] leaves alone: all of the [Logger] but the ring,
    and the other TlsLoggers. *)
Definition ring_frame (this : Z) (P P' : Process) : Prop :=
  logger P' =
    set_swap_request_id_ (swap_request_id_ (logger P'))
      (set_thread_swap_request_slots_
         (thread_swap_request_slots_ (logger P')) (logger P)) ∧
  (∀ q, q ≠ this → heap P' !! q = heap P !! q) ∧
  promises P' = promises P ∧ sync_log P' = sync_log P ∧
  invoked P' = invoked P.

(** *** Registry *)

Definition RegisterTlsLogger (tls_logger : Z) (P : Process) : Process :=
  let P1 :=
    if max_threads_to_log_ (logger P)
         <=? Z.of_nat (size (tls_loggers_registerd_ (logger P)))
    then LogErrorSync
           "Warning: More TLS loggers registerd than can be active simultaneously.
"
           [] P
    else P in
  on_logger (fun L => set_tls_loggers_registerd_
    ({[tls_logger]} ∪ tls_loggers_registerd_ L) L) P1.

(** [CollectTlsLoggerStats]; a pointer to no object is not followed. *)
Definition CollectTlsLoggerStats (tls_logger : Z) (P : Process) : Process :=
  match heap P !! tls_logger with
  | None => P
  | Some t =>
    let '(c1, t1) := ReportLogCasFailCount t in
    let P1 := on_logger (fun L => set_tls_total_log_cas_fail_count_
                (wrap (tls_total_log_cas_fail_count_ L + c1)) L) P in
    let '(c2, t2) := ReportSwapBuffersSlotRetryCount t1 in
    let P2 := on_logger (fun L => set_tls_total_swap_buffers_slot_retry_count_
                (wrap (tls_total_swap_buffers_slot_retry_count_ L + c2)) L) P1 in
    set_heap (<[tls_logger := t2]> (heap P2)) P2
  end.

(** *** The ring, consumer side *)

Definition GetTlsLoggerThatRequestedSwap (slot next_id : Z) (P : Process)
    : result Z :=
  let slot_value := load_slot slot P in
  if SwapRequestSlotIsReadable slot_value then
    let '(v, success) :=
      compare_exchange_strong Z.eqb (load_slot slot P) slot_value
        (SwapRequestSlotIsWritableValue next_id) in
    if success then Ok slot_value (store_slot slot v P)
    else AssertFailed (LogErrorSync "CAS failed." [("line", 288)] P)
  else Ok 0 P.

(** The body of the loop of [GatherRetrySwapRequests]. *)
Definition GatherRetry_body (slot_retry : SlotRetry)
    (threads_to_swap : list Z) (P : Process) : result (list Z) :=
  match GetTlsLoggerThatRequestedSwap (slot slot_retry) (next_id slot_retry) P with
  | AssertFailed P' => AssertFailed P'
  | Ok tls_logger P1 =>
    if tls_logger =? 0 then
      Ok threads_to_swap
        (on_logger (fun L =>
           set_swap_request_slots_retry_retry_count_
             (wrap (swap_request_slots_retry_retry_count_ L + 1))
             (set_swap_request_slots_to_retry_
                (swap_request_slots_to_retry_ L ++ [slot_retry]) L)) P1)
    else Ok (threads_to_swap ++ [tls_logger]) P1
  end.

Fixpoint GatherRetry_loop (retry_slots : list SlotRetry)
    (threads_to_swap : list Z) (P : Process) : result (list Z) :=
  match retry_slots with
  | [] => Ok threads_to_swap P
  | slot_retry :: rest =>
    match GatherRetry_body slot_retry threads_to_swap P with
    | AssertFailed P' => AssertFailed P'
    | Ok threads_to_swap' P1 => GatherRetry_loop rest threads_to_swap' P1
    end
  end.

Definition GatherRetrySwapRequests (threads_to_swap : list Z) (P : Process)
    : result (list Z) :=
  match swap_request_slots_to_retry_ (logger P) with
  | [] => Ok threads_to_swap P
  | retry_slots =>
    GatherRetry_loop retry_slots threads_to_swap
      (on_logger (set_swap_request_slots_to_retry_ []) P)
  end.

(** [std::find_if] for the slot followed by [it->next_id = next_id]:
    [None] when the slot is not in the list. *)
Fixpoint update_retry (slot0 next_id0 : Z) (l : list SlotRetry)
    : option (list SlotRetry) :=
  match l with
  | [] => None
  | s :: l' =>
    if slot s =? slot0 then Some ({| slot := slot s; next_id := next_id0 |} :: l')
    else match update_retry slot0 next_id0 l' with
         | Some l'' => Some (s :: l'')
         | None => None
         end
  end.

(** The body of the loop of [GatherNewSwapRequests], with the increment of
    [swap_request_id_read_]. *)
Definition GatherNew_body (threads_to_swap : list Z) (P : Process)
    : result (list Z) :=
  let slot := swap_request_id_read_ (logger P) mod slots_size P in
  let next_id := wrap (swap_request_id_read_ (logger P) + slots_size P) in
  let incr := on_logger (fun L =>
    set_swap_request_id_read_ (wrap (swap_request_id_read_ L + 1)) L) in
  match GetTlsLoggerThatRequestedSwap slot next_id P with
  | AssertFailed P' => AssertFailed P'
  | Ok tls_logger P1 =>
    if tls_logger =? 0 then
      let P2 := on_logger (fun L => set_swap_request_slots_retry_count_
                  (wrap (swap_request_slots_retry_count_ L + 1)) L) P1 in
      match update_retry slot next_id (swap_request_slots_to_retry_ (logger P2)) with
      | None =>
        Ok threads_to_swap
          (incr (on_logger (fun L => set_swap_request_slots_to_retry_
             (swap_request_slots_to_retry_ L ++ [{| slot := slot; next_id := next_id |}])
             L) P2))
      | Some l =>
        Ok threads_to_swap
          (incr (on_logger (fun L =>
             set_swap_request_slots_retry_reencounter_count_
               (wrap (swap_request_slots_retry_reencounter_count_ L + 1))
               (set_swap_request_slots_to_retry_ l L)) P2))
      end
    else Ok (threads_to_swap ++ [tls_logger]) (incr P1)
  end.

(** The [for] loop: [n] bounds the number of iterations. *)
Fixpoint GatherNew_loop (n : nat) (swap_request_end : Z)
    (threads_to_swap : list Z) (P : Process) : result (list Z) :=
  match n with
  | O => Ok threads_to_swap P
  | S n' =>
    if swap_request_id_read_ (logger P) <? swap_request_end then
      match GatherNew_body threads_to_swap P with
      | AssertFailed P' => AssertFailed P'
      | Ok threads_to_swap' P1 =>
        GatherNew_loop n' swap_request_end threads_to_swap' P1
      end
    else Ok threads_to_swap P
  end.

(** [GatherNewSwapRequests], run without interference.  The loop runs
    [swap_request_end - swap_request_id_read_] times. *)
Definition GatherNewSwapRequests (threads_to_swap : list Z) (P : Process)
    : result (list Z) :=
  let swap_request_end := swap_request_id_ (logger P) in
  GatherNew_loop
    (Z.to_nat (swap_request_end - swap_request_id_read_ (logger P)))
    swap_request_end threads_to_swap P.

(** [thread->SwapBuffers()] run without interference. *)
Definition SwapBuffers (this : Z) (P : Process) : option (result unit) :=
  match heap P !! this with
  | None => None
  | Some t =>
    match TlsLogger_SwapBuffers t with
    | Some t' => Some (Ok tt (set_heap (<[this := t']> (heap P)) P))
    | None => Some (AssertFailed (LogErrorSync "CAS failed." [("line", 484)] P))
    end
  end.

(** *** TlsLogger::Log *)

(** One iteration of the [while] loop that takes the write lock: the CAS
    of the condition and, when it fails, the loop body. *)
Inductive lock_outcome :=
| Locked (P : Process)
| Retry (i_write : index) (cas_fail_count : Z) (P : Process)
| LockAssertFailed (P : Process).

Definition Log_lock_iteration (this : Z) (t : TlsLogger) (i_write : index)
    (cas_fail_count : Z) (P : Process) : lock_outcome :=
  let '(t1, success) := Log_try_lock i_write t in
  if success then Locked (set_heap (<[this := t1]> (heap P)) P)
  else
    let i_write' := flip i_write in
    let cas_fail_count' := wrap (cas_fail_count + 1) in
    if 3 <=? cas_fail_count' then
      LockAssertFailed
        (LogErrorSync "CAS failed." [("times", cas_fail_count'); ("line", 453)] P)
    else
      Retry i_write' cas_fail_count'
        (set_heap (<[this := Log_count_fail t1]> (heap P)) P).

(** The release of the write lock, with its check. *)
Definition Log_release (this : Z) (t : TlsLogger) (i_write : index)
    (P : Process) : result unit :=
  let '(t1, success) := Log_unlock i_write t in
  if success then Ok tt (set_heap (<[this := t1]> (heap P)) P)
  else AssertFailed (LogErrorSync "CAS failed." [("line", 466)] P).

(** The lock loop run without interference.  The assertion stops it at the
    third failure, so three iterations are all there can be. *)
Fixpoint Log_lock_loop (n : nat) (this : Z) (i_write : index)
    (cas_fail_count : Z) (P : Process) : option (result index) :=
  match n with
  | O => None
  | S n' =>
    match heap P !! this with
    | None => None
    | Some t =>
      match Log_lock_iteration this t i_write cas_fail_count P with
      | Locked P1 => Some (Ok i_write P1)
      | Retry i_write' cas_fail_count' P1 =>
        Log_lock_loop n' this i_write' cas_fail_count' P1
      | LockAssertFailed P1 => Some (AssertFailed P1)
      end
    end
  end.

(** [TlsLogger::Log] run without interference.  [None]: [this] points to no
    object, or [RequestSwapBuffers] ran out of [fuel]. *)
Definition TlsLogger_Log (fuel : nat) (this : Z) (entry : AsyncLogEntry)
    (P : Process) : option (result unit) :=
  match heap P !! this with
  | None => None
  | Some t =>
    match Log_lock_loop 3 this (i_write_ t) 0 P with
    | None => None
    | Some (AssertFailed P') => Some (AssertFailed P')
    | Some (Ok i_write P1) =>
      match heap P1 !! this with
      | None => None
      | Some t1 =>
        let t2 := Log_emplace_back i_write entry t1 in
        match Log_release this t2 i_write P1 with
        | AssertFailed P' => Some (AssertFailed P')
        | Ok _ P2 =>
          match heap P2 !! this with
          | None => None
          | Some t3 =>
            if write_buffer_swapped i_write t3 then
              match RequestSwapBuffers fuel this P2 with
              | None => None
              | Some P3 =>
                Some (Ok tt (set_heap
                  (alter (set_i_write_prev_ i_write) this (heap P3)) P3))
              end
            else Some (Ok tt P2)
          end
        end
      end
    end
  end.

(** *** Logger::UnRegisterTlsLogger, block by block *)

(** [tls_logger_orphans_.emplace_front]; the iterator [orphan] is
    identified with the pointer it holds. *)
Definition UnRegister_adopt (tls_logger : Z) (P : Process) : Process :=
  on_logger (fun L =>
    set_tls_logger_orphans_ (tls_logger :: tls_logger_orphans_ L) L) P.

(** [tls_loggers_registerd_.erase(orphan->get())] *)
Definition UnRegister_erase (orphan : Z) (P : Process) : Process :=
  on_logger (fun L =>
    set_tls_loggers_registerd_ (tls_loggers_registerd_ L ∖ {[orphan]}) L) P.

(** [( *orphan)->Log(...)] with the closure that retires the orphan. *)
Definition UnRegister_submit (fuel : nat) (orphan : Z) (P : Process)
    : option (result unit) :=
  TlsLogger_Log fuel orphan (RetireOrphan orphan) P.

(** The function.  Each of its two blocks holds a mutex and the last
    statement is a call of [Log]; between them the other threads see the
    memory.  With its result the function gives the memory as it is when the
    mutex of the first block is released (line 171) and when the mutex of
    the second is (line 178), in that order. *)
Definition UnRegisterTlsLogger (fuel : nat) (tls_logger : Z) (P : Process)
    : list Process * option (result unit) :=
  let P1 := UnRegister_adopt tls_logger P in
  let orphan := tls_logger in
  let P2 := UnRegister_erase orphan P1 in
  ([P1; P2], UnRegister_submit fuel orphan P2).

(** *** Running an entry on the I/O thread *)

Definition log_detail (message : string) (value : option Z) (P : Process)
    : Process :=
  on_logger (fun L => set_async_logger_
    (async_logger_ L ++ [EvLogDetail message value]) L) P.

(** The bodies of the closures. *)
Definition run_entry (entry : AsyncLogEntry) (P : Process) : Process :=
  match entry with
  | UserEntry label =>
    on_logger (fun L => set_async_logger_ (async_logger_ L ++ [EvUser label]) L) P
  | RetireOrphan orphan =>
    on_logger (fun L => set_orphans_to_destroy_ (orphans_to_destroy_ L ++ [orphan]) L)
      (CollectTlsLoggerStats orphan P)
  | ReportContention =>
    let P1 := foldl (fun P' tls_logger => CollectTlsLoggerStats tls_logger P') P
                (elements (tls_loggers_registerd_ (logger P))) in
    let P2 := foldl (fun P' orphan => CollectTlsLoggerStats orphan P') P1
                (tls_logger_orphans_ (logger P1)) in
    let L := logger P2 in
    log_detail "tls_total_swap_buffers_slot_retry_count"
        (Some (tls_total_swap_buffers_slot_retry_count_ L))
      (log_detail "tls_total_log_cas_fail_count"
        (Some (tls_total_log_cas_fail_count_ L))
      (log_detail "start_reading_entries_retry_count"
        (Some (start_reading_entries_retry_count_ L))
      (log_detail "swap_request_slots_retry_reencounter_count"
        (Some (swap_request_slots_retry_reencounter_count_ L))
      (log_detail "swap_request_slots_retry_retry_count"
        (Some (swap_request_slots_retry_retry_count_ L))
      (log_detail "swap_request_slots_retry_count"
        (Some (swap_request_slots_retry_count_ L))
      (log_detail "Log Contention Counters:" None P2))))))
  | SetPromise owner serial =>
    set_promises ({[(owner, serial)]} ∪ promises P) P
  end.

(** [entry(async_logger_)] for an entry read from [tls_logger]. *)
Definition invoke_entry (tls_logger : Z) (P : Process) (entry : AsyncLogEntry)
    : Process :=
  run_entry entry (set_invoked (invoked P ++ [(tls_logger, entry)]) P).

(** [SetCurrentTracePidTidString] and the loop over [*entries]. *)
Definition IOThread_invoke_entries (thread : Z) (t : TlsLogger) (i : index)
    (P : Process) : Process :=
  let P1 := on_logger (fun L => set_async_logger_
              (async_logger_ L ++ [EvSetCurrentTracePidTidString (trace_pid_tid_ t)]) L) P in
  foldl (invoke_entry thread) P1 (sel i (entries_ t)).

(** Modelled from the spec: [RemoveValue] of utils.h, which is not among
    the sources; the spec has the I/O thread "remove from the list" the
    loggers it has read and "leave in the list" the others. *)
Definition RemoveValue (l : list Z) (v : Z) : list Z :=
  filter (fun x => x ≠ v) l.

(** [tls_logger_orphans_.erase(orphan)] destroys the TlsLogger it owns. *)
Definition erase_orphan (P : Process) (orphan : Z) : Process :=
  set_heap (delete orphan (heap P))
    (on_logger (fun L => set_tls_logger_orphans_
       (filter (fun x => x ≠ orphan) (tls_logger_orphans_ L)) L) P).

(** The last block of the loop of [IOThread]. *)
Definition IOThread_retire (P : Process) : Process :=
  match orphans_to_destroy_ (logger P) with
  | [] => P
  | to_destroy =>
    on_logger (set_orphans_to_destroy_ []) (foldl erase_orphan P to_destroy)
  end.

(** What running entries leaves alone: in a TlsLogger all but the two
    contention counters, in the [Logger] all but the two totals, the
    [AsyncLog] and [orphans_to_destroy_]. *)
Definition same_protocol (t t' : TlsLogger) : Prop :=
  t' = set_swap_buffers_slot_retry_count_ (swap_buffers_slot_retry_count_ t')
         (set_log_cas_fail_count_ (log_cas_fail_count_ t') t).

Definition entry_frame (P P' : Process) : Prop :=
  (∀ q, match heap P !! q, heap P' !! q with
        | Some t, Some t' => same_protocol t t'
        | None, None => True
        | _, _ => False
        end) ∧
  logger P' =
    set_async_logger_ (async_logger_ (logger P'))
      (set_orphans_to_destroy_ (orphans_to_destroy_ (logger P'))
         (set_tls_total_log_cas_fail_count_
            (tls_total_log_cas_fail_count_ (logger P'))
            (set_tls_total_swap_buffers_slot_retry_count_
               (tls_total_swap_buffers_slot_retry_count_ (logger P'))
               (logger P)))) ∧
  sync_log P' = sync_log P.

(** What the gathering of swap requests leaves alone: all but the ring,
    the retry list, [swap_request_id_read_] and three counters. *)
Definition gather_frame (P P' : Process) : Prop :=
  logger P' =
    set_thread_swap_request_slots_ (thread_swap_request_slots_ (logger P'))
      (set_swap_request_id_read_ (swap_request_id_read_ (logger P'))
         (set_swap_request_slots_to_retry_
            (swap_request_slots_to_retry_ (logger P'))
            (set_swap_request_slots_retry_count_
               (swap_request_slots_retry_count_ (logger P'))
               (set_swap_request_slots_retry_retry_count_
                  (swap_request_slots_retry_retry_count_ (logger P'))
                  (set_swap_request_slots_retry_reencounter_count_
                     (swap_request_slots_retry_reencounter_count_ (logger P'))
                     (logger P)))))) ∧
  heap P' = heap P ∧ promises P' = promises P ∧
  sync_log P' = sync_log P ∧ invoked P' = invoked P.

(** ** Callers

    What a thread does to the logger is a list of calls; a call is a list
    of operations.  [OLog] is [TlsLogger::Log] on the thread's own
    TlsLogger; [OWait] is [get_future().wait()] on the caller's promise.
    The end of a thread is not among the calls: in the runs of [step] no
    TlsLogger is orphaned or destroyed ([UnRegisterTlsLogger] and the end of
    an orphan on the I/O thread are treated on their own). *)

Inductive Op :=
| OLogErrorSync (message : string)
| OLog (entry : AsyncLogEntry)
| OWait (owner : Z) (serial : nat)
| OSetLogFiles (summary detail : string)
| OStartNewTrace (trace_out : option string).

Definition StartLogging (summary detail : string) : list Op :=
  [OSetLogFiles summary detail].

(** The promise is a local of the call: it is named by the caller's
    TlsLogger and the number of the call. *)
Definition StopLogging (this_thread io_thread : Z) (owner : Z) (serial : nat)
    : list Op :=
  if this_thread =? io_thread then
    [OLogErrorSync "StopLogging() not supported from IO thread."]
  else
    [OLog ReportContention;
     OLog (SetPromise owner serial);
     OWait owner serial;
     OSetLogFiles "std::cerr" "std::cerr"].

Definition StartNewTrace (trace_out : option string) : list Op :=
  [OStartNewTrace trace_out].

Definition StopTracing (owner : Z) (serial : nat) : list Op :=
  [OLog (SetPromise owner serial);
   OWait owner serial;
   OStartNewTrace None].

Inductive Call :=
| CallLog (label : string)
| CallStartLogging (summary detail : string)
| CallStopLogging
| CallStartNewTrace (trace_out : option string)
| CallStopTracing.

Definition call_body (this_thread io_thread : Z) (owner : Z) (serial : nat)
    (c : Call) : list Op :=
  match c with
  | CallLog label => [OLog (UserEntry label)]
  | CallStartLogging summary detail => StartLogging summary detail
  | CallStopLogging => StopLogging this_thread io_thread owner serial
  | CallStartNewTrace trace_out => StartNewTrace trace_out
  | CallStopTracing => StopTracing owner serial
  end.

(** ** The interleaving semantics *)

(** Where a producer is inside [TlsLogger::Log]. *)
Inductive ProducerPc :=
| PIdle
| PLock (entry : AsyncLogEntry) (i_write : index) (cas_fail_count : Z)
| PEmplace (entry : AsyncLogEntry) (i_write : index)
| PUnlock (i_write : index)
| PCheck (i_write : index)
| PRequestFetch (i_write : index) (retried : bool)
| PRequestCas (i_write : index) (id : Z)
| PSetPrev (i_write : index)
| PAborted.

Record Thread := mkThread {
  thread_id : Z;
  pc : ProducerPc;
  ops : list Op;                  (* what is left of the current call *)
  calls : list Call;              (* the calls still to make *)
  started : list Call;            (* history: the calls begun *)
  submitted : list AsyncLogEntry  (* history: the entries emplaced *)
}.

Definition set_pc (v : ProducerPc) (th : Thread) : Thread :=
  {| thread_id := thread_id th; pc := v; ops := ops th; calls := calls th;
     started := started th; submitted := submitted th |}.

Definition set_ops (v : list Op) (th : Thread) : Thread :=
  {| thread_id := thread_id th; pc := pc th; ops := v; calls := calls th;
     started := started th; submitted := submitted th |}.

(** Where the I/O thread is inside the loop of [Logger::IOThread]. *)
Inductive ConsumerPc :=
| CLoopHead
| CGatherRetry (retry_slots : list SlotRetry)
| CGatherNewLoad
| CGatherNew (swap_request_end : Z)
| CSwapLoop
| CSwapRelease (thread : Z)
| CSwapPublish (thread : Z)
| CProcess (pos : nat)
| CInvoke (pos : nat) (thread : Z) (i : index)
| CFinish (pos : nat) (thread : Z)
| CFlush
| CRetire
| CStopped
| CAborted.

Record Sys := mkSys {
  proc : Process;
  threads : gmap Z Thread;        (* by the TlsLogger of the thread *)
  cpc : ConsumerPc;
  threads_to_swap : list Z        (* the local of IOThread; what is left of it *)
}.

Definition producer_at (p : Z) (th : Thread) (P : Process) (s : Sys) : Sys :=
  {| proc := P; threads := <[p := th]> (threads s); cpc := cpc s;
     threads_to_swap := threads_to_swap s |}.

Definition consumer_at (c : ConsumerPc) (tts : list Z) (P : Process) (s : Sys)
    : Sys :=
  {| proc := P; threads := threads s; cpc := c; threads_to_swap := tts |}.

(** One atomic step of the thread that owns TlsLogger [p].  The load of
    [i_write_] (line 441) gives the value stored last; [rpstep] below is
    the step in which it may give an older one. *)
Definition pstep (p : Z) (s : Sys) : option Sys :=
  match threads s !! p, heap (proc s) !! p with
  | Some th, Some t =>
    let P := proc s in
    match pc th with
    | PIdle =>
      match ops th with
      | [] =>
        match calls th with
        | [] => None
        | c :: cs =>
          Some (producer_at p
            {| thread_id := thread_id th; pc := PIdle;
               ops := call_body (thread_id th) (io_thread_ (logger P)) p
                        (length (started th)) c;
               calls := cs; started := started th ++ [c];
               submitted := submitted th |} P s)
        end
      | OLogErrorSync message :: rest =>
        Some (producer_at p (set_ops rest th) (LogErrorSync message [] P) s)
      | OLog entry :: rest =>
        (* cas_fail_count = 0; i_write = i_write_.load() *)
        Some (producer_at p
                (set_pc (PLock entry (i_write_ t) 0) (set_ops rest th)) P s)
      | OWait owner serial :: rest =>
        if decide ((owner, serial) ∈ promises P)
        then Some (producer_at p (set_ops rest th) P s)
        else None
      | OSetLogFiles summary detail :: rest =>
        Some (producer_at p (set_ops rest th)
                (on_logger (fun L => set_async_logger_
                   (async_logger_ L ++ [EvSetLogFiles summary detail]) L) P) s)
      | OStartNewTrace trace_out :: rest =>
        Some (producer_at p (set_ops rest th)
                (on_logger (fun L => set_async_logger_
                   (async_logger_ L ++ [EvStartNewTrace trace_out]) L) P) s)
      end
    | PLock entry i_write cas_fail_count =>
      match Log_lock_iteration p t i_write cas_fail_count P with
      | Locked P1 => Some (producer_at p (set_pc (PEmplace entry i_write) th) P1 s)
      | Retry i_write' cas_fail_count' P1 =>
        Some (producer_at p (set_pc (PLock entry i_write' cas_fail_count') th) P1 s)
      | LockAssertFailed P1 => Some (producer_at p (set_pc PAborted th) P1 s)
      end
    | PEmplace entry i_write =>
      Some (producer_at p
        {| thread_id := thread_id th; pc := PUnlock i_write; ops := ops th;
           calls := calls th; started := started th;
           submitted := submitted th ++ [entry] |}
        (set_heap (<[p := Log_emplace_back i_write entry t]> (heap P)) P) s)
    | PUnlock i_write =>
      match Log_release p t i_write P with
      | Ok _ P1 => Some (producer_at p (set_pc (PCheck i_write) th) P1 s)
      | AssertFailed P1 => Some (producer_at p (set_pc PAborted th) P1 s)
      end
    | PCheck i_write =>
      if write_buffer_swapped i_write t
      then Some (producer_at p (set_pc (PRequestFetch i_write false) th) P s)
      else Some (producer_at p (set_pc PIdle th) P s)
    | PRequestFetch i_write retried =>
      let '(id, P1) := RequestSwapBuffers_fetch P in
      let P2 := if retried then RequestSwapBuffers_retried p P1 else P1 in
      Some (producer_at p (set_pc (PRequestCas i_write id) th) P2 s)
    | PRequestCas i_write id =>
      let '(P1, success) := RequestSwapBuffers_cas p id P in
      if success
      then Some (producer_at p (set_pc (PSetPrev i_write) th) P1 s)
      else Some (producer_at p (set_pc (PRequestFetch i_write true) th) P1 s)
    | PSetPrev i_write =>
      Some (producer_at p (set_pc PIdle th)
              (set_heap (<[p := set_i_write_prev_ i_write t]> (heap P)) P) s)
    | PAborted => None
    end
  | _, _ => None
  end.

(** One atomic step of the I/O thread: the loop of [Logger::IOThread]
    without its wait (lines 350-352) and without its seven scoped tracers
    (the [MakeScopedTracer] statements of lines 345-349, 356-357, 376-377,
    381-384, 408-409 and 414-415).  [MakeScopedTracer] is declared outside
    [logging.cc]; what is proved of [cstep] is proved of the loop with
    tracing left out. *)
Definition cstep (s : Sys) : option Sys :=
  let P := proc s in
  let L := logger P in
  let tts := threads_to_swap s in
  match cpc s with
  | CLoopHead =>
    if keep_io_thread_alive_ L then
      (* threads_to_swap.swap(threads_to_swap_deferred_), and the test
         and the swap that open GatherRetrySwapRequests *)
      let P1 := on_logger (set_threads_to_swap_deferred_ []) P in
      match swap_request_slots_to_retry_ L with
      | [] => Some (consumer_at CGatherNewLoad (threads_to_swap_deferred_ L) P1 s)
      | retry_slots =>
        Some (consumer_at (CGatherRetry retry_slots) (threads_to_swap_deferred_ L)
                (on_logger (set_swap_request_slots_to_retry_ []) P1) s)
      end
    else Some (consumer_at CStopped tts P s)
  | CGatherRetry [] => Some (consumer_at CGatherNewLoad tts P s)
  | CGatherRetry (slot_retry :: rest) =>
    match GatherRetry_body slot_retry tts P with
    | Ok tts' P1 => Some (consumer_at (CGatherRetry rest) tts' P1 s)
    | AssertFailed P1 => Some (consumer_at CAborted tts P1 s)
    end
  | CGatherNewLoad =>
    Some (consumer_at (CGatherNew (swap_request_id_ L)) tts P s)
  | CGatherNew swap_request_end =>
    if swap_request_id_read_ L <? swap_request_end then
      match GatherNew_body tts P with
      | Ok tts' P1 => Some (consumer_at (CGatherNew swap_request_end) tts' P1 s)
      | AssertFailed P1 => Some (consumer_at CAborted tts P1 s)
      end
    else Some (consumer_at CSwapLoop tts P s)
  | CSwapLoop =>
    match tts with
    | [] => Some (consumer_at (CProcess 0) [] P s)
    | thread :: rest =>
      match heap P !! thread with
      | None => None
      | Some t =>
        if ReadBufferHasBeenConsumed t
        then Some (consumer_at (CSwapRelease thread) rest P s)
        else Some (consumer_at CSwapLoop rest
               (on_logger (fun L' => set_threads_to_swap_deferred_
                  (threads_to_swap_deferred_ L' ++ [thread]) L') P) s)
      end
    end
  | CSwapRelease thread =>
    match heap P !! thread with
    | None => None
    | Some t =>
      let '(t1, success) := SwapBuffers_release t in
      if success
      then Some (consumer_at (CSwapPublish thread) tts
                   (set_heap (<[thread := t1]> (heap P)) P) s)
      else Some (consumer_at CAborted tts
                   (LogErrorSync "CAS failed." [("line", 484)] P) s)
    end
  | CSwapPublish thread =>
    match heap P !! thread with
    | None => None
    | Some t =>
      Some (consumer_at CSwapLoop tts
        (on_logger (fun L' => set_threads_to_read_ (threads_to_read_ L' ++ [thread]) L')
           (set_heap (<[thread := SwapBuffers_publish t]> (heap P)) P)) s)
    end
  | CProcess pos =>
    match threads_to_read_ L !! pos with
    | None =>
      Some (consumer_at CFlush tts
        (on_logger (fun L' => set_threads_to_read_
           (RemoveValue (threads_to_read_ L') 0) L') P) s)
    | Some thread =>
      match heap P !! thread with
      | None => None
      | Some t =>
        match StartReadingEntries t with
        | (t1, Some i) =>
          Some (consumer_at (CInvoke pos thread i) tts
                  (set_heap (<[thread := t1]> (heap P)) P) s)
        | (_, None) =>
          Some (consumer_at (CProcess (S pos)) tts
            (on_logger (fun L' => set_start_reading_entries_retry_count_
               (wrap (start_reading_entries_retry_count_ L' + 1)) L') P) s)
        end
      end
    end
  | CInvoke pos thread i =>
    match heap P !! thread with
    | None => None
    | Some t =>
      Some (consumer_at (CFinish pos thread) tts
              (IOThread_invoke_entries thread t i P) s)
    end
  | CFinish pos thread =>
    match heap P !! thread with
    | None => None
    | Some t =>
      (* FinishReadingEntries(); *thread = nullptr *)
      Some (consumer_at (CProcess (S pos)) tts
        (on_logger (fun L' => set_threads_to_read_
           (<[pos := 0]> (threads_to_read_ L')) L')
           (set_heap (<[thread := FinishReadingEntries t]> (heap P)) P)) s)
    end
  | CFlush =>
    Some (consumer_at CRetire tts
      (on_logger (fun L' => set_async_logger_ (async_logger_ L' ++ [EvFlush]) L') P) s)
  | CRetire => Some (consumer_at CLoopHead tts (IOThread_retire P) s)
  | CStopped | CAborted => None
  end.

Inductive step : Sys -> Sys -> Prop :=
| step_producer p s s' : pstep p s = Some s' -> step s s'
| step_consumer s s' : cstep s = Some s' -> step s s'.

(** The start: a constructed [Logger], an idle I/O thread, and for each
    thread a freshly constructed TlsLogger at a valid (non-null, aligned)
    address, no call begun. *)
Definition valid_pointer (p : Z) : Prop :=
  p ≠ 0 ∧ SwapRequestSlotIsReadable p = true.

Record initial (s : Sys) : Prop := {
  init_logger : ∃ max_threads io_thread,
    logger (proc s) = Logger_ctor max_threads io_thread;
  init_heap : ∀ p t, heap (proc s) !! p = Some t →
    valid_pointer p ∧ ∃ a b, t = TlsLogger_ctor a b;
  init_promises : promises (proc s) = ∅;
  init_invoked : invoked (proc s) = [];
  init_sync_log : sync_log (proc s) = [];
  init_threads : ∀ p th, threads s !! p = Some th →
    pc th = PIdle ∧ ops th = [] ∧ started th = [] ∧ submitted th = [];
  init_owner : ∀ p t, heap (proc s) !! p = Some t → is_Some (threads s !! p);
  init_cpc : cpc s = CLoopHead;
  init_tts : threads_to_swap s = []
}.

Definition reachable (s : Sys) : Prop :=
  ∃ s0, initial s0 ∧ rtc step s0 s.

(** A schedule names who steps next: the producer of a TlsLogger, or
    ([None]) the I/O thread. *)
Fixpoint run (schedule : list (option Z)) (s : Sys) : option Sys :=
  match schedule with
  | [] => Some s
  | who :: rest =>
    match (match who with Some p => pstep p s | None => cstep s end) with
    | Some s' => run rest s'
    | None => None
    end
  end.

(** One thread, with TlsLogger at address 16, one slot pair, and the calls
    the thread is to make. *)
Definition one_thread (calls0 : list Call) : Sys :=
  {| proc := {| logger := Logger_ctor 1 99;
                heap := {[ 16 := TlsLogger_ctor "pid tid" "tid" ]};
                promises := ∅; sync_log := []; invoked := [] |};
     threads := {[ 16 := {| thread_id := 7; pc := PIdle; ops := [];
                            calls := calls0; started := [];
                            submitted := [] |} ]};
     cpc := CLoopHead;
     threads_to_swap := [] |}.

(** ** The relaxed load of [i_write_]

    [TlsLogger::Log] loads [i_write_] with [memory_order_relaxed] (line
    441) and [SwapBuffers] stores it with [memory_order_relaxed] (line 489),
    after its release of the state word (lines 481-482).  Such a load need
    not return the newest store.  It returns a store that is not older than
    - any store the same thread has read before (coherence), and
    - any store that happens before the load.
    Inside [Log] the owner of a TlsLogger performs one kind of acquire
    operation on what the I/O thread releases: the successful CAS of a word
    of [entry_states_] (lines 442-444).  It reads [Unlocked], which heads or
    continues the release sequence of the I/O thread's last release of
    that word; so the stores to [i_write_] sequenced before that release
    happen before whatever the owner does next.  The store of the same
    [SwapBuffers] comes after the release and is not one of them.  A failed
    CAS is relaxed, the ring is written with release and no acquire, and
    the counters are relaxed: none of them orders the load.  Outside [Log]
    a thread waits for a promise or calls [AsyncLog] or [LogErrorSync],
    which may synchronise with the I/O thread: after such a step the
    thread is taken to have seen every store made so far.

    A [View] is the bookkeeping of these rules for one TlsLogger.  The
    stores to [i_write_] are numbered from 0, the initial value; store
    [k] below the newest has the value [overwritten !! k], the newest is
    the field [i_write_] itself.  Every other access reads the value
    written last, as in [pstep] and [cstep]: a run of [rstep] is a run of
    the program in which only loads of line 441 see an older value, and
    only where the rules above let them. *)
Record View := mkView {
  overwritten : list index;  (* the stores that have been overwritten, oldest first *)
  observed : nat;            (* the oldest store the owner can still read *)
  released : nat * nat       (* by state word: the newest store at the I/O
                                thread's last release of the word *)
}.

Definition set_overwritten (l : list index) (v : View) : View :=
  {| overwritten := l; observed := observed v; released := released v |}.

Definition set_observed (k : nat) (v : View) : View :=
  {| overwritten := overwritten v; observed := k; released := released v |}.

Definition set_released (x : nat * nat) (v : View) : View :=
  {| overwritten := overwritten v; observed := observed v; released := x |}.

Definition first_view : View := mkView [] 0 (0%nat, 0%nat).

(** The number of the newest store. *)
Definition newest (v : View) : nat := length (overwritten v).

(** Whether the owner can read the store [age] stores behind the newest. *)
Definition may_read (age : nat) (v : View) : bool :=
  (age <=? newest v - observed v)%nat.

(** The value of that store. *)
Definition stale_value (age : nat) (t : TlsLogger) (v : View) : index :=
  default (i_write_ t) (overwritten v !! (newest v - age)%nat).

Record Relaxed := mkRelaxed {
  sys : Sys;
  views : gmap Z View             (* by TlsLogger *)
}.

Definition view_of (p : Z) (r : Relaxed) : View :=
  default first_view (views r !! p).

(** One atomic step of the thread that owns TlsLogger [p]; [age] says
    which store the load of line 441 reads and is [0] in every other step.
    All but the load is [pstep]; a CAS that takes the write lock brings
    the view up to the release it has read from, a step outside [Log] up to
    the newest store. *)
Definition rpstep (age : nat) (p : Z) (r : Relaxed) : option Relaxed :=
  let s := sys r in
  let v := view_of p r in
  match threads s !! p, heap (proc s) !! p with
  | Some th, Some t =>
    match pc th, ops th with
    | PIdle, OLog entry :: rest =>
      (* cas_fail_count = 0; i_write = i_write_.load(relaxed) *)
      if may_read age v then
        Some {| sys := producer_at p
                  (set_pc (PLock entry (stale_value age t v) 0) (set_ops rest th))
                  (proc s) s;
                views := <[p := set_observed (newest v - age) v]> (views r) |}
      else None
    | PLock entry i_write cas_fail_count, _ =>
      match age, pstep p s with
      | O, Some s' =>
        Some {| sys := s';
                views :=
                  match Log_lock_iteration p t i_write cas_fail_count (proc s) with
                  | Locked _ =>
                    <[p := set_observed
                             (observed v `max` sel i_write (released v)) v]>
                      (views r)
                  | _ => views r
                  end |}
      | _, _ => None
      end
    | PIdle, _ :: _ =>
      (* a wait for a promise, a call of AsyncLog or of LogErrorSync *)
      match age, pstep p s with
      | O, Some s' =>
        Some {| sys := s';
                views := <[p := set_observed (newest v) v]> (views r) |}
      | _, _ => None
      end
    | _, _ =>
      match age, pstep p s with
      | O, Some s' => Some {| sys := s'; views := views r |}
      | _, _ => None
      end
    end
  | _, _ => None
  end.

(** One atomic step of the I/O thread: [cstep], and the view of the
    TlsLogger it swaps. *)
Definition rcstep (r : Relaxed) : option Relaxed :=
  let s := sys r in
  match cstep s with
  | Some s' =>
    Some {| sys := s';
            views :=
              match cpc s with
              | CSwapRelease thread =>
                (* the release of entry_states_[i_read_], lines 481-482 *)
                match heap (proc s) !! thread with
                | Some t =>
                  let v := view_of thread r in
                  <[thread := set_released
                                (upd (i_read_ t) (newest v) (released v)) v]>
                    (views r)
                | None => views r
                end
              | CSwapPublish thread =>
                (* i_write_.store(i_read_), line 489 *)
                match heap (proc s) !! thread with
                | Some t =>
                  let v := view_of thread r in
                  <[thread := set_overwritten (overwritten v ++ [i_write_ t]) v]>
                    (views r)
                | None => views r
                end
              | _ => views r
              end |}
  | None => None
  end.

(** Who steps next: the I/O thread, the owner of a TlsLogger, or the
    owner with a load of [i_write_] that reads [age] stores behind the
    newest. *)
Inductive Turn :=
| Io
| Owner (p : Z)
| Stale (age : nat) (p : Z).

Definition turn (who : Turn) (r : Relaxed) : option Relaxed :=
  match who with
  | Io => rcstep r
  | Owner p => rpstep 0 p r
  | Stale age p => rpstep age p r
  end.

Inductive rstep : Relaxed -> Relaxed -> Prop :=
| rstep_turn who r r' : turn who r = Some r' -> rstep r r'.

Definition relaxed (s : Sys) : Relaxed := {| sys := s; views := ∅ |}.

Definition rreachable (r : Relaxed) : Prop :=
  ∃ s0, initial s0 ∧ rtc rstep (relaxed s0) r.

Fixpoint rrun (schedule : list Turn) (r : Relaxed) : option Relaxed :=
  match schedule with
  | [] => Some r
  | who :: rest =>
    match turn who r with
    | Some r' => rrun rest r'
    | None => None
    end
  end.

(** The calls of [EvUser] among the calls made on [AsyncLog]. *)
Definition user_events (events : list AsyncEvent) : list string :=
  omap (fun e => match e with EvUser label => Some label | _ => None end) events.

(** ** The invariant of the double buffer

    What the I/O thread is doing to a given TlsLogger. *)
Inductive Phase :=
| PhNone
| PhRelease            (* inside SwapBuffers, before its CAS *)
| PhPublish            (* inside SwapBuffers, after its CAS *)
| PhInvoke (i : index) (* read lock taken, entries not yet invoked *)
| PhFinish.            (* entries invoked, FinishReadingEntries not yet called *)

Definition phase (p : Z) (c : ConsumerPc) : Phase :=
  match c with
  | CSwapRelease q => if q =? p then PhRelease else PhNone
  | CSwapPublish q => if q =? p then PhPublish else PhNone
  | CInvoke _ q i => if q =? p then PhInvoke i else PhNone
  | CFinish _ q => if q =? p then PhFinish else PhNone
  | _ => PhNone
  end.

(** Occurrences of a pointer in a vector. *)
Fixpoint occ (p : Z) (l : list Z) : nat :=
  match l with
  | [] => O
  | x :: l' => if x =? p then S (occ p l') else occ p l'
  end.

(** The swap requests of [p] that are on their way to the I/O thread: in
    the ring, in [threads_to_swap], or deferred. *)
Definition queued (p : Z) (s : Sys) : nat :=
  (occ p (thread_swap_request_slots_ (logger (proc s)))
   + occ p (threads_to_swap s)
   + occ p (threads_to_swap_deferred_ (logger (proc s))))%nat.

Definition requesting (c : ProducerPc) : nat :=
  match c with PRequestFetch _ _ | PRequestCas _ _ => 1 | _ => 0 end%nat.

Definition swapping (ph : Phase) : nat :=
  match ph with PhRelease | PhPublish => 1 | _ => 0 end%nat.

(** [i_write_prev_] as it will be once the producer has left [Log]. *)
Definition effective_prev (c : ProducerPc) (t : TlsLogger) : index :=
  match c with
  | PRequestFetch w _ | PRequestCas w _ | PSetPrev w => w
  | _ => i_write_prev_ t
  end.

(** The buffer the producer appended to last. *)
Definition last_written (c : ProducerPc) (t : TlsLogger) : index :=
  match c with
  | PUnlock w | PCheck w | PRequestFetch w _ | PRequestCas w _ | PSetPrev w => w
  | _ => i_write_prev_ t
  end.

(** The buffer the producer is locking, holds locked or has just unlocked. *)
Definition locking (c : ProducerPc) : option index :=
  match c with
  | PLock _ w _ | PEmplace _ w | PUnlock w | PCheck w => Some w
  | _ => None
  end.

Definition holds_write_lock (c : ProducerPc) (x : index) : Prop :=
  match c with
  | PEmplace _ w | PUnlock w => w = x
  | _ => False
  end.

(** The entries of [p] the I/O thread has invoked, in order. *)
Definition delivered (p : Z) (P : Process) : list AsyncLogEntry :=
  map snd (filter (fun x => fst x = p) (invoked P)).

Record tls_inv (t : TlsLogger) (c : ProducerPc) (ph : Phase)
    (requests in_read_list : nat) (sub del : list AsyncLogEntry) : Prop := {
  inv_distinct : i_write_ t = flip (i_read_ t);
  inv_tokens :
    (requesting c + requests + swapping ph)%nat =
    if index_eqb (effective_prev c t) (i_write_ t) then 1%nat else 0%nat;
  inv_unread : unread_swaps_ t = Z.of_nat in_read_list;
  inv_phase :
    let locked := sel (i_read_ t) (entry_states_ t) = ReadLock in
    match ph with
    | PhNone => (unread_swaps_ t = 0 ∧ locked) ∨ (unread_swaps_ t = 1 ∧ ¬ locked)
    | PhRelease => unread_swaps_ t = 0 ∧ locked
    | PhPublish => unread_swaps_ t = 0 ∧ ¬ locked
    | PhInvoke i => unread_swaps_ t = 1 ∧ locked ∧ i = i_read_ t
    | PhFinish => unread_swaps_ t = 1 ∧ locked
    end;
  inv_write_state : sel (i_write_ t) (entry_states_ t) ≠ ReadLock;
  inv_write_lock : ∀ x,
    sel x (entry_states_ t) = WriteLock ↔ holds_write_lock c x;
  inv_locking : ∀ w, locking c = Some w → w = i_read_ t →
    i_write_prev_ t = i_read_ t;
  inv_cas_fail : ∀ e w n, c = PLock e w n →
    n = 0 ∨ (n = 1 ∧ w = i_write_ t ∧ i_write_prev_ t = i_read_ t);
  inv_not_aborted : c ≠ PAborted;
  inv_drained : unread_swaps_ t = 0 → sel (i_read_ t) (entries_ t) = [];
  inv_covered : sel (i_write_ t) (entries_ t) ≠ [] →
    last_written c t = i_write_ t;
  inv_fifo :
    sub = del
          ++ (match ph with PhFinish => [] | _ => sel (i_read_ t) (entries_ t) end)
          ++ sel (i_write_ t) (entries_ t)
}.

(** The invariant of the whole system. *)
Record sys_inv (s : Sys) : Prop := {
  inv_pointers : ∀ p t, heap (proc s) !! p = Some t → valid_pointer p;
  inv_owner : ∀ p t, heap (proc s) !! p = Some t → is_Some (threads s !! p);
  inv_position : ∀ pos q,
    (∃ i, cpc s = CInvoke pos q i) ∨ cpc s = CFinish pos q →
    threads_to_read_ (logger (proc s)) !! pos = Some q;
  inv_local : match cpc s with
              | CLoopHead | CProcess _ | CInvoke _ _ _ | CFinish _ _
              | CFlush | CRetire => threads_to_swap s = []
              | _ => True
              end;
  inv_running : cpc s ≠ CAborted;
  inv_tls : ∀ p t th,
    heap (proc s) !! p = Some t → threads s !! p = Some th →
    tls_inv t (pc th) (phase p (cpc s)) (queued p s)
      (occ p (threads_to_read_ (logger (proc s))))
      (submitted th) (delivered p (proc s))
}.

(** No work is outstanding for [p]: its producer is outside [Log], no swap
    request of it is on its way, and its read buffer has been consumed. *)
Definition quiescent (p : Z) (t : TlsLogger) (th : Thread) (s : Sys) : Prop :=
  pc th = PIdle ∧ queued p s = O ∧ phase p (cpc s) = PhNone ∧
  ReadBufferHasBeenConsumed t = true.

(** ** The invariant of the barriers *)


(** Call number [n] of the thread has returned. *)
Definition returned (n : nat) (th : Thread) : Prop :=
  (S n < length (started th))%nat ∨
  (S n = length (started th) ∧ ops th = [] ∧ pc th = PIdle).





(** ** Sample runs *)

(** The state a schedule leads to (the start itself when the schedule asks
    a thread to step that cannot). *)
Definition after (schedule : list (option Z)) (s0 : Sys) : Sys :=
  default s0 (run schedule s0).

Definition tls_of (p : Z) (s : Sys) : TlsLogger :=
  default (TlsLogger_ctor "" "") (heap (proc s) !! p).

Definition thread_of (p : Z) (s : Sys) : Thread :=
  default (mkThread 0 PIdle [] [] [] []) (threads s !! p).

Definition fresh : Process := proc (one_thread []).

Definition two_logs : Sys := one_thread [CallLog "a"; CallLog "b"].

(** The producer has logged "a" and loaded [i_write_] for "b"; the I/O
    thread has then swapped the buffers and taken the read lock; the
    producer's first CAS has failed. *)
Definition contended : Sys :=
  after (replicate 11 (Some 16) ++ replicate 9 None ++ [Some 16]) two_logs.

(** Both entries logged, and the I/O thread has been round its loop. *)
Definition drained : Sys :=
  after (replicate 15 (Some 16) ++ replicate 20 None) two_logs.


(** One entry logged, its swap request in the ring. *)
Definition requested : Process :=
  proc (after (replicate 9 (Some 16)) (one_thread [CallLog "a"])).



(** The thread's TlsLogger registered, nothing logged. *)
Definition registered : Process := RegisterTlsLogger 16 fresh.

(** Both slots of the ring of [fresh] taken. *)
Definition ring_full : Process := store_slot 1 16 (store_slot 0 16 fresh).

(** The request of [requested] gathered, and slot 1 taken by a request
    that drew id 1: the next id to be drawn, 1, finds its slot busy. *)
Definition one_slot_busy : Process :=
  store_slot 1 16
    (match GatherNew_body [] requested with
     | Ok _ P => P
     | AssertFailed P => P
     end).

(** One entry logged by the thread, the I/O thread not having stepped. *)
Definition logged_once : Sys :=
  after (replicate 9 (Some 16)) (one_thread [CallLog "a"]).

(** The thread has drawn id 0 for its first request and not yet written
    its pointer to the slot; the I/O thread has gathered meanwhile, and
    waits for slot 0. *)
Definition slot_awaited : Process :=
  match GatherNewSwapRequests []
          (proc (after (replicate 7 (Some 16)) (one_thread [CallLog "a"]))) with
  | Ok _ P => P
  | AssertFailed P => P
  end.

(** The thread of [one_thread] being the I/O thread itself, about to call
    [StopLogging]. *)
Definition io_caller : Sys :=
  {| proc := fresh;
     threads := {[ 16 := {| thread_id := 99; pc := PIdle; ops := [];
                            calls := [CallStopLogging]; started := [];
                            submitted := [] |} ]};
     cpc := CLoopHead;
     threads_to_swap := [] |}.

(** From [contended], the producer has taken the write lock of the other
    buffer while the I/O thread holds the read lock. *)
Definition both_inside : Sys := after [Some 16] contended.

(** ** The invariant of the pointers the I/O thread follows *)






(** The memory of [contended] with a second TlsLogger, at address 32,
    that has counted two failed CASes. *)
Definition two_loggers : Process :=
  set_heap
    (<[32 := Log_count_fail (Log_count_fail (TlsLogger_ctor "pid tid2" "tid2"))]>
       (heap (proc contended)))
    (proc contended).

(** The thread of [registered] has exited: [UnRegisterTlsLogger] has
    returned, and the I/O thread is at the head of its loop. *)
Definition orphaned : Sys :=
  {| proc := match snd (UnRegisterTlsLogger 1 16 registered) with
             | Some (Ok _ P) => P
             | _ => registered
             end;
     threads := ∅;
     cpc := CLoopHead;
     threads_to_swap := [] |}.

(** ** Runs with a stale load of [i_write_] *)

Definition four_logs : Sys :=
  one_thread [CallLog "a"; CallLog "b"; CallLog "c"; CallLog "d"].

Definition five_logs : Sys :=
  one_thread [CallLog "a"; CallLog "b"; CallLog "c"; CallLog "d"; CallLog "e"].

(** Four calls of [Log] by one thread, the third with a stale load. *)
Definition two_requests : list Turn :=
  (* Log "a": the call, the load (store 0, value 1), the lock, the append,
     the unlock, the test, and the request in three steps *)
  replicate 9 (Owner 16)
  (* Log "b": the call and the load, which reads store 0, the newest *)
  ++ replicate 2 (Owner 16)
  (* the I/O thread gathers the request, swaps (store 1, value 0) and takes
     the read lock of buffer 1 *)
  ++ replicate 9 Io
  (* Log "b": the CAS of buffer 1 fails; buffer 0 is locked (released by
     the swap before store 1), "b" appended, the swap requested *)
  ++ replicate 8 (Owner 16)
  (* Log "c": the call and the load, which reads store 0 again, one behind
     the newest *)
  ++ [Owner 16; Stale 1 16]
  (* the I/O thread runs "a", finishes, flushes; round its loop it gathers
     the request and releases buffer 1 (line 481), store 2 (line 489)
     still to come *)
  ++ replicate 11 Io
  (* Log "c": buffer 1 is locked at the first attempt, "c" appended, the
     swap requested *)
  ++ replicate 7 (Owner 16)
  (* Log "d": the call and the load, which reads the newest store (1, the
     value 0); buffer 0 is locked, "d" appended behind "b", unlocked, and the
     test of line 470 asks for a swap request *)
  ++ replicate 6 (Owner 16).

(** The I/O thread then finishes the swap it had begun and reads buffer 0;
    the thread completes its request; the I/O thread goes round its loop
    until nothing is left. *)
Definition out_of_order : list Turn :=
  two_requests
  ++ replicate 4 Io
  ++ replicate 3 (Owner 16)
  ++ replicate 33 Io.

(** Instead, with a fifth call: the I/O thread reads buffer 0 and comes
    round to gather the request of "c"; the thread completes the request of
    "d" and begins Log "e" with a load one behind the newest store (store
    1, the value 0), and its CAS of buffer 0 fails against the read lock;
    the I/O thread swaps and takes the read lock of buffer 1; the second CAS
    fails; the I/O thread reads "c", comes round, swaps for the request of
    "d" and takes the read lock of buffer 0. *)
Definition two_failures : list Turn :=
  two_requests
  ++ replicate 10 Io
  ++ replicate 3 (Owner 16)
  ++ [Owner 16; Stale 1 16; Owner 16]
  ++ replicate 7 Io
  ++ [Owner 16]
  ++ replicate 14 Io.

(** * Proofs *)

(** ** Words, indices, cells *)

Lemma flip_flip i : flip (flip i) = i.
Proof. by destruct i. Qed.

Lemma flip_ne i : flip i ≠ i.
Proof. by destruct i. Qed.

(** [flip] is [^= 1] on the indices. *)
Lemma flip_lxor i : index_to_Z (flip i) = Z.lxor (index_to_Z i) 1.
Proof. by destruct i. Qed.

Lemma index_eqb_eq i j : index_eqb i j = true ↔ i = j.
Proof. destruct i, j; simpl; split; congruence. Qed.

Lemma index_eqb_refl i : index_eqb i i = true.
Proof. by destruct i. Qed.

Lemma index_cases (i j : index) : j = i ∨ j = flip i.
Proof. destruct i, j; auto. Qed.

Lemma sel_upd_eq {A} i (v : A) a : sel i (upd i v a) = v.
Proof. by destruct i. Qed.

Lemma sel_upd_ne {A} i j (v : A) a : i ≠ j → sel j (upd i v a) = sel j a.
Proof. by destruct i, j. Qed.

Lemma sel_upd_flip {A} i (v : A) a : sel (flip i) (upd i v a) = sel (flip i) a.
Proof. by destruct i. Qed.

Lemma EntryState_eqb_eq a b : EntryState_eqb a b = true ↔ a = b.
Proof. destruct a, b; simpl; split; congruence. Qed.

Lemma wrap_small x : 0 ≤ x < 2 ^ word_bits → wrap x = x.
Proof. intros H. unfold wrap. by apply Z.mod_small. Qed.

Lemma wrap_range x : 0 ≤ wrap x < 2 ^ word_bits.
Proof. unfold wrap. apply Z.mod_pos_bound. by compute. Qed.

(** A writable tag is never a pointer. *)
Lemma writable_not_readable id :
  SwapRequestSlotIsReadable (SwapRequestSlotIsWritableValue id) = false.
Proof.
  unfold SwapRequestSlotIsReadable, SwapRequestSlotIsWritableValue.
  rewrite Z.land_lor_distr_l.
  replace (Z.land 1 1) with 1 by reflexivity.
  assert (H : Z.land (wrap (Z.shiftl id 1)) 1 = 0 ∨ Z.land (wrap (Z.shiftl id 1)) 1 = 1).
  { assert (E : Z.land (wrap (Z.shiftl id 1)) 1 = wrap (Z.shiftl id 1) mod 2)
      by exact (Z.land_ones (wrap (Z.shiftl id 1)) 1 ltac:(lia)).
    pose proof (Z.mod_pos_bound (wrap (Z.shiftl id 1)) 2). lia. }
  destruct H as [-> | ->]; reflexivity.
Qed.

Lemma readable_not_tag p id :
  SwapRequestSlotIsReadable p = true → p ≠ SwapRequestSlotIsWritableValue id.
Proof. intros H ->. by rewrite writable_not_readable in H. Qed.

(** ** TlsLogger::SwapBuffers *)

(** C3: with [entry_states_[i_read_] = ReadLock] and [unread_swaps_ = 0],
    [SwapBuffers] passes its check and changes exactly this: the state of
    the old read buffer becomes [Unlocked], [i_write_] becomes the old
    [i_read_], [i_read_] is flipped and [unread_swaps_] is one more. *)
Theorem SwapBuffers_effect (t : TlsLogger) :
  sel (i_read_ t) (entry_states_ t) = ReadLock →
  unread_swaps_ t = 0 →
  TlsLogger_SwapBuffers t = Some
    {| i_read_ := flip (i_read_ t);
       entries_ := entries_ t;
       entry_states_ := upd (i_read_ t) Unlocked (entry_states_ t);
       i_write_ := i_read_ t;
       log_cas_fail_count_ := log_cas_fail_count_ t;
       swap_buffers_slot_retry_count_ := swap_buffers_slot_retry_count_ t;
       unread_swaps_ := unread_swaps_ t + 1;
       i_write_prev_ := i_write_prev_ t;
       trace_pid_tid_ := trace_pid_tid_ t;
       tid_as_string_ := tid_as_string_ t |}.
Proof.
  intros Hst Hun.
  unfold TlsLogger_SwapBuffers, SwapBuffers_release, cas_entry_state,
    compare_exchange_strong.
  rewrite Hst. simpl. unfold SwapBuffers_publish. simpl.
  rewrite Hun. reflexivity.
Qed.

Lemma SwapBuffers_effect_witness :
  TlsLogger_SwapBuffers (TlsLogger_ctor "pid" "tid") = Some
    {| i_read_ := i1; entries_ := ([], []);
       entry_states_ := (Unlocked, Unlocked); i_write_ := i0;
       log_cas_fail_count_ := 0; swap_buffers_slot_retry_count_ := 0;
       unread_swaps_ := 1; i_write_prev_ := i0;
       trace_pid_tid_ := "pid"; tid_as_string_ := "tid" |}.
Proof.
  exact (SwapBuffers_effect (TlsLogger_ctor "pid" "tid") eq_refl eq_refl).
Defined.

(** C10: whatever the object, a [SwapBuffers] that returns leaves both
    entry buffers, the state of the other buffer and every field besides
    [entry_states_[i_read_]], [i_write_], [i_read_] and [unread_swaps_] as
    they were. *)
Theorem SwapBuffers_frame (t t' : TlsLogger) :
  TlsLogger_SwapBuffers t = Some t' →
  entries_ t' = entries_ t ∧
  sel (flip (i_read_ t)) (entry_states_ t')
    = sel (flip (i_read_ t)) (entry_states_ t) ∧
  log_cas_fail_count_ t' = log_cas_fail_count_ t ∧
  swap_buffers_slot_retry_count_ t' = swap_buffers_slot_retry_count_ t ∧
  i_write_prev_ t' = i_write_prev_ t ∧
  trace_pid_tid_ t' = trace_pid_tid_ t ∧
  tid_as_string_ t' = tid_as_string_ t.
Proof.
  unfold TlsLogger_SwapBuffers, SwapBuffers_release, cas_entry_state,
    compare_exchange_strong.
  destruct (EntryState_eqb _ _); [|discriminate].
  intros [= <-]. simpl. rewrite sel_upd_flip. done.
Qed.

Lemma SwapBuffers_frame_witness :
  let t := Log_emplace_back i1 (UserEntry "a") (TlsLogger_ctor "pid" "tid") in
  ∃ t', TlsLogger_SwapBuffers t = Some t' ∧
        entries_ t' = ([], [UserEntry "a"]) ∧
        sel i1 (entry_states_ t') = Unlocked.
Proof.
  eexists. split; [reflexivity|].
  pose proof (SwapBuffers_frame
    (Log_emplace_back i1 (UserEntry "a") (TlsLogger_ctor "pid" "tid")) _ eq_refl)
    as (He & Hs & _).
  split; [exact He | exact Hs].
Defined.

(** The call on the heap does to the object what [TlsLogger_SwapBuffers]
    does, and the two steps of the I/O thread compose to it. *)
Lemma SwapBuffers_steps t t1 :
  SwapBuffers_release t = (t1, true) →
  TlsLogger_SwapBuffers t = Some (SwapBuffers_publish t1).
Proof. unfold TlsLogger_SwapBuffers. by intros ->. Qed.

(** ** Logger::RegisterTlsLogger *)

(** C9: the logger is in the registered set after the call whatever the
    size of the set; the warning is written exactly when the set already
    held [max_threads_to_log_] loggers or more; nothing else changes. *)
Theorem RegisterTlsLogger_always (tls_logger : Z) (P : Process) :
  let P' := RegisterTlsLogger tls_logger P in
  tls_logger ∈ tls_loggers_registerd_ (logger P') ∧
  tls_loggers_registerd_ (logger P')
    = {[tls_logger]} ∪ tls_loggers_registerd_ (logger P) ∧
  sync_log P' =
    (if decide (max_threads_to_log_ (logger P)
                ≤ Z.of_nat (size (tls_loggers_registerd_ (logger P))))
     then sync_log P ++
          [("Warning: More TLS loggers registerd than can be active simultaneously.
", [])]
     else sync_log P) ∧
  heap P' = heap P.
Proof.
  unfold RegisterTlsLogger. simpl.
  destruct (Z.leb_spec (max_threads_to_log_ (logger P))
              (Z.of_nat (size (tls_loggers_registerd_ (logger P)))));
    case_decide; try lia; simpl; (split; [set_solver|done]).
Qed.

(** ** The ring, consumer side *)

Lemma Get_readable slot next P :
  SwapRequestSlotIsReadable (load_slot slot P) = true →
  GetTlsLoggerThatRequestedSwap slot next P =
    Ok (load_slot slot P)
       (store_slot slot (SwapRequestSlotIsWritableValue next) P).
Proof.
  intros H. unfold GetTlsLoggerThatRequestedSwap, compare_exchange_strong.
  rewrite H, Z.eqb_refl. reflexivity.
Qed.

Lemma Get_writable slot next P :
  SwapRequestSlotIsReadable (load_slot slot P) = false →
  GetTlsLoggerThatRequestedSwap slot next P = Ok 0 P.
Proof.
  intros H. unfold GetTlsLoggerThatRequestedSwap. by rewrite H.
Qed.

(** The check of the CAS in [GetTlsLoggerThatRequestedSwap] cannot fail
    when nothing runs between its load and its CAS. *)
Lemma Get_cases slot next P :
  (SwapRequestSlotIsReadable (load_slot slot P) = true ∧
   GetTlsLoggerThatRequestedSwap slot next P =
     Ok (load_slot slot P)
        (store_slot slot (SwapRequestSlotIsWritableValue next) P)) ∨
  (SwapRequestSlotIsReadable (load_slot slot P) = false ∧
   GetTlsLoggerThatRequestedSwap slot next P = Ok 0 P).
Proof.
  destruct (SwapRequestSlotIsReadable (load_slot slot P)) eqn:E.
  - left. split; [done|]. by apply Get_readable.
  - right. split; [done|]. by apply Get_writable.
Qed.

Lemma update_retry_found sl n l1 s l2 :
  slot s = sl → (∀ x, x ∈ l1 → slot x ≠ sl) →
  update_retry sl n (l1 ++ s :: l2)
    = Some (l1 ++ {| slot := sl; next_id := n |} :: l2).
Proof.
  intros Hs. induction l1 as [|x l1 IH]; intros Hl1; simpl.
  - subst sl. by rewrite Z.eqb_refl.
  - assert (slot x ≠ sl) by (apply Hl1; left).
    destruct (Z.eqb_spec (slot x) sl); [done|].
    rewrite IH; [done|]. intros y Hy. apply Hl1. by right.
Qed.

Lemma update_retry_fresh sl n l :
  (∀ x, x ∈ l → slot x ≠ sl) → update_retry sl n l = None.
Proof.
  induction l as [|x l IH]; intros Hl; simpl; [done|].
  assert (slot x ≠ sl) by (apply Hl; left).
  destruct (Z.eqb_spec (slot x) sl); [done|].
  rewrite IH; [done|]. intros y Hy. apply Hl. by right.
Qed.

Lemma update_retry_Some_slots sl n l l' :
  update_retry sl n l = Some l' → map slot l' = map slot l.
Proof.
  revert l'. induction l as [|x l IH]; intros l'; simpl; [done|].
  destruct (Z.eqb_spec (slot x) sl).
  - intros [= <-]. done.
  - destruct (update_retry sl n l); [|done]. intros [= <-]. simpl.
    f_equal. by apply IH.
Qed.

Lemma update_retry_None_fresh sl n l :
  update_retry sl n l = None → ∀ x, x ∈ l → slot x ≠ sl.
Proof.
  induction l as [|y l IH]; simpl; intros H x Hx.
  - by apply elem_of_nil in Hx.
  - destruct (Z.eqb_spec (slot y) sl); [done|].
    destruct (update_retry sl n l) eqn:E; [done|].
    apply elem_of_cons in Hx as [->|Hx]; [done|]. by apply IH.
Qed.

(** The slots waiting in the retry list stay distinct. *)
Lemma GatherNew_body_NoDup tts tts' P P' :
  NoDup (map slot (swap_request_slots_to_retry_ (logger P))) →
  GatherNew_body tts P = Ok tts' P' →
  NoDup (map slot (swap_request_slots_to_retry_ (logger P'))).
Proof.
  intros Hnd. unfold GatherNew_body.
  destruct (Get_cases (swap_request_id_read_ (logger P) mod slots_size P)
              (wrap (swap_request_id_read_ (logger P) + slots_size P)) P)
    as [[_ ->]|[_ ->]].
  - destruct (_ =? 0); simpl.
    + destruct (update_retry _ _ _) eqn:E; intros [= <- <-]; simpl.
      * by rewrite (update_retry_Some_slots _ _ _ _ E).
      * rewrite map_app. simpl. apply NoDup_app. split; [done|].
        split; [|apply NoDup_singleton].
        intros x Hx Hx'. apply list_elem_of_singleton in Hx'. subst x.
        apply list_elem_of_fmap in Hx as (y & Hy & Hin).
        by eapply (update_retry_None_fresh _ _ _ E y Hin).
    + intros [= <- <-]. done.
  - simpl.
    destruct (update_retry _ _ _) eqn:E; intros [= <- <-]; simpl.
    + by rewrite (update_retry_Some_slots _ _ _ _ E).
    + rewrite map_app. simpl. apply NoDup_app. split; [done|].
      split; [|apply NoDup_singleton].
      intros x Hx Hx'. apply list_elem_of_singleton in Hx'. subst x.
      apply list_elem_of_fmap in Hx as (y & Hy & Hin).
      by eapply (update_retry_None_fresh _ _ _ E y Hin).
Qed.

(** C5: one turn of the loop of [GatherNewSwapRequests], for the id
    [swap_request_id_read_], with [slot = id mod size] and
    [next_id = id + size].  A readable slot (a pointer, which is never
    null) is exchanged for the writable tag of [next_id] and its pointer is
    appended to the output, the retry list is untouched.  A slot that is
    not readable is left alone, nothing is appended, and the retry list
    gets [(slot, next_id)]: as a new last element when the slot is not in
    the list, and otherwise by overwriting the [next_id] of the element of
    that slot, the list keeping its length.  Either way the id is consumed.
    The loop takes these turns for the ids from [swap_request_id_read_] up
    to the [swap_request_id_] it loaded. *)
Theorem GatherNewSwapRequests_each (threads_to_swap : list Z) (P : Process) :
  let L := logger P in
  let id := swap_request_id_read_ L in
  let size := slots_size P in
  let the_slot := id mod size in
  let the_next_id := wrap (id + size) in
  let value := load_slot the_slot P in
  0 ≤ id < 2 ^ word_bits →
  0 ≤ swap_request_id_ L < 2 ^ word_bits →
  (SwapRequestSlotIsReadable value = true → value ≠ 0) →
  (* one turn *)
  (∃ P',
     GatherNew_body threads_to_swap P =
       Ok (if SwapRequestSlotIsReadable value
           then threads_to_swap ++ [value] else threads_to_swap) P' ∧
     swap_request_id_read_ (logger P') = wrap (id + 1) ∧
     swap_request_id_ (logger P') = swap_request_id_ L ∧
     heap P' = heap P ∧
     if SwapRequestSlotIsReadable value then
       thread_swap_request_slots_ (logger P') =
         <[Z.to_nat the_slot := SwapRequestSlotIsWritableValue the_next_id]>
           (thread_swap_request_slots_ L) ∧
       swap_request_slots_to_retry_ (logger P') = swap_request_slots_to_retry_ L
     else
       thread_swap_request_slots_ (logger P') = thread_swap_request_slots_ L ∧
       ((∀ x, x ∈ swap_request_slots_to_retry_ L → slot x ≠ the_slot) →
        swap_request_slots_to_retry_ (logger P') =
          swap_request_slots_to_retry_ L
            ++ [{| slot := the_slot; next_id := the_next_id |}]) ∧
       (∀ l1 s l2,
          swap_request_slots_to_retry_ L = l1 ++ s :: l2 →
          slot s = the_slot →
          (∀ x, x ∈ l1 → slot x ≠ the_slot) →
          swap_request_slots_to_retry_ (logger P') =
            l1 ++ {| slot := the_slot; next_id := the_next_id |} :: l2)) ∧
  (* the loop *)
  (swap_request_id_ L ≤ id →
   GatherNewSwapRequests threads_to_swap P = Ok threads_to_swap P) ∧
  (id < swap_request_id_ L →
   GatherNewSwapRequests threads_to_swap P =
     match GatherNew_body threads_to_swap P with
     | Ok threads_to_swap' P1 => GatherNewSwapRequests threads_to_swap' P1
     | AssertFailed P1 => AssertFailed P1
     end).
Proof.
  intros L id size the_slot the_next_id value Hid Hend Hnull.
  assert (Hbody : ∃ P',
     GatherNew_body threads_to_swap P =
       Ok (if SwapRequestSlotIsReadable value
           then threads_to_swap ++ [value] else threads_to_swap) P' ∧
     swap_request_id_read_ (logger P') = wrap (id + 1) ∧
     swap_request_id_ (logger P') = swap_request_id_ L ∧
     heap P' = heap P ∧
     if SwapRequestSlotIsReadable value then
       thread_swap_request_slots_ (logger P') =
         <[Z.to_nat the_slot := SwapRequestSlotIsWritableValue the_next_id]>
           (thread_swap_request_slots_ L) ∧
       swap_request_slots_to_retry_ (logger P') = swap_request_slots_to_retry_ L
     else
       thread_swap_request_slots_ (logger P') = thread_swap_request_slots_ L ∧
       ((∀ x, x ∈ swap_request_slots_to_retry_ L → slot x ≠ the_slot) →
        swap_request_slots_to_retry_ (logger P') =
          swap_request_slots_to_retry_ L
            ++ [{| slot := the_slot; next_id := the_next_id |}]) ∧
       (∀ l1 s l2,
          swap_request_slots_to_retry_ L = l1 ++ s :: l2 →
          slot s = the_slot →
          (∀ x, x ∈ l1 → slot x ≠ the_slot) →
          swap_request_slots_to_retry_ (logger P') =
            l1 ++ {| slot := the_slot; next_id := the_next_id |} :: l2)).
  { subst L. unfold GatherNew_body. fold id size the_slot the_next_id.
    destruct (Get_cases the_slot the_next_id P) as [[Hr ->]|[Hr ->]];
      fold value in Hr; rewrite Hr.
    - fold value. destruct (Z.eqb_spec value 0) as [E|_]; [by apply Hnull in E|].
      eexists. split; [reflexivity|]. simpl. done.
    - simpl.
      destruct (update_retry the_slot the_next_id
                  (swap_request_slots_to_retry_ (logger P))) eqn:E.
      + eexists. split; [reflexivity|]. simpl. repeat split; try done.
        * intros Hfresh. by rewrite (update_retry_fresh _ _ _ Hfresh) in E.
        * intros l1 s l2 Hl Hs Hl1. rewrite Hl in E.
          rewrite (update_retry_found the_slot the_next_id l1 s l2 Hs Hl1) in E.
          by injection E as <-.
      + eexists. split; [reflexivity|]. simpl. repeat split; try done.
        intros l1 s l2 Hl Hs Hl1. rewrite Hl in E.
        by rewrite (update_retry_found the_slot the_next_id l1 s l2 Hs Hl1) in E. }
  split; [exact Hbody|]. subst L. split.
  - intros Hle. unfold GatherNewSwapRequests. fold id.
    replace (Z.to_nat (swap_request_id_ (logger P) - id)) with O by lia. done.
  - intros Hlt. unfold GatherNewSwapRequests. fold id.
    destruct (Z.to_nat (swap_request_id_ (logger P) - id)) as [|n] eqn:En; [lia|].
    simpl. fold id. destruct (Z.ltb_spec id (swap_request_id_ (logger P))); [|lia].
    destruct Hbody as (P' & -> & Hread & Hreq & _).
    rewrite Hreq, Hread. rewrite wrap_small by lia.
    replace (Z.to_nat (swap_request_id_ (logger P) - (id + 1))) with n by lia.
    done.
Qed.

(** ** Logger::RequestSwapBuffers *)

Lemma insert_lookup_default (l : list Z) (i : nat) :
  <[i := default 0 (l !! i)]> l = l.
Proof.
  destruct (l !! i) as [x|] eqn:E; simpl.
  - by apply list_insert_id.
  - apply list_insert_ge. by apply lookup_ge_None.
Qed.

Lemma store_slot_same slot P : store_slot slot (load_slot slot P) P = P.
Proof.
  unfold store_slot, load_slot, on_logger. rewrite insert_lookup_default.
  by destruct P as [[] ? ? ? ?].
Qed.

Lemma RequestSwapBuffers_cas_fail this id P :
  load_slot (id mod slots_size P) P ≠ SwapRequestSlotIsWritableValue id →
  RequestSwapBuffers_cas this id P = (P, false).
Proof.
  intros H. unfold RequestSwapBuffers_cas, compare_exchange_strong.
  destruct (Z.eqb_spec (load_slot (id mod slots_size P) P)
              (SwapRequestSlotIsWritableValue id)); [done|].
  by rewrite store_slot_same.
Qed.

Lemma RequestSwapBuffers_cas_ok this id P :
  load_slot (id mod slots_size P) P = SwapRequestSlotIsWritableValue id →
  RequestSwapBuffers_cas this id P
    = (store_slot (id mod slots_size P) this P, true).
Proof.
  intros H. unfold RequestSwapBuffers_cas, compare_exchange_strong.
  by rewrite H, Z.eqb_refl.
Qed.

Lemma wrap_wrap_add x y : wrap (wrap x + y) = wrap (x + y).
Proof. unfold wrap. by rewrite Zplus_mod_idemp_l. Qed.

Lemma request_frame_refl this P : request_frame this P P.
Proof.
  repeat split; try done.
  - by destruct P as [[] ? ? ? ?].
  - intros t Ht. exists (swap_buffers_slot_retry_count_ t).
    rewrite Ht. by destruct t.
Qed.

Lemma request_frame_trans this P1 P2 P3 :
  request_frame this P1 P2 → request_frame this P2 P3 →
  request_frame this P1 P3.
Proof.
  intros (HL & Ho & Ht & Hn & Hp & Hs & Hi) (HL' & Ho' & Ht' & Hn' & Hp' & Hs' & Hi').
  repeat split; try congruence.
  - rewrite HL', HL. by destruct (logger P1).
  - intros q Hq. rewrite Ho', Ho; done.
  - intros t H1. destruct (Ht t H1) as [n Hn2].
    destruct (Ht' _ Hn2) as [m Hm]. exists m. rewrite Hm. by destruct t.
  - auto.
Qed.

Lemma request_frame_store this slot v P :
  request_frame this P (store_slot slot v P).
Proof.
  split; [by destruct P as [[] ? ? ? ?]|].
  split; [done|]. split; [|done].
  intros t Ht. exists (swap_buffers_slot_retry_count_ t). simpl. rewrite Ht.
  by destruct t.
Qed.

Lemma request_frame_fetch this x P :
  request_frame this P (on_logger (set_swap_request_id_ x) P).
Proof.
  split; [by destruct P as [[] ? ? ? ?]|].
  split; [done|]. split; [|done].
  intros t Ht. exists (swap_buffers_slot_retry_count_ t). simpl. rewrite Ht.
  by destruct t.
Qed.

Lemma request_frame_retried this P :
  request_frame this P (RequestSwapBuffers_retried this P).
Proof.
  unfold RequestSwapBuffers_retried.
  split; [by destruct P as [[] ? ? ? ?]|].
  split; [intros q Hq; simpl; by rewrite lookup_alter_ne|].
  split; [|split; [|done]].
  - intros t Ht. simpl. rewrite lookup_alter_eq, Ht. simpl.
    eexists. unfold RequestSwapBuffersSlotRetried. reflexivity.
  - intros Ht. simpl. by rewrite lookup_alter_eq, Ht.
Qed.

(** The loop of [RequestSwapBuffers] returns as soon as the slot of the id
    it holds carries the tag of that id: after [k] failures when the [k]
    first ids it draws do not match and the next one does. *)
Lemma RequestSwapBuffers_loop_spec this k :
  ∀ fuel id P,
  (k < fuel)%nat →
  swap_request_id_ (logger P) = wrap (id + 1) →
  (∀ j, (j < k)%nat →
     load_slot (wrap (id + Z.of_nat j) mod slots_size P) P
       ≠ SwapRequestSlotIsWritableValue (wrap (id + Z.of_nat j))) →
  load_slot (wrap (id + Z.of_nat k) mod slots_size P) P
    = SwapRequestSlotIsWritableValue (wrap (id + Z.of_nat k)) →
  0 ≤ id < 2 ^ word_bits →
  ∃ P', RequestSwapBuffers_loop fuel this id P = Some P' ∧
        thread_swap_request_slots_ (logger P') =
          <[Z.to_nat (wrap (id + Z.of_nat k) mod slots_size P) := this]>
            (thread_swap_request_slots_ (logger P)) ∧
        swap_request_id_ (logger P') = wrap (id + Z.of_nat k + 1) ∧
        request_frame this P P'.
Proof.
  induction k as [|k IH]; intros fuel id P Hfuel Hcur Hbusy Hfree Hid.
  - destruct fuel as [|fuel]; [lia|]. simpl.
    rewrite Z.add_0_r, wrap_small in Hfree by done.
    rewrite (RequestSwapBuffers_cas_ok _ _ _ Hfree).
    eexists. split; [done|]. simpl.
    rewrite Z.add_0_r, (wrap_small id) by done.
    split; [done|]. split; [done|]. apply request_frame_store.
  - destruct fuel as [|fuel]; [lia|]. simpl.
    pose proof (Hbusy O ltac:(lia)) as H0. simpl in H0.
    rewrite Z.add_0_r, wrap_small in H0 by done.
    rewrite (RequestSwapBuffers_cas_fail _ _ _ H0).
    unfold RequestSwapBuffers_fetch. rewrite Hcur.
    set (P1 := RequestSwapBuffers_retried this
                 (on_logger (set_swap_request_id_ (wrap (wrap (id + 1) + 1))) P)).
    assert (Hsl : thread_swap_request_slots_ (logger P1)
                  = thread_swap_request_slots_ (logger P)) by done.
    assert (Hsz : slots_size P1 = slots_size P) by done.
    assert (Hld : ∀ x, load_slot x P1 = load_slot x P) by done.
    destruct (IH fuel (wrap (id + 1)) P1) as (P' & Hrun & Hslots & Hnext & Hframe).
    + lia.
    + done.
    + intros j Hj. rewrite Hsz, Hld, wrap_wrap_add.
      replace (id + 1 + Z.of_nat j) with (id + Z.of_nat (S j)) by lia.
      apply Hbusy. lia.
    + rewrite Hsz, Hld, wrap_wrap_add.
      replace (id + 1 + Z.of_nat k) with (id + Z.of_nat (S k)) by lia. done.
    + apply wrap_range.
    + exists P'. split; [done|].
      rewrite Hslots, Hnext, Hsz, Hsl, !wrap_wrap_add.
      replace (id + 1 + Z.of_nat k) with (id + Z.of_nat (S k)) by lia.
      split; [done|].
      split; [rewrite <- Z.add_assoc, wrap_wrap_add; f_equal; lia|].
      apply (request_frame_trans this P P1 P'); [|done].
      eapply request_frame_trans;
        [apply request_frame_fetch|apply request_frame_retried].
Qed.

(** ** TlsLogger::Log *)

Lemma upd_sel {A} i (a : A * A) : upd i (sel i a) a = a.
Proof. by destruct i, a. Qed.

Lemma set_entry_states_same t : set_entry_states_ (entry_states_ t) t = t.
Proof. by destruct t. Qed.

Lemma cas_entry_state_ok i expected desired t :
  sel i (entry_states_ t) = expected →
  cas_entry_state i expected desired t
    = (set_entry_states_ (upd i desired (entry_states_ t)) t, true).
Proof.
  intros H. unfold cas_entry_state, compare_exchange_strong.
  rewrite H. by rewrite (proj2 (EntryState_eqb_eq expected expected) eq_refl).
Qed.

Lemma cas_entry_state_fail i expected desired t :
  sel i (entry_states_ t) ≠ expected →
  cas_entry_state i expected desired t = (t, false).
Proof.
  intros H. unfold cas_entry_state, compare_exchange_strong.
  destruct (EntryState_eqb _ _) eqn:E; [by apply EntryState_eqb_eq in E|].
  by rewrite upd_sel, set_entry_states_same.
Qed.

Lemma cas_entry_state_cases i expected desired t :
  (sel i (entry_states_ t) = expected ∧
   cas_entry_state i expected desired t
     = (set_entry_states_ (upd i desired (entry_states_ t)) t, true)) ∨
  (sel i (entry_states_ t) ≠ expected ∧
   cas_entry_state i expected desired t = (t, false)).
Proof.
  destruct (EntryState_eqb (sel i (entry_states_ t)) expected) eqn:E.
  - apply EntryState_eqb_eq in E. left. split; [done|]. by apply cas_entry_state_ok.
  - right. assert (sel i (entry_states_ t) ≠ expected).
    { intros H. apply EntryState_eqb_eq in H. congruence. }
    split; [done|]. by apply cas_entry_state_fail.
Qed.

(** The third failed CAS of the lock loop writes the error and fails the
    assertion; an earlier one counts the failure and turns to the other
    buffer. *)
Lemma Log_lock_iteration_fail this t i_write cas_fail_count P :
  sel i_write (entry_states_ t) ≠ Unlocked →
  Log_lock_iteration this t i_write cas_fail_count P =
    if 3 <=? wrap (cas_fail_count + 1) then
      LockAssertFailed
        (LogErrorSync "CAS failed."
           [("times", wrap (cas_fail_count + 1)); ("line", 453)] P)
    else
      Retry (flip i_write) (wrap (cas_fail_count + 1))
        (set_heap (<[this := Log_count_fail t]> (heap P)) P).
Proof.
  intros H. unfold Log_lock_iteration, Log_try_lock.
  by rewrite (cas_entry_state_fail _ _ _ _ H).
Qed.

Lemma Log_lock_iteration_ok this t i_write cas_fail_count P :
  sel i_write (entry_states_ t) = Unlocked →
  Log_lock_iteration this t i_write cas_fail_count P =
    Locked (set_heap
      (<[this := set_entry_states_ (upd i_write WriteLock (entry_states_ t)) t]>
         (heap P)) P).
Proof.
  intros H. unfold Log_lock_iteration, Log_try_lock.
  by rewrite (cas_entry_state_ok _ _ _ _ H).
Qed.

Lemma Log_lock_loop_spec this t P :
  heap P !! this = Some t →
  let w := if EntryState_eqb (sel (i_write_ t) (entry_states_ t)) Unlocked
           then i_write_ t else flip (i_write_ t) in
  sel w (entry_states_ t) = Unlocked →
  ∃ n, Log_lock_loop 3 this (i_write_ t) 0 P =
    Some (Ok w (set_heap
      (<[this := set_entry_states_ (upd w WriteLock (entry_states_ t))
                   (set_log_cas_fail_count_ n t)]> (heap P)) P)).
Proof.
  intros Ht w Hw. subst w. simpl. rewrite Ht.
  destruct (EntryState_eqb _ _) eqn:E.
  - rewrite (Log_lock_iteration_ok _ _ _ _ _ Hw).
    exists (log_cas_fail_count_ t). by destruct t.
  - assert (Hbusy : sel (i_write_ t) (entry_states_ t) ≠ Unlocked).
    { intros H. apply EntryState_eqb_eq in H. congruence. }
    rewrite (Log_lock_iteration_fail _ _ _ _ _ Hbusy).
    change (3 <=? wrap (0 + 1)) with false. simpl.
    rewrite lookup_insert_eq.
    rewrite Log_lock_iteration_ok by done. simpl.
    rewrite insert_insert_eq.
    exists (wrap (log_cas_fail_count_ t + 1)). done.
Qed.

(** When neither buffer can be locked the loop ends at its third failure,
    in the error branch. *)
Lemma Log_lock_loop_assert this t P :
  heap P !! this = Some t →
  sel i0 (entry_states_ t) ≠ Unlocked →
  sel i1 (entry_states_ t) ≠ Unlocked →
  ∃ P', Log_lock_loop 3 this (i_write_ t) 0 P =
          Some (AssertFailed
                  (LogErrorSync "CAS failed." [("times", 3); ("line", 453)] P')).
Proof.
  intros Ht H0 H1. simpl. rewrite Ht.
  assert (Hany : ∀ i, sel i (entry_states_ t) ≠ Unlocked) by (by intros []).
  rewrite (Log_lock_iteration_fail _ _ _ _ _ (Hany _)).
  change (3 <=? wrap (0 + 1)) with false. simpl. rewrite lookup_insert_eq.
  rewrite Log_lock_iteration_fail by apply Hany.
  change (3 <=? wrap (wrap (0 + 1) + 1)) with false. simpl.
  rewrite lookup_insert_eq.
  rewrite Log_lock_iteration_fail by apply Hany.
  change (3 <=? wrap (wrap (wrap (0 + 1) + 1) + 1)) with true. simpl.
  eexists. reflexivity.
Qed.

Lemma TlsLogger_Log_spec fuel this entry P t k :
  heap P !! this = Some t →
  let w := if EntryState_eqb (sel (i_write_ t) (entry_states_ t)) Unlocked
           then i_write_ t else flip (i_write_ t) in
  let id := swap_request_id_ (logger P) in
  sel w (entry_states_ t) = Unlocked →
  0 ≤ id < 2 ^ word_bits →
  (k < fuel)%nat →
  (∀ j, (j < k)%nat →
     load_slot (wrap (id + Z.of_nat j) mod slots_size P) P
       ≠ SwapRequestSlotIsWritableValue (wrap (id + Z.of_nat j))) →
  load_slot (wrap (id + Z.of_nat k) mod slots_size P) P
    = SwapRequestSlotIsWritableValue (wrap (id + Z.of_nat k)) →
  ∃ P' t',
    TlsLogger_Log fuel this entry P = Some (Ok tt P') ∧
    heap P' !! this = Some t' ∧
    ring_frame this P P' ∧
    entries_ t' = upd w (sel w (entries_ t) ++ [entry]) (entries_ t) ∧
    entry_states_ t' = entry_states_ t ∧
    i_read_ t' = i_read_ t ∧ i_write_ t' = i_write_ t ∧
    unread_swaps_ t' = unread_swaps_ t ∧
    if index_eqb (i_write_prev_ t) w then
      logger P' = logger P ∧ i_write_prev_ t' = i_write_prev_ t
    else
      i_write_prev_ t' = w ∧
      thread_swap_request_slots_ (logger P') =
        <[Z.to_nat (wrap (id + Z.of_nat k) mod slots_size P) := this]>
          (thread_swap_request_slots_ (logger P)) ∧
      swap_request_id_ (logger P') = wrap (id + Z.of_nat k + 1).
Proof.
  intros Ht w id Hw Hid Hfuel Hbusy Hfree.
  unfold TlsLogger_Log. rewrite Ht.
  destruct (Log_lock_loop_spec this t P Ht Hw) as [n ->]. fold w.
  simpl. rewrite lookup_insert_eq.
  unfold Log_release, Log_unlock.
  rewrite cas_entry_state_ok by (simpl; apply sel_upd_eq).
  simpl. rewrite lookup_insert_eq, !insert_insert_eq.
  unfold write_buffer_swapped. simpl.
  assert (Hst : upd w Unlocked (upd w WriteLock (entry_states_ t)) = entry_states_ t).
  { rewrite <- Hw at 1. by destruct w, (entry_states_ t). }
  rewrite Hst.
  destruct (index_eqb (i_write_prev_ t) w) eqn:Eprev; simpl.
  - eexists _, _. split; [done|]. simpl. rewrite lookup_insert_eq.
    split; [done|]. simpl.
    split; [|done].
    unfold ring_frame. simpl.
    split; [by destruct (logger P)|].
    split; [|done]. intros q Hq. by rewrite lookup_insert_ne.
  - unfold RequestSwapBuffers, RequestSwapBuffers_fetch. simpl. fold id.
    match goal with |- context [RequestSwapBuffers_loop fuel this id ?Q] =>
      destruct (RequestSwapBuffers_loop_spec this k fuel id Q)
        as (P' & -> & Hslots & Hnext & HL & Ho & Hthis & _ & Hp & Hs & Hi)
    end; try done.
    simpl in Hslots, HL, Ho, Hthis, Hp, Hs, Hi.
    rewrite lookup_insert_eq in Hthis.
    destruct (Hthis _ eq_refl) as [m Hm].
    eexists _, _. split; [done|]. simpl.
    rewrite lookup_alter_eq, Hm. simpl.
    split; [done|].
    split; [|done].
    unfold ring_frame. simpl.
    split; [|split; [|done]].
    + rewrite HL. simpl. by destruct (logger P).
    + intros q Hq. rewrite lookup_alter_ne by done.
      rewrite Ho by done. by rewrite lookup_insert_ne.
Qed.

Lemma load_slot_in_range slot P :
  load_slot slot P ≠ 0 →
  (Z.to_nat slot < length (thread_swap_request_slots_ (logger P)))%nat.
Proof.
  unfold load_slot. intros H.
  destruct (thread_swap_request_slots_ (logger P) !! Z.to_nat slot) eqn:E;
    [by eapply lookup_lt_Some|done].
Qed.

Lemma tag_nonzero id : SwapRequestSlotIsWritableValue id ≠ 0.
Proof.
  intros H. pose proof (writable_not_readable id) as Hr. by rewrite H in Hr.
Qed.

(** C4: a [Log] that finds a buffer to lock appends the entry to the buffer
    [w] it locked.  When [w] is not [i_write_prev_] it announces one swap
    request (the pointer is stored in the slot of the first id whose tag
    matches, the id counter moves past that id) and sets [i_write_prev_]
    to [w]; when [w] is [i_write_prev_] it leaves the ring, the id counter
    and [i_write_prev_] as they were. *)
Theorem Log_requests_swap_iff fuel this entry P t k :
  heap P !! this = Some t →
  let w := if EntryState_eqb (sel (i_write_ t) (entry_states_ t)) Unlocked
           then i_write_ t else flip (i_write_ t) in
  let id := swap_request_id_ (logger P) in
  let the_slot := wrap (id + Z.of_nat k) mod slots_size P in
  sel w (entry_states_ t) = Unlocked →
  0 ≤ id < 2 ^ word_bits →
  (k < fuel)%nat →
  (∀ j, (j < k)%nat →
     load_slot (wrap (id + Z.of_nat j) mod slots_size P) P
       ≠ SwapRequestSlotIsWritableValue (wrap (id + Z.of_nat j))) →
  load_slot the_slot P = SwapRequestSlotIsWritableValue (wrap (id + Z.of_nat k)) →
  ∃ P' t',
    TlsLogger_Log fuel this entry P = Some (Ok tt P') ∧
    heap P' !! this = Some t' ∧
    sel w (entries_ t') = sel w (entries_ t) ++ [entry] ∧
    sel (flip w) (entries_ t') = sel (flip w) (entries_ t) ∧
    (i_write_prev_ t ≠ w →
       i_write_prev_ t' = w ∧
       load_slot the_slot P' = this ∧
       thread_swap_request_slots_ (logger P') =
         <[Z.to_nat the_slot := this]> (thread_swap_request_slots_ (logger P)) ∧
       swap_request_id_ (logger P') = wrap (id + Z.of_nat k + 1)) ∧
    (i_write_prev_ t = w →
       i_write_prev_ t' = i_write_prev_ t ∧
       thread_swap_request_slots_ (logger P')
         = thread_swap_request_slots_ (logger P) ∧
       swap_request_id_ (logger P') = id).
Proof.
  intros Ht w id the_slot Hw Hid Hfuel Hbusy Hfree.
  destruct (TlsLogger_Log_spec fuel this entry P t k Ht Hw Hid Hfuel Hbusy Hfree)
    as (P' & t' & Hrun & Ht' & _ & Hent & _ & _ & _ & _ & Hreq).
  fold w in Hent, Hreq. fold id in Hreq.
  exists P', t'. split; [done|]. split; [done|].
  rewrite Hent, sel_upd_eq, sel_upd_flip. split; [done|]. split; [done|].
  destruct (index_eqb (i_write_prev_ t) w) eqn:E.
  - apply index_eqb_eq in E. destruct Hreq as [HL Hprev].
    split; [done|]. intros _. by rewrite HL.
  - assert (i_write_prev_ t ≠ w).
    { intros H. apply index_eqb_eq in H. congruence. }
    split; [|done]. intros _. destruct Hreq as (Hprev & Hslots & Hnext).
    split; [done|]. split; [|done].
    unfold load_slot. rewrite Hslots. fold the_slot.
    rewrite list_lookup_insert_eq; [done|].
    apply load_slot_in_range. fold the_slot. rewrite Hfree. apply tag_nonzero.
Qed.

(** ** Running entries *)

Lemma same_protocol_refl t : same_protocol t t.
Proof. by destruct t. Qed.

Lemma same_protocol_trans t1 t2 t3 :
  same_protocol t1 t2 → same_protocol t2 t3 → same_protocol t1 t3.
Proof.
  unfold same_protocol. intros H12 H23. rewrite H23, H12. by destruct t1.
Qed.

Lemma entry_frame_refl P : entry_frame P P.
Proof.
  unfold entry_frame; simpl; split; [|split; [by destruct (logger P)|done]].
  intros q. destruct (heap P !! q); [apply same_protocol_refl|done].
Qed.

Lemma entry_frame_trans P1 P2 P3 :
  entry_frame P1 P2 → entry_frame P2 P3 → entry_frame P1 P3.
Proof.
  intros (Hh & HL & Hs) (Hh' & HL' & Hs').
  split; [|split; [|congruence]].
  - intros q. specialize (Hh q). specialize (Hh' q).
    destruct (heap P1 !! q), (heap P2 !! q), (heap P3 !! q); try done.
    by eapply same_protocol_trans.
  - rewrite HL', HL. by destruct (logger P1).
Qed.

Lemma CollectTlsLoggerStats_frame p P :
  entry_frame P (CollectTlsLoggerStats p P) ∧
  orphans_to_destroy_ (logger (CollectTlsLoggerStats p P))
    = orphans_to_destroy_ (logger P) ∧
  async_logger_ (logger (CollectTlsLoggerStats p P)) = async_logger_ (logger P) ∧
  promises (CollectTlsLoggerStats p P) = promises P ∧
  invoked (CollectTlsLoggerStats p P) = invoked P.
Proof.
  unfold CollectTlsLoggerStats.
  destruct (heap P !! p) as [t|] eqn:Ht; [|split; [apply entry_frame_refl|done]].
  simpl. split; [|done].
  unfold entry_frame; simpl; split; [|split; [by destruct (logger P)|done]].
  intros q. simpl. destruct (decide (p = q)) as [->|Hne].
  - rewrite lookup_insert_eq, Ht. by destruct t.
  - rewrite lookup_insert_ne by done.
    destruct (heap P !! q); [apply same_protocol_refl|done].
Qed.

Lemma fold_Collect_frame l : ∀ P,
  let P' := foldl (fun P' p => CollectTlsLoggerStats p P') P l in
  entry_frame P P' ∧
  orphans_to_destroy_ (logger P') = orphans_to_destroy_ (logger P) ∧
  async_logger_ (logger P') = async_logger_ (logger P) ∧
  promises P' = promises P ∧ invoked P' = invoked P.
Proof.
  induction l as [|p l IH]; intros P; simpl.
  - split; [apply entry_frame_refl|done].
  - destruct (CollectTlsLoggerStats_frame p P) as (H1 & H2 & H3 & H4 & H5).
    destruct (IH (CollectTlsLoggerStats p P)) as (K1 & K2 & K3 & K4 & K5).
    split; [by eapply entry_frame_trans|]. repeat split; congruence.
Qed.

Lemma log_detail_keeps P0 m v P :
  entry_frame P0 P ∧
  invoked P = invoked P0 ∧
  orphans_to_destroy_ (logger P) = orphans_to_destroy_ (logger P0) ∧
  promises P = promises P0 →
  entry_frame P0 (log_detail m v P) ∧
  invoked (log_detail m v P) = invoked P0 ∧
  orphans_to_destroy_ (logger (log_detail m v P))
    = orphans_to_destroy_ (logger P0) ∧
  promises (log_detail m v P) = promises P0.
Proof.
  intros (F & H1 & H2 & H3). split; [|done].
  eapply entry_frame_trans; [exact F|].
  unfold entry_frame; simpl; split; [|split; [by destruct (logger P)|done]].
  intros q. destruct (heap P !! q); [apply same_protocol_refl|done].
Qed.

(** What each closure does besides. *)
Lemma run_entry_frame e P :
  entry_frame P (run_entry e P) ∧
  invoked (run_entry e P) = invoked P ∧
  orphans_to_destroy_ (logger (run_entry e P)) =
    orphans_to_destroy_ (logger P)
      ++ (match e with RetireOrphan o => [o] | _ => [] end) ∧
  promises (run_entry e P) =
    match e with
    | SetPromise o n => {[(o, n)]} ∪ promises P
    | _ => promises P
    end.
Proof.
  destruct e as [label|orphan| |owner serial]; simpl.
  - split; [|by rewrite app_nil_r].
    unfold entry_frame; simpl; split; [|split; [by destruct (logger P)|done]].
    intros q. simpl. destruct (heap P !! q); [apply same_protocol_refl|done].
  - destruct (CollectTlsLoggerStats_frame orphan P) as (H1 & H2 & H3 & H4 & H5).
    split; [|by rewrite H2, H4, H5].
    eapply entry_frame_trans; [exact H1|].
    unfold entry_frame; simpl; split; [|split; [by destruct (logger (CollectTlsLoggerStats orphan P))|done]].
    intros q. simpl.
    destruct (heap (CollectTlsLoggerStats orphan P) !! q);
      [apply same_protocol_refl|done].
  - set (P1 := foldl _ P (elements _)).
    set (P2 := foldl _ P1 (tls_logger_orphans_ (logger P1))).
    destruct (fold_Collect_frame (elements (tls_loggers_registerd_ (logger P))) P)
      as (H1 & H2 & H3 & H4 & H5). fold P1 in H1, H2, H3, H4, H5.
    destruct (fold_Collect_frame (tls_logger_orphans_ (logger P1)) P1)
      as (K1 & K2 & K3 & K4 & K5). fold P2 in K1, K2, K3, K4, K5.
    assert (F : entry_frame P P2) by (by eapply entry_frame_trans).
    rewrite app_nil_r.
    do 7 apply log_detail_keeps.
    split; [exact F|]. repeat split; congruence.
  - split; [|by rewrite app_nil_r].
    unfold entry_frame; simpl; split; [|split; [by destruct (logger P)|done]].
    intros q. simpl. destruct (heap P !! q); [apply same_protocol_refl|done].
Qed.

Lemma invoke_entries_fold thread es : ∀ P,
  let P' := foldl (invoke_entry thread) P es in
  entry_frame P P' ∧
  invoked P' = invoked P ++ map (fun e => (thread, e)) es ∧
  (∃ l, orphans_to_destroy_ (logger P') = orphans_to_destroy_ (logger P) ++ l) ∧
  (∀ o n, (o, n) ∈ promises P' ↔
          (o, n) ∈ promises P ∨ SetPromise o n ∈ es).
Proof.
  induction es as [|e es IH]; intros P; simpl.
  - split; [apply entry_frame_refl|]. rewrite app_nil_r. split; [done|].
    split; [exists []; by rewrite app_nil_r|].
    intros o n. split; [auto|]. intros [H|H]; [done|]. by apply elem_of_nil in H.
  - unfold invoke_entry at 2 4 6 8.
    set (P0 := set_invoked (invoked P ++ [(thread, e)]) P).
    destruct (run_entry_frame e P0) as (F & Hi & Hd & Hp).
    destruct (IH (run_entry e P0)) as (F' & Hi' & [l Hd'] & Hp').
    split; [|split; [|split]].
    + eapply entry_frame_trans; [|exact F'].
      eapply entry_frame_trans; [|exact F].
      unfold entry_frame, P0; simpl.
      split; [|split; [by destruct (logger P)|done]].
      intros q. destruct (heap P !! q); [apply same_protocol_refl|done].
    + rewrite Hi', Hi. unfold P0. simpl. by rewrite <- app_assoc.
    + rewrite Hd', Hd. unfold P0. simpl. rewrite <- app_assoc. by eexists.
    + intros o n. rewrite Hp', Hp. unfold P0. simpl.
      rewrite elem_of_cons.
      destruct e; [intuition congruence..|].
      rewrite elem_of_union, elem_of_singleton. intuition congruence.
Qed.

Lemma IOThread_invoke_entries_spec thread t i P :
  let P' := IOThread_invoke_entries thread t i P in
  entry_frame P P' ∧
  invoked P' = invoked P ++ map (fun e => (thread, e)) (sel i (entries_ t)) ∧
  (∃ l, orphans_to_destroy_ (logger P') = orphans_to_destroy_ (logger P) ++ l) ∧
  (∀ o n, (o, n) ∈ promises P' ↔
          (o, n) ∈ promises P ∨ SetPromise o n ∈ sel i (entries_ t)).
Proof.
  unfold IOThread_invoke_entries.
  set (P0 := on_logger _ P).
  destruct (invoke_entries_fold thread (sel i (entries_ t)) P0)
    as (F & Hi & Hd & Hp).
  split; [|done].
  eapply entry_frame_trans; [|exact F].
  unfold entry_frame, P0; simpl.
  split; [|split; [by destruct (logger P)|done]].
  intros q. destruct (heap P !! q); [apply same_protocol_refl|done].
Qed.

(** ** Frames of the gathering *)

Lemma gather_frame_refl P : gather_frame P P.
Proof. split; [by destruct (logger P)|done]. Qed.

Lemma gather_frame_trans P1 P2 P3 :
  gather_frame P1 P2 → gather_frame P2 P3 → gather_frame P1 P3.
Proof.
  intros (HL & Hh & Hp & Hs & Hi) (HL' & Hh' & Hp' & Hs' & Hi').
  split; [|repeat split; congruence].
  rewrite HL', HL. by destruct (logger P1).
Qed.

Lemma store_slot_gather_frame slot v P : gather_frame P (store_slot slot v P).
Proof. split; [by destruct P as [[] ? ? ? ?]|done]. Qed.

Lemma Get_frame slot next P :
  ∃ v P', GetTlsLoggerThatRequestedSwap slot next P = Ok v P' ∧
          gather_frame P P' ∧
          swap_request_slots_to_retry_ (logger P')
            = swap_request_slots_to_retry_ (logger P).
Proof.
  destruct (Get_cases slot next P) as [[_ ->]|[_ ->]]; eexists _, _;
    (split; [done|]); (split; [|done]).
  - apply store_slot_gather_frame.
  - apply gather_frame_refl.
Qed.

Lemma GatherRetry_body_frame sr tts P :
  ∃ tts' P', GatherRetry_body sr tts P = Ok tts' P' ∧ gather_frame P P'.
Proof.
  unfold GatherRetry_body.
  destruct (Get_frame (slot sr) (next_id sr) P) as (v & P' & -> & F & _).
  destruct (v =? 0); eexists _, _; (split; [done|]); [|done].
  eapply gather_frame_trans; [exact F|].
  unfold gather_frame; simpl. split; [by destruct (logger P')|done].
Qed.

Lemma GatherNew_body_frame tts P :
  ∃ tts' P', GatherNew_body tts P = Ok tts' P' ∧ gather_frame P P'.
Proof.
  unfold GatherNew_body.
  destruct (Get_frame (swap_request_id_read_ (logger P) mod slots_size P)
              (wrap (swap_request_id_read_ (logger P) + slots_size P)) P)
    as (v & P' & -> & F & _).
  destruct (v =? 0); [destruct (update_retry _ _ _)|]; eexists _, _;
    (split; [done|]); (eapply gather_frame_trans; [exact F|]);
    unfold gather_frame; simpl; (split; [by destruct (logger P')|done]).
Qed.

(** ** The invariant of one TlsLogger, step by step *)

Lemma occ_app p l1 l2 : occ p (l1 ++ l2) = (occ p l1 + occ p l2)%nat.
Proof.
  induction l1 as [|x l1 IH]; simpl; [done|].
  destruct (x =? p); lia.
Qed.

Lemma occ_insert (p : Z) (l : list Z) (i : nat) (v w : Z) :
  l !! i = Some v →
  (occ p (<[i := w]> l) + (if Z.eqb v p then 1 else 0)
   = occ p l + (if Z.eqb w p then 1 else 0))%nat.
Proof.
  revert i. induction l as [|x l IH]; intros [|i] H; simpl in *; try done.
  - injection H as ->. destruct (v =? p), (w =? p); lia.
  - specialize (IH i H). destruct (x =? p); lia.
Qed.

Lemma occ_lookup p (l : list Z) i : l !! i = Some p → (1 ≤ occ p l)%nat.
Proof.
  revert i. induction l as [|x l IH]; intros [|i] H; simpl in *; try done.
  - injection H as ->. rewrite Z.eqb_refl. lia.
  - specialize (IH i H). destruct (x =? p); lia.
Qed.

Lemma occ_RemoveValue p l : p ≠ 0 → occ p (RemoveValue l 0) = occ p l.
Proof.
  intros Hp. unfold RemoveValue. induction l as [|x l IH]; [done|].
  rewrite filter_cons. case_decide as Hx; simpl.
  - by rewrite IH.
  - assert (x = 0) as -> by (destruct (decide (x = 0)); [done|by destruct Hx]).
    destruct (Z.eqb_spec 0 p); [congruence|done].
Qed.

Ltac tls_destruct t :=
  let ir := fresh "ir" in let b0 := fresh "b0" in let b1 := fresh "b1" in
  let s0 := fresh "s0" in let s1 := fresh "s1" in let iw := fresh "iw" in
  let un := fresh "un" in let prev := fresh "prev" in
  let cf := fresh "cf" in let sr := fresh "sr" in
  let pt := fresh "pt" in let ts := fresh "ts" in
  destruct t as [ir [b0 b1] [s0 s1] iw cf sr un prev pt ts]; simpl in *.

Ltac tls_crush :=
  repeat match goal with
  | H : _ ∧ _ |- _ => destruct H
  | H : ∃ _, _ |- _ => destruct H
  end;
  subst; simpl in *;
  try done; try congruence; try lia; try tauto;
  try (intuition (subst; simpl in *; try done; try congruence; try lia)).

Lemma tls_inv_frame t t' c ph r n sub del :
  same_protocol t t' →
  tls_inv t c ph r n sub del → tls_inv t' c ph r n sub del.
Proof.
  unfold same_protocol. intros -> [].
  destruct t; simpl in *.
  split; simpl; try done.
Qed.

Lemma tls_inv_initial a b :
  tls_inv (TlsLogger_ctor a b) PIdle PhNone 0 0 [] [].
Proof.
  split; simpl; try done.
  - by left.
  - intros []; simpl; split; done.
Qed.

(** The producer enters [Log] and loads [i_write_]. *)
Lemma tls_inv_load t e ph r n sub del :
  tls_inv t PIdle ph r n sub del →
  tls_inv t (PLock e (i_write_ t) 0) ph r n sub del.
Proof.
  intros [Hd Ht Hu Hp Hws Hwl Hl Hc Ha Hdr Hcv Hf].
  split; simpl in *; try done.
  - intros w [= <-] Hw. rewrite Hd in Hw. by destruct (flip_ne (i_read_ t)).
  - intros e' w' n' [= _ _ <-]. by left.
Qed.

(** The CAS of the lock loop succeeds. *)
Lemma tls_inv_lock_ok t e w c ph r n sub del :
  sel w (entry_states_ t) = Unlocked →
  tls_inv t (PLock e w c) ph r n sub del →
  tls_inv (set_entry_states_ (upd w WriteLock (entry_states_ t)) t)
    (PEmplace e w) ph r n sub del.
Proof.
  intros Hw [Hd Ht Hu Hp Hws Hwl Hl Hc Ha Hdr Hcv Hf]. tls_destruct t.
  split; simpl in *; try done.
  - destruct ph, ir, w, s0, s1; simpl in *; tls_crush.
  - destruct iw, w, s0, s1; simpl in *; tls_crush.
  - intros x. specialize (Hwl x).
    destruct x, w, s0, s1; simpl in *; tls_crush.
Qed.

Lemma wrap_1 : wrap (0 + 1) = 1.
Proof. reflexivity. Qed.

Lemma wrap_1_minus_1 : wrap (1 - 1) = 0.
Proof. reflexivity. Qed.

(** The CAS of the lock loop fails: this is the first failure, on the
    read buffer, and the other buffer is the write buffer. *)
Lemma tls_inv_lock_fail t e w c ph r n sub del :
  sel w (entry_states_ t) ≠ Unlocked →
  tls_inv t (PLock e w c) ph r n sub del →
  c = 0 ∧
  tls_inv (Log_count_fail t) (PLock e (flip w) 1) ph r n sub del.
Proof.
  intros Hw [Hd Ht Hu Hp Hws Hwl Hl Hc Ha Hdr Hcv Hf]. tls_destruct t.
  specialize (Hc e w c eq_refl). specialize (Hl w eq_refl).
  pose proof (Hwl w) as Hwlw. simpl in *.
  assert (Hwir : w = ir).
  { destruct (index_cases ir w) as [-> | ->]; [done|].
    rewrite <- Hd in *. destruct (sel iw (s0, s1)); tls_crush. }
  subst w. specialize (Hl eq_refl). subst prev.
  assert (c = 0) as ->.
  { destruct Hc as [-> | (_ & Hir & _)]; [done|]. rewrite Hd in Hir.
    by destruct (flip_ne ir). }
  split; [done|].
  split; simpl in *; try done.
  intros e' w' n' [= _ <- <-]. right. by rewrite Hd.
Qed.

(** [emplace_back] under the write lock. *)
Lemma tls_inv_emplace t e w ph r n sub del :
  tls_inv t (PEmplace e w) ph r n sub del →
  tls_inv (Log_emplace_back w e t) (PUnlock w) ph r n (sub ++ [e]) del.
Proof.
  intros [Hd Ht Hu Hp Hws Hwl Hl Hc Ha Hdr Hcv Hf]. tls_destruct t.
  specialize (Hl w eq_refl). pose proof (proj2 (Hwl w) eq_refl) as Hlocked.
  destruct (index_cases ir w) as [-> | ->].
  - (* the read buffer, between its swap and the start of its reading *)
    specialize (Hl eq_refl). subst prev iw.
    assert (Hb : sel (flip ir) (b0, b1) = []).
    { destruct (sel (flip ir) (b0, b1)) eqn:E; [done|].
      exfalso. apply (flip_ne ir). symmetry. by apply Hcv. }
    assert (Hph : ph = PhNone ∧ un = 1).
    { destruct ph; simpl in *; rewrite ?index_eqb_refl in Ht;
        destruct ir; simpl in *; tls_crush. }
    destruct Hph as [-> ->].
    split; simpl in *; try done.
    + rewrite sel_upd_flip. by rewrite Hb.
    + rewrite sel_upd_flip, sel_upd_eq, Hf, Hb.
      by rewrite !app_nil_r, <- app_assoc.
  - subst iw. split; simpl in *; try done.
    + intros w' [= <-] Hw'. by destruct (flip_ne ir).
    + intros Hun. specialize (Hdr Hun). by destruct ir.
    + rewrite sel_upd_eq.
      replace (sel ir (upd (flip ir) (sel (flip ir) (b0, b1) ++ [e]) (b0, b1)))
        with (sel ir (b0, b1)) by (by destruct ir).
      rewrite Hf. by rewrite <- !app_assoc.
Qed.

(** The CAS that releases the write lock succeeds. *)
Lemma tls_inv_unlock t w ph r n sub del :
  tls_inv t (PUnlock w) ph r n sub del →
  sel w (entry_states_ t) = WriteLock ∧
  tls_inv (set_entry_states_ (upd w Unlocked (entry_states_ t)) t)
    (PCheck w) ph r n sub del.
Proof.
  intros [Hd Ht Hu Hp Hws Hwl Hl Hc Ha Hdr Hcv Hf]. tls_destruct t.
  pose proof (proj2 (Hwl w) eq_refl) as Hlocked.
  split; [done|].
  split; simpl in *; try done.
  - destruct ph, ir, w, s0, s1; simpl in *; tls_crush.
  - destruct iw, w, s0, s1; simpl in *; tls_crush.
  - intros x. pose proof (Hwl x) as Hx.
    destruct x, w, s0, s1; simpl in *; tls_crush.
Qed.

(** The test of [write_buffer_swapped]. *)
Lemma tls_inv_check t w ph r n sub del :
  tls_inv t (PCheck w) ph r n sub del →
  tls_inv t
    (if write_buffer_swapped w t then PRequestFetch w false else PIdle)
    ph r n sub del.
Proof.
  intros [Hd Ht Hu Hp Hws Hwl Hl Hc Ha Hdr Hcv Hf]. tls_destruct t.
  specialize (Hl w eq_refl). unfold write_buffer_swapped. simpl.
  destruct (index_eqb prev w) eqn:E; simpl.
  - apply index_eqb_eq in E. subst w.
    split; simpl in *; try done.
  - assert (Hne : prev ≠ w) by (intros ->; by rewrite index_eqb_refl in E).
    assert (w = iw) as ->.
    { subst iw. destruct (index_cases ir w) as [-> | ->]; [|done].
      by specialize (Hl eq_refl). }
    assert (index_eqb prev iw = false) as Hp' by done.
    rewrite Hp' in Ht.
    split; simpl in *; try done.
    rewrite index_eqb_refl. lia.
Qed.

Lemma tls_inv_fetch t w b id ph r n sub del :
  tls_inv t (PRequestFetch w b) ph r n sub del →
  tls_inv t (PRequestCas w id) ph r n sub del.
Proof.
  intros [Hd Ht Hu Hp Hws Hwl Hl Hc Ha Hdr Hcv Hf].
  split; simpl in *; try done.
Qed.

Lemma tls_inv_request_fail t w id ph r n sub del :
  tls_inv t (PRequestCas w id) ph r n sub del →
  tls_inv t (PRequestFetch w true) ph r n sub del.
Proof.
  intros [Hd Ht Hu Hp Hws Hwl Hl Hc Ha Hdr Hcv Hf].
  split; simpl in *; try done.
Qed.

(** The pointer is stored in a slot: one more request is on its way. *)
Lemma tls_inv_request_ok t w id ph r n sub del :
  tls_inv t (PRequestCas w id) ph r n sub del →
  tls_inv t (PSetPrev w) ph (S r) n sub del.
Proof.
  intros [Hd Ht Hu Hp Hws Hwl Hl Hc Ha Hdr Hcv Hf].
  split; simpl in *; try done.
Qed.

Lemma tls_inv_set_prev t w ph r n sub del :
  tls_inv t (PSetPrev w) ph r n sub del →
  tls_inv (set_i_write_prev_ w t) PIdle ph r n sub del.
Proof.
  intros [Hd Ht Hu Hp Hws Hwl Hl Hc Ha Hdr Hcv Hf]. tls_destruct t.
  split; simpl in *; try done.
Qed.

(** The I/O thread takes a request of the logger from [threads_to_swap]
    and finds its read buffer consumed. *)
Lemma tls_inv_pick t c r n sub del :
  ReadBufferHasBeenConsumed t = true →
  tls_inv t c PhNone (S r) n sub del →
  tls_inv t c PhRelease r n sub del.
Proof.
  unfold ReadBufferHasBeenConsumed.
  intros Hun [Hd Ht Hu Hp Hws Hwl Hl Hc Ha Hdr Hcv Hf].
  apply Z.eqb_eq in Hun.
  split; simpl in *; try done.
  - rewrite <- Ht. lia.
  - destruct Hp as [Hp|[Hp _]]; [done|lia].
Qed.

(** The CAS of [SwapBuffers] succeeds. *)
Lemma tls_inv_release t c r n sub del :
  tls_inv t c PhRelease r n sub del →
  sel (i_read_ t) (entry_states_ t) = ReadLock ∧
  tls_inv (set_entry_states_ (upd (i_read_ t) Unlocked (entry_states_ t)) t)
    c PhPublish r n sub del.
Proof.
  intros [Hd Ht Hu Hp Hws Hwl Hl Hc Ha Hdr Hcv Hf]. tls_destruct t.
  destruct Hp as [Hun Hlock]. split; [done|].
  split; simpl in *; try done.
  - split; [done|]. by destruct ir.
  - subst iw. by destruct ir.
  - intros x. pose proof (Hwl x) as Hx.
    destruct x, ir, s0, s1; simpl in *; tls_crush.
Qed.

(** The store of [i_write_], the flip of [i_read_] and the increment. *)
Lemma tls_inv_publish t c r n sub del :
  tls_inv t c PhPublish r n sub del →
  tls_inv (SwapBuffers_publish t) c PhNone r (S n) sub del.
Proof.
  intros [Hd Ht Hu Hp Hws Hwl Hl Hc Ha Hdr Hcv Hf]. tls_destruct t.
  destruct Hp as [-> Hfree]. specialize (Hdr eq_refl). subst iw.
  assert (Hn : n = O) by lia. subst n.
  assert (Hprev : effective_prev c
    {| i_read_ := ir; entries_ := (b0, b1); entry_states_ := (s0, s1);
       i_write_ := flip ir; log_cas_fail_count_ := cf;
       swap_buffers_slot_retry_count_ := sr;
       unread_swaps_ := 0; i_write_prev_ := prev;
       trace_pid_tid_ := pt; tid_as_string_ := ts |}
    = flip ir ∧ requesting c = O ∧ r = O).
  { destruct (index_eqb _ _) eqn:E in Ht; [|lia].
    apply index_eqb_eq in E. split; [done|]. lia. }
  destruct Hprev as (Hprev & Hreq & ->).
  assert (Hnw : ∀ x, sel x (s0, s1) ≠ WriteLock ∨ x = flip ir).
  { intros x. destruct (index_cases ir x) as [-> | ->]; [|by right].
    left. intros Hx. apply Hwl in Hx.
    destruct c; simpl in *; try done; subst;
      specialize (Hl _ eq_refl eq_refl); subst; by destruct (flip_ne ir). }
  split; simpl in *; rewrite ?flip_flip; try done.
  - rewrite Hreq.
    replace (effective_prev c _) with (flip ir)
      by (rewrite <- Hprev; by destruct c).
    by destruct ir.
  - right. by split.
  - intros w Hw ->. destruct c; simpl in *; try done.
  - intros e w k ->. simpl in *.
    destruct (Hc e w k eq_refl) as [-> | (-> & -> & Hp)]; [by left|].
    subst. by destruct (flip_ne ir).
  - rewrite Hf, Hdr. by rewrite app_nil_r.
Qed.

(** [StartReadingEntries] succeeds. *)
Lemma tls_inv_start_reading t c r n sub del :
  sel (i_read_ t) (entry_states_ t) = Unlocked →
  tls_inv t c PhNone r n sub del →
  tls_inv (set_entry_states_ (upd (i_read_ t) ReadLock (entry_states_ t)) t)
    c (PhInvoke (i_read_ t)) r n sub del.
Proof.
  intros Hfree [Hd Ht Hu Hp Hws Hwl Hl Hc Ha Hdr Hcv Hf]. tls_destruct t.
  split; simpl in *; try done.
  - destruct Hp as [[_ Hp]|[Hp _]]; [congruence|].
    split; [done|]. split; [|done]. by destruct ir.
  - subst iw. by destruct ir.
  - intros x. pose proof (Hwl x) as Hx.
    destruct x, ir, s0, s1; simpl in *; tls_crush.
Qed.

(** The entries of the read buffer are invoked. *)
Lemma tls_inv_invoke t c i r n sub del :
  tls_inv t c (PhInvoke i) r n sub del →
  tls_inv t c PhFinish r n sub (del ++ sel i (entries_ t)).
Proof.
  intros [Hd Ht Hu Hp Hws Hwl Hl Hc Ha Hdr Hcv Hf].
  destruct Hp as (Hun & Hlock & ->).
  split; simpl in *; try done.
  rewrite Hf. by rewrite <- app_assoc.
Qed.

(** [FinishReadingEntries]. *)
Lemma tls_inv_finish t c r n sub del :
  tls_inv t c PhFinish r n sub del →
  n = 1%nat ∧ tls_inv (FinishReadingEntries t) c PhNone r 0 sub del.
Proof.
  intros [Hd Ht Hu Hp Hws Hwl Hl Hc Ha Hdr Hcv Hf]. tls_destruct t.
  destruct Hp as [-> Hlock]. split; [lia|].
  split; simpl in *; try done.
  - left. done.
  - intros _. by destruct ir.
  - subst iw. by destruct ir.
  - subst iw. rewrite Hf. by destruct ir.
Qed.


(** ** Requests are neither lost nor doubled *)

Lemma valid_pointer_not_tag p id :
  valid_pointer p → SwapRequestSlotIsWritableValue id ≠ p.
Proof. intros [_ H] E. by apply (readable_not_tag p id). Qed.

Lemma Get_tokens slot next P v P' p :
  valid_pointer p →
  GetTlsLoggerThatRequestedSwap slot next P = Ok v P' →
  (occ p (thread_swap_request_slots_ (logger P')) + (if Z.eqb v p then 1 else 0)
   = occ p (thread_swap_request_slots_ (logger P)))%nat.
Proof.
  intros Hp. destruct (Get_cases slot next P) as [[Hr ->]|[Hr ->]];
    intros [= <- <-].
  - unfold load_slot, store_slot. simpl.
    destruct (thread_swap_request_slots_ (logger P) !! Z.to_nat slot)
      as [x|] eqn:E; simpl.
    + pose proof (occ_insert p _ _ x (SwapRequestSlotIsWritableValue next) E) as H.
      destruct (Z.eqb_spec (SwapRequestSlotIsWritableValue next) p) as [Ht|_];
        [by apply valid_pointer_not_tag in Ht|].
      lia.
    + rewrite list_insert_ge by (by apply lookup_ge_None).
      destruct Hp as [Hp _]. destruct p; [done|lia..].
  - destruct Hp as [Hp _]. destruct p; [done|simpl; lia..].
Qed.

Lemma gather_frame_slots P P' :
  gather_frame P P' →
  threads_to_swap_deferred_ (logger P') = threads_to_swap_deferred_ (logger P) ∧
  threads_to_read_ (logger P') = threads_to_read_ (logger P) ∧
  tls_logger_orphans_ (logger P') = tls_logger_orphans_ (logger P) ∧
  orphans_to_destroy_ (logger P') = orphans_to_destroy_ (logger P) ∧
  io_thread_ (logger P') = io_thread_ (logger P).
Proof. intros [-> _]. done. Qed.

Lemma GatherRetry_body_tokens sr tts P tts' P' p :
  valid_pointer p →
  GatherRetry_body sr tts P = Ok tts' P' →
  (occ p (thread_swap_request_slots_ (logger P')) + occ p tts'
   = occ p (thread_swap_request_slots_ (logger P)) + occ p tts)%nat.
Proof.
  intros Hp. unfold GatherRetry_body.
  destruct (GetTlsLoggerThatRequestedSwap _ _ P) as [v P1|] eqn:E; [|done].
  pose proof (Get_tokens _ _ _ _ _ p Hp E) as Hg.
  destruct (Z.eqb_spec v 0) as [->|Hv]; intros [= <- <-]; simpl.
  - destruct Hp as [Hp _]. destruct (Z.eqb_spec 0 p); [congruence|lia].
  - rewrite occ_app. simpl. destruct (v =? p); lia.
Qed.

Lemma GatherNew_body_tokens tts P tts' P' p :
  valid_pointer p →
  GatherNew_body tts P = Ok tts' P' →
  (occ p (thread_swap_request_slots_ (logger P')) + occ p tts'
   = occ p (thread_swap_request_slots_ (logger P)) + occ p tts)%nat.
Proof.
  intros Hp. unfold GatherNew_body.
  destruct (GetTlsLoggerThatRequestedSwap _ _ P) as [v P1|] eqn:E; [|done].
  pose proof (Get_tokens _ _ _ _ _ p Hp E) as Hg.
  destruct (Z.eqb_spec v 0) as [->|Hv].
  - destruct Hp as [Hp _]. destruct (Z.eqb_spec 0 p); [congruence|].
    destruct (update_retry _ _ _); intros [= <- <-]; simpl; lia.
  - intros [= <- <-]. simpl. rewrite occ_app. simpl. destruct (v =? p); lia.
Qed.

Lemma RequestSwapBuffers_cas_tokens q id P P' p :
  valid_pointer p →
  RequestSwapBuffers_cas q id P = (P', true) →
  occ p (thread_swap_request_slots_ (logger P'))
  = (occ p (thread_swap_request_slots_ (logger P))
     + (if Z.eqb q p then 1 else 0))%nat.
Proof.
  intros Hp. unfold RequestSwapBuffers_cas, compare_exchange_strong.
  destruct (Z.eqb_spec (load_slot (id mod slots_size P) P)
              (SwapRequestSlotIsWritableValue id)) as [E|E]; [|done].
  intros [= <-]. simpl.
  assert (Hin : thread_swap_request_slots_ (logger P)
                  !! Z.to_nat (id mod slots_size P)
                = Some (SwapRequestSlotIsWritableValue id)).
  { unfold load_slot in E.
    destruct (_ !! _) as [x|] eqn:Ex; simpl in E; [by subst|].
    by destruct (tag_nonzero id). }
  pose proof (occ_insert p _ _ _ q Hin) as H.
  destruct (Z.eqb_spec (SwapRequestSlotIsWritableValue id) p) as [Ht|_];
    [by apply valid_pointer_not_tag in Ht|].
  lia.
Qed.

Lemma RequestSwapBuffers_cas_false q id P P' :
  RequestSwapBuffers_cas q id P = (P', false) → P' = P.
Proof.
  unfold RequestSwapBuffers_cas, compare_exchange_strong.
  destruct (_ =? _); [done|]. intros [= <-]. apply store_slot_same.
Qed.

Lemma RequestSwapBuffers_cas_frame q id P P' b :
  RequestSwapBuffers_cas q id P = (P', b) →
  ∃ v, P' = store_slot (id mod slots_size P) v P.
Proof.
  unfold RequestSwapBuffers_cas. destruct (compare_exchange_strong _ _ _ _).
  intros [= <- <-]. by eexists.
Qed.

Lemma delivered_app p P l :
  map snd (filter (fun x : Z * AsyncLogEntry => fst x = p) (invoked P ++ l))
  = delivered p P ++ map snd (filter (fun x : Z * AsyncLogEntry => fst x = p) l).
Proof. unfold delivered. by rewrite filter_app, map_app. Qed.

Lemma delivered_tagged p q es :
  map snd (filter (fun x : Z * AsyncLogEntry => fst x = p)
             (map (fun e => (q, e)) es))
  = if decide (q = p) then es else [].
Proof.
  induction es as [|e es IH]; simpl; [by case_decide|].
  rewrite filter_cons. simpl. case_decide; simpl; by rewrite IH.
Qed.

(** ** The invariant holds at the start and is kept by every step *)

Lemma occ_tags p (f : nat → Z) l :
  valid_pointer p →
  occ p (map (fun i => SwapRequestSlotIsWritableValue (f i)) l) = O.
Proof.
  intros Hp. induction l as [|x l IH]; simpl; [done|].
  destruct (Z.eqb_spec (SwapRequestSlotIsWritableValue (f x)) p) as [E|_];
    [by apply valid_pointer_not_tag in E|done].
Qed.

Lemma sys_inv_initial s : initial s → sys_inv s.
Proof.
  intros [[m [io HL]] Hheap Hprom Hinv Hsync Hthreads Howner Hcpc Htts].
  split.
  - intros p t Ht. by destruct (Hheap p t Ht).
  - done.
  - intros pos q [[i H]|H]; rewrite Hcpc in H; done.
  - by rewrite Hcpc.
  - by rewrite Hcpc.
  - intros p t th Ht Hth.
    destruct (Hheap p t Ht) as [Hp (a & b & ->)].
    destruct (Hthreads p th Hth) as (-> & _ & _ & ->).
    rewrite Hcpc. simpl. unfold queued, delivered. rewrite Htts, Hinv, HL. simpl.
    rewrite (occ_tags p Z.of_nat) by done. apply tls_inv_initial.
Qed.

Lemma alter_as_insert (f : TlsLogger → TlsLogger) q t (h : gmap Z TlsLogger) :
  h !! q = Some t → alter f q h = <[q := f t]> h.
Proof.
  intros H. apply map_eq. intros k. destruct (decide (q = k)) as [->|Hne].
  - by rewrite lookup_alter_eq, lookup_insert_eq, H.
  - by rewrite lookup_alter_ne, lookup_insert_ne.
Qed.

(** A step of the producer of [q] that touches, besides its own pc and
    history, only the TlsLogger [q] and the ring, where it adds [d]
    requests of [q]. *)
Lemma sys_inv_producer s q th t th' t' P' d :
  sys_inv s →
  threads s !! q = Some th →
  heap (proc s) !! q = Some t →
  heap P' = <[q := t']> (heap (proc s)) →
  threads_to_swap_deferred_ (logger P')
    = threads_to_swap_deferred_ (logger (proc s)) →
  threads_to_read_ (logger P') = threads_to_read_ (logger (proc s)) →
  (∀ p, valid_pointer p →
     occ p (thread_swap_request_slots_ (logger P'))
     = (occ p (thread_swap_request_slots_ (logger (proc s)))
        + (if Z.eqb q p then d else 0))%nat) →
  invoked P' = invoked (proc s) →
  tls_inv t' (pc th') (phase q (cpc s)) (queued q s + d)
    (occ q (threads_to_read_ (logger (proc s))))
    (submitted th') (delivered q (proc s)) →
  sys_inv (producer_at q th' P' s).
Proof.
  intros [Hptr Hown Hpos Hloc Hrun Htls] Hth Ht Hheap Hdef Hread Hslots Hinv Hnew.
  assert (Hq : valid_pointer q) by (by eapply Hptr).
  split; simpl.
  - intros p tp. rewrite Hheap. destruct (decide (q = p)) as [<-|Hne].
    + done.
    + rewrite lookup_insert_ne by done. apply Hptr.
  - intros p tp. rewrite Hheap. destruct (decide (q = p)) as [<-|Hne].
    + rewrite !lookup_insert_eq. eauto.
    + rewrite !lookup_insert_ne by done. apply Hown.
  - rewrite Hread. apply Hpos.
  - done.
  - done.
  - intros p tp thp. rewrite Hheap, Hread.
    unfold queued, delivered. simpl. rewrite Hdef, Hinv.
    destruct (decide (q = p)) as [<-|Hne].
    + rewrite !lookup_insert_eq. intros [= <-] [= <-].
      rewrite (Hslots q Hq), Z.eqb_refl.
      replace (occ q (thread_swap_request_slots_ (logger (proc s))) + d
               + occ q (threads_to_swap s)
               + occ q (threads_to_swap_deferred_ (logger (proc s))))%nat
        with (queued q s + d)%nat by (unfold queued; lia).
      done.
    + rewrite !lookup_insert_ne by done. intros Htp Hthp.
      rewrite (Hslots p) by (by eapply Hptr).
      destruct (Z.eqb_spec q p); [done|]. rewrite Nat.add_0_r.
      by apply Htls.
Qed.

Lemma sys_inv_producer_quiet s q th t th' t' P' :
  sys_inv s →
  threads s !! q = Some th →
  heap (proc s) !! q = Some t →
  heap P' = <[q := t']> (heap (proc s)) →
  threads_to_swap_deferred_ (logger P')
    = threads_to_swap_deferred_ (logger (proc s)) →
  threads_to_read_ (logger P') = threads_to_read_ (logger (proc s)) →
  thread_swap_request_slots_ (logger P')
    = thread_swap_request_slots_ (logger (proc s)) →
  invoked P' = invoked (proc s) →
  tls_inv t' (pc th') (phase q (cpc s)) (queued q s)
    (occ q (threads_to_read_ (logger (proc s))))
    (submitted th') (delivered q (proc s)) →
  sys_inv (producer_at q th' P' s).
Proof.
  intros Hinv Hth Ht Hheap Hdef Hread Hslots Hi Hnew.
  eapply (sys_inv_producer s q th t th' t' P' O); try done.
  - intros p _. rewrite Hslots. destruct (q =? p); lia.
  - by rewrite Nat.add_0_r.
Qed.

Lemma sys_inv_pstep q s s' : sys_inv s → pstep q s = Some s' → sys_inv s'.
Proof.
  intros Hinv. unfold pstep.
  destruct (threads s !! q) as [th|] eqn:Hth; [|done].
  destruct (heap (proc s) !! q) as [t|] eqn:Ht; [|done].
  pose proof (inv_tls s Hinv q t th Ht Hth) as Hq.
  assert (Hid : heap (proc s) = <[q := t]> (heap (proc s)))
    by (symmetry; by apply insert_id).
  destruct (pc th) eqn:Hpc.
  - (* outside Log *)
    destruct (ops th) as [|[message|entry|owner serial|summary detail|trace_out] rest]
      eqn:Hops.
    + destruct (calls th) as [|c cs]; [done|]. intros [= <-].
      eapply (sys_inv_producer_quiet s q th t _ t); try done.
    + intros [= <-].
      eapply (sys_inv_producer_quiet s q th t _ t); try done.
      simpl. by rewrite Hpc.
    + intros [= <-].
      eapply (sys_inv_producer_quiet s q th t _ t); try done.
      simpl. by apply tls_inv_load.
    + case_decide; [|done]. intros [= <-].
      eapply (sys_inv_producer_quiet s q th t _ t); try done.
      simpl. by rewrite Hpc.
    + intros [= <-].
      eapply (sys_inv_producer_quiet s q th t _ t); try done.
      simpl. by rewrite Hpc.
    + intros [= <-].
      eapply (sys_inv_producer_quiet s q th t _ t); try done.
      simpl. by rewrite Hpc.
  - (* the lock loop *)
    destruct (EntryState_eqb (sel i_write (entry_states_ t)) Unlocked) eqn:E.
    + apply EntryState_eqb_eq in E.
      rewrite (Log_lock_iteration_ok _ _ _ _ _ E). intros [= <-].
      eapply (sys_inv_producer_quiet s q th); try done.
      simpl. by eapply tls_inv_lock_ok.
    + assert (Hbusy : sel i_write (entry_states_ t) ≠ Unlocked).
      { intros H. apply EntryState_eqb_eq in H. congruence. }
      destruct (tls_inv_lock_fail _ _ _ _ _ _ _ _ _ Hbusy Hq) as [-> Hnew].
      rewrite (Log_lock_iteration_fail _ _ _ _ _ Hbusy).
      change (3 <=? wrap (0 + 1)) with false. cbv iota. intros [= <-].
      eapply (sys_inv_producer_quiet s q th); try done.
  - (* emplace_back *)
    intros [= <-].
    eapply (sys_inv_producer_quiet s q th); try done.
    simpl. by apply tls_inv_emplace.
  - (* the release of the write lock *)
    destruct (tls_inv_unlock _ _ _ _ _ _ _ Hq) as [Hlocked Hnew].
    unfold Log_release, Log_unlock.
    rewrite (cas_entry_state_ok _ _ _ _ Hlocked). intros [= <-].
    eapply (sys_inv_producer_quiet s q th); try done.
  - (* write_buffer_swapped *)
    pose proof (tls_inv_check _ _ _ _ _ _ _ Hq) as Hnew.
    destruct (write_buffer_swapped i_write t); intros [= <-];
      eapply (sys_inv_producer_quiet s q th t _ t); try done.
  - (* fetch_add *)
    unfold RequestSwapBuffers_fetch.
    pose proof (tls_inv_fetch _ _ _ (swap_request_id_ (logger (proc s)))
                  _ _ _ _ _ Hq) as Hnew.
    destruct retried; intros [= <-].
    + eapply (sys_inv_producer_quiet s q th t _ (RequestSwapBuffersSlotRetried t));
        try done.
      * simpl. by apply alter_as_insert.
      * simpl. eapply tls_inv_frame; [|exact Hnew]. by destruct t.
    + eapply (sys_inv_producer_quiet s q th t _ t); try done.
  - (* the CAS of the slot *)
    destruct (RequestSwapBuffers_cas q id (proc s)) as [P1 [|]] eqn:Hcas;
      intros [= <-].
    + destruct (RequestSwapBuffers_cas_frame _ _ _ _ _ Hcas) as [v ->].
      eapply (sys_inv_producer s q th t _ t _ 1); try done.
      * intros p Hp. by apply (RequestSwapBuffers_cas_tokens q id).
      * simpl. rewrite Nat.add_1_r. by apply (tls_inv_request_ok _ _ id).
    + apply RequestSwapBuffers_cas_false in Hcas. subst P1.
      eapply (sys_inv_producer_quiet s q th t _ t); try done.
      simpl. by apply (tls_inv_request_fail _ _ id).
  - (* i_write_prev_ = i_write *)
    intros [= <-].
    eapply (sys_inv_producer_quiet s q th); try done.
    simpl. by apply tls_inv_set_prev.
  - done.
Qed.

Lemma entry_frame_fields P P' :
  entry_frame P P' →
  thread_swap_request_slots_ (logger P') = thread_swap_request_slots_ (logger P) ∧
  threads_to_swap_deferred_ (logger P') = threads_to_swap_deferred_ (logger P) ∧
  threads_to_read_ (logger P') = threads_to_read_ (logger P) ∧
  tls_logger_orphans_ (logger P') = tls_logger_orphans_ (logger P) ∧
  io_thread_ (logger P') = io_thread_ (logger P).
Proof. intros (_ & -> & _). done. Qed.

Lemma erase_orphans_frame l : ∀ P,
  let P' := foldl erase_orphan P l in
  (∀ p t, heap P' !! p = Some t → heap P !! p = Some t) ∧
  thread_swap_request_slots_ (logger P') = thread_swap_request_slots_ (logger P) ∧
  threads_to_swap_deferred_ (logger P') = threads_to_swap_deferred_ (logger P) ∧
  threads_to_read_ (logger P') = threads_to_read_ (logger P) ∧
  io_thread_ (logger P') = io_thread_ (logger P) ∧
  invoked P' = invoked P ∧ promises P' = promises P ∧
  (∀ x, x ∈ tls_logger_orphans_ (logger P')
        ↔ x ∈ tls_logger_orphans_ (logger P) ∧ x ∉ l).
Proof.
  induction l as [|o l IH]; intros P; simpl.
  - do 7 (split; [done|]). intros x. rewrite elem_of_nil. tauto.
  - destruct (IH (erase_orphan P o)) as (Hh & Hs & Hd & Hr & Hio & Hi & Hp & Ho).
    simpl in *. split; [|split; [done|split; [done|split; [done|
      split; [done|split; [done|split; [done|]]]]]]].
    + intros p t Hpt. specialize (Hh p t Hpt).
      apply lookup_delete_Some in Hh. tauto.
    + intros x. rewrite Ho, list_elem_of_filter, elem_of_cons. tauto.
Qed.

Lemma IOThread_retire_frame P :
  let P' := IOThread_retire P in
  (∀ p t, heap P' !! p = Some t → heap P !! p = Some t) ∧
  thread_swap_request_slots_ (logger P') = thread_swap_request_slots_ (logger P) ∧
  threads_to_swap_deferred_ (logger P') = threads_to_swap_deferred_ (logger P) ∧
  threads_to_read_ (logger P') = threads_to_read_ (logger P) ∧
  io_thread_ (logger P') = io_thread_ (logger P) ∧
  invoked P' = invoked P ∧ promises P' = promises P ∧
  orphans_to_destroy_ (logger P') = [] ∧
  (∀ x, x ∈ tls_logger_orphans_ (logger P')
        ↔ x ∈ tls_logger_orphans_ (logger P)
          ∧ x ∉ orphans_to_destroy_ (logger P)).
Proof.
  unfold IOThread_retire.
  destruct (orphans_to_destroy_ (logger P)) as [|o l] eqn:E.
  - do 8 (split; [done|]). intros x. rewrite elem_of_nil. tauto.
  - destruct (erase_orphans_frame (o :: l) P)
      as (Hh & Hs & Hd & Hr & Hio & Hi & Hp & Ho).
    simpl in *. do 8 (split; [done|]). apply Ho.
Qed.

Lemma tls_inv_same t t' c ph ph' r r' n n' sub del del' :
  same_protocol t t' → ph' = ph → r' = r → n' = n → del' = del →
  tls_inv t c ph r n sub del → tls_inv t' c ph' r' n' sub del'.
Proof. intros Ht -> -> -> ->. by apply tls_inv_frame. Qed.

(** A step of the I/O thread, TlsLogger by TlsLogger. *)
Lemma sys_inv_consumer s c' tts' P' :
  sys_inv s →
  (∀ p t', heap P' !! p = Some t' → is_Some (heap (proc s) !! p)) →
  (∀ pos q, (∃ i, c' = CInvoke pos q i) ∨ c' = CFinish pos q →
            threads_to_read_ (logger P') !! pos = Some q) →
  match c' with
  | CLoopHead | CProcess _ | CInvoke _ _ _ | CFinish _ _ | CFlush | CRetire =>
    tts' = []
  | _ => True
  end →
  c' ≠ CAborted →
  (∀ p t th t',
     valid_pointer p →
     heap (proc s) !! p = Some t → threads s !! p = Some th →
     heap P' !! p = Some t' →
     tls_inv t (pc th) (phase p (cpc s)) (queued p s)
       (occ p (threads_to_read_ (logger (proc s))))
       (submitted th) (delivered p (proc s)) →
     tls_inv t' (pc th) (phase p c')
       (queued p (consumer_at c' tts' P' s))
       (occ p (threads_to_read_ (logger P')))
       (submitted th) (delivered p P')) →
  sys_inv (consumer_at c' tts' P' s).
Proof.
  intros [Hptr Hown Hpos Hloc Hrun Htls] Hheap Hpos' Hloc' Hrun' Hstep.
  split; simpl; try done.
  - intros p t' Ht'. destruct (Hheap p t' Ht') as [t Ht]. by eapply Hptr.
  - intros p t' Ht'. destruct (Hheap p t' Ht') as [t Ht]. by eapply Hown.
  - intros p t' th Ht' Hth. destruct (Hheap p t' Ht') as [t Ht].
    eapply Hstep; try done. by eapply Hptr. by apply Htls.
Qed.

(** A step of the I/O thread that is in the middle of no TlsLogger before
    and after, and keeps the requests and the read list of each. *)
Lemma sys_inv_consumer_quiet s c' tts' P' :
  sys_inv s →
  heap P' = heap (proc s) →
  (∀ p, valid_pointer p → queued p (consumer_at c' tts' P' s) = queued p s) →
  (∀ p, valid_pointer p →
     occ p (threads_to_read_ (logger P'))
     = occ p (threads_to_read_ (logger (proc s)))) →
  invoked P' = invoked (proc s) →
  (∀ p, phase p (cpc s) = PhNone) →
  (∀ p, phase p c' = PhNone) →
  match c' with
  | CLoopHead | CProcess _ | CInvoke _ _ _ | CFinish _ _ | CFlush | CRetire =>
    tts' = []
  | _ => True
  end →
  c' ≠ CAborted →
  sys_inv (consumer_at c' tts' P' s).
Proof.
  intros Hinv Hheap Hq Hr Hi Hph Hph' Hloc Hrun.
  apply sys_inv_consumer; try done.
  - intros p t'. rewrite Hheap. eauto.
  - intros pos q [[i ->] | ->]; specialize (Hph' q); simpl in Hph';
      by rewrite Z.eqb_refl in Hph'.
  - intros p t th t' Hp Ht Hth. rewrite Hheap, Ht. intros [= <-].
    rewrite Hph, Hph', (Hq p Hp), (Hr p Hp). unfold delivered. by rewrite Hi.
Qed.

Lemma phase_other p q c :
  q ≠ p →
  match c with
  | CSwapRelease x | CSwapPublish x | CInvoke _ x _ | CFinish _ x => x = q
  | _ => True
  end →
  phase p c = PhNone.
Proof.
  intros Hne. destruct c; simpl; try done; intros ->;
    by destruct (Z.eqb_spec q p).
Qed.

Lemma occ_cons_ne p q l : q ≠ p → occ p (q :: l) = occ p l.
Proof. intros H. simpl. by destruct (Z.eqb_spec q p). Qed.

Lemma occ_cons_eq p l : occ p (p :: l) = S (occ p l).
Proof. simpl. by rewrite Z.eqb_refl. Qed.

Lemma occ_snoc_ne p q l : q ≠ p → occ p (l ++ [q]) = occ p l.
Proof. intros H. rewrite occ_app, occ_cons_ne by done. simpl. lia. Qed.

Lemma occ_snoc_eq p l : occ p (l ++ [p]) = S (occ p l).
Proof. rewrite occ_app, occ_cons_eq. simpl. lia. Qed.

Ltac heap_same := let p := fresh in let t := fresh in intros p t; simpl; eauto.

Ltac heap_insert q :=
  let p := fresh in let t := fresh in
  intros p t; simpl; destruct (decide (q = p)) as [<- | ?];
  [eauto | rewrite lookup_insert_ne by done; eauto].

Ltac no_position :=
  let H := fresh in intros ? ? [[? H]|H]; discriminate H.

Lemma sys_inv_cstep s s' : sys_inv s → cstep s = Some s' → sys_inv s'.
Proof.
  intros Hinv. pose proof Hinv as [Hptr Hown Hpos Hloc Hrun Htls].
  unfold cstep. destruct (cpc s) eqn:Hc.
  - (* the head of the loop *)
    simpl in Hloc.
    destruct (keep_io_thread_alive_ (logger (proc s))).
    + destruct (swap_request_slots_to_retry_ (logger (proc s)));
        intros [= <-];
        (apply sys_inv_consumer_quiet;
         [done|done| |done|done|by rewrite Hc|done|done|done]);
        intros p _; unfold queued; simpl; rewrite Hloc; simpl; lia.
    + intros [= <-].
      apply sys_inv_consumer_quiet;
        [done|done|done|done|done|by rewrite Hc|done|done|done].
  - (* GatherRetrySwapRequests *)
    destruct retry_slots as [|sr rest].
    + intros [= <-].
      apply sys_inv_consumer_quiet;
        [done|done|done|done|done|by rewrite Hc|done|done|done].
    + destruct (GatherRetry_body_frame sr (threads_to_swap s) (proc s))
        as (tts' & P1 & Hbody & F). rewrite Hbody. intros [= <-].
      destruct (gather_frame_slots _ _ F) as (Hd & Hr & _).
      destruct F as (_ & Hh & _ & _ & Hi).
      apply sys_inv_consumer_quiet;
        [done|done| | |done|by rewrite Hc|done|done|done].
      * intros p Hp. unfold queued. simpl. rewrite Hd.
        pose proof (GatherRetry_body_tokens _ _ _ _ _ p Hp Hbody). lia.
      * intros p _. by rewrite Hr.
  - (* the load of swap_request_id_ *)
    intros [= <-].
    apply sys_inv_consumer_quiet;
      [done|done|done|done|done|by rewrite Hc|done|done|done].
  - (* GatherNewSwapRequests *)
    destruct (_ <? _).
    + destruct (GatherNew_body_frame (threads_to_swap s) (proc s))
        as (tts' & P1 & Hbody & F). rewrite Hbody. intros [= <-].
      destruct (gather_frame_slots _ _ F) as (Hd & Hr & _).
      destruct F as (_ & Hh & _ & _ & Hi).
      apply sys_inv_consumer_quiet;
        [done|done| | |done|by rewrite Hc|done|done|done].
      * intros p Hp. unfold queued. simpl. rewrite Hd.
        pose proof (GatherNew_body_tokens _ _ _ _ p Hp Hbody). lia.
      * intros p _. by rewrite Hr.
    + intros [= <-].
      apply sys_inv_consumer_quiet;
        [done|done|done|done|done|by rewrite Hc|done|done|done].
  - (* the loop over threads_to_swap *)
    destruct (threads_to_swap s) as [|q rest] eqn:Htts.
    + intros [= <-].
      apply sys_inv_consumer_quiet;
        [done|done| |done|done|by rewrite Hc|done|done|done].
      intros p _. unfold queued. simpl. by rewrite Htts.
    + destruct (heap (proc s) !! q) as [tq|] eqn:Hq; [|done].
      destruct (ReadBufferHasBeenConsumed tq) eqn:Hcons; intros [= <-].
      * apply sys_inv_consumer; [done|heap_same|no_position|done|done|].
        intros p t th t' Hp Ht Hth. simpl. rewrite Ht. intros [= <-].
        rewrite Hc. simpl. unfold queued. simpl. rewrite Htts.
        destruct (Z.eqb_spec q p) as [-> | Hne].
        -- rewrite Hq in Ht. injection Ht as <-.
           rewrite occ_cons_eq. intros H. apply tls_inv_pick; [done|].
           replace (S (occ p (thread_swap_request_slots_ (logger (proc s)))
                       + occ p rest
                       + occ p (threads_to_swap_deferred_ (logger (proc s)))))
             with (occ p (thread_swap_request_slots_ (logger (proc s)))
                   + S (occ p rest)
                   + occ p (threads_to_swap_deferred_ (logger (proc s))))%nat
             by lia.
           done.
        -- by rewrite occ_cons_ne.
      * apply sys_inv_consumer_quiet;
          [done|done| |done|done|by rewrite Hc|done|done|done].
        intros p _. unfold queued. simpl. rewrite Htts, occ_app. simpl.
        destruct (q =? p); lia.
  - (* SwapBuffers: the CAS *)
    destruct (heap (proc s) !! thread) as [tq|] eqn:Hq; [|done].
    destruct (Hown _ _ Hq) as [thq Hthq].
    pose proof (Htls _ _ _ Hq Hthq) as Hfocus.
    simpl in Hfocus. rewrite Z.eqb_refl in Hfocus.
    destruct (tls_inv_release _ _ _ _ _ _ Hfocus) as [Hlocked Hnew].
    unfold SwapBuffers_release. rewrite (cas_entry_state_ok _ _ _ _ Hlocked).
    intros [= <-].
    apply sys_inv_consumer; [done|heap_insert thread|no_position|done|done|].
    intros p t th t' Hp Ht Hth. simpl. rewrite Hc. simpl.
    destruct (Z.eqb_spec thread p) as [-> | Hne].
    + rewrite lookup_insert_eq. intros [= <-].
      rewrite Hq in Ht. injection Ht as <-.
      rewrite Hthq in Hth. injection Hth as <-. intros _. exact Hnew.
    + rewrite lookup_insert_ne, Ht by done. by intros [= <-].
  - (* SwapBuffers: the publication *)
    destruct (heap (proc s) !! thread) as [tq|] eqn:Hq; [|done].
    intros [= <-].
    apply sys_inv_consumer; [done|heap_insert thread|no_position|done|done|].
    intros p t th t' Hp Ht Hth. simpl. rewrite Hc. simpl.
    unfold queued. simpl.
    destruct (Z.eqb_spec thread p) as [-> | Hne].
    + rewrite lookup_insert_eq. intros [= <-].
      rewrite Hq in Ht. injection Ht as <-.
      rewrite occ_snoc_eq. apply tls_inv_publish.
    + rewrite lookup_insert_ne, Ht by done. intros [= <-].
      by rewrite occ_snoc_ne.
  - (* the loop over threads_to_read_ *)
    simpl in Hloc.
    destruct (threads_to_read_ (logger (proc s)) !! pos) as [q|] eqn:Hq.
    + destruct (heap (proc s) !! q) as [tq|] eqn:Htq; [|done].
      unfold StartReadingEntries.
      destruct (cas_entry_state_cases (i_read_ tq) Unlocked ReadLock tq)
        as [[Hfree ->]|[Hbusy ->]]; intros [= <-].
      * apply sys_inv_consumer; [done|heap_insert q| |done|done|].
        -- intros pos' x [[i H]|H]; [|done]. by injection H as <- <- _.
        -- intros p t th t' Hp Ht Hth. simpl. rewrite Hc. simpl.
           destruct (Z.eqb_spec q p) as [-> | Hne].
           ++ rewrite lookup_insert_eq. intros [= <-].
              rewrite Htq in Ht. injection Ht as <-.
              by apply tls_inv_start_reading.
           ++ rewrite lookup_insert_ne, Ht by done. by intros [= <-].
      * apply sys_inv_consumer_quiet;
          [done|done|done|done|done|by rewrite Hc|done|done|done].
    + intros [= <-].
      apply sys_inv_consumer_quiet;
        [done|done|done| |done|by rewrite Hc|done|done|done].
      intros p [Hp _]. simpl. by apply occ_RemoveValue.
  - (* the entries are invoked *)
    simpl in Hloc.
    destruct (heap (proc s) !! thread) as [tq|] eqn:Hq; [|done].
    intros [= <-].
    destruct (IOThread_invoke_entries_spec thread tq i (proc s))
      as (F & Hi & _ & _).
    destruct (entry_frame_fields _ _ F) as (Hs & Hd & Hr & _).
    destruct F as (Hh & _ & _).
    apply sys_inv_consumer; [done| | |done|done|].
    + intros p t' Ht'. specialize (Hh p). rewrite Ht' in Hh.
      destruct (heap (proc s) !! p); [eauto|done].
    + intros pos' x [[i' H]|H]; [done|]. injection H as <- <-.
      rewrite Hr. apply Hpos. left. by eexists.
    + intros p t th t' Hp Ht Hth Ht'. rewrite Hc. simpl.
      unfold queued, delivered. simpl. rewrite Hs, Hd, Hr, Hi.
      rewrite filter_app, map_app, delivered_tagged.
      specialize (Hh p). rewrite Ht, Ht' in Hh.
      destruct (Z.eqb_spec thread p) as [-> | Hne].
      * rewrite decide_True by done. rewrite Hq in Ht. injection Ht as <-.
        intros H. eapply tls_inv_frame; [exact Hh|]. by apply tls_inv_invoke.
      * rewrite decide_False by done. rewrite app_nil_r.
        by apply tls_inv_frame.
  - (* FinishReadingEntries *)
    simpl in Hloc.
    destruct (heap (proc s) !! thread) as [tq|] eqn:Hq; [|done].
    intros [= <-].
    assert (Hat : threads_to_read_ (logger (proc s)) !! pos = Some thread)
      by (apply Hpos; by right).
    apply sys_inv_consumer; [done|heap_insert thread|no_position|done|done|].
    intros p t th t' Hp Ht Hth. simpl. rewrite Hc. simpl.
    pose proof (occ_insert p _ _ _ 0 Hat) as Hocc.
    assert (H0 : (0 =? p) = false) by (destruct Hp as [Hp _]; lia).
    rewrite H0 in Hocc.
    destruct (Z.eqb_spec thread p) as [-> | Hne].
    + rewrite lookup_insert_eq. intros [= <-].
      rewrite Hq in Ht. injection Ht as <-. intros H.
      destruct (tls_inv_finish _ _ _ _ _ _ H) as [Hn Hnew].
      replace (occ p (<[pos:=0]> (threads_to_read_ (logger (proc s)))))
        with O by lia.
      done.
    + rewrite lookup_insert_ne, Ht by done. intros [= <-].
      replace (occ p (<[pos:=0]> (threads_to_read_ (logger (proc s)))))
        with (occ p (threads_to_read_ (logger (proc s)))) by lia.
      done.
  - (* Flush *)
    simpl in Hloc. intros [= <-].
    apply sys_inv_consumer_quiet;
      [done|done|done|done|done|by rewrite Hc|done|done|done].
  - (* the orphans marked for destruction are erased *)
    simpl in Hloc. intros [= <-].
    destruct (IOThread_retire_frame (proc s))
      as (Hh & Hs & Hd & Hr & _ & Hi & _).
    apply sys_inv_consumer; [done| |no_position|done|done|].
    + intros p t' Ht'. rewrite (Hh p t' Ht'). eauto.
    + intros p t th t' Hp Ht Hth Ht'. rewrite Hc. simpl.
      unfold queued, delivered. simpl. rewrite Hs, Hd, Hr, Hi.
      rewrite (Hh p t' Ht') in Ht. by injection Ht as <-.
  - done.
  - done.
Qed.

Lemma sys_inv_step s s' : sys_inv s → step s s' → sys_inv s'.
Proof.
  intros Hinv Hstep. destruct Hstep as [p s1 s2 H|s1 s2 H].
  - exact (sys_inv_pstep p s1 s2 Hinv H).
  - exact (sys_inv_cstep s1 s2 Hinv H).
Qed.

Lemma sys_inv_reachable s : reachable s → sys_inv s.
Proof.
  intros (s0 & Hinit & Hrun). apply sys_inv_initial in Hinit.
  induction Hrun as [|x y z Hxy Hyz IH]; [done|].
  apply IH. by eapply sys_inv_step.
Qed.

Lemma run_rtc schedule : ∀ s s', run schedule s = Some s' → rtc step s s'.
Proof.
  induction schedule as [|who rest IH]; intros s s'; simpl.
  - intros [= <-]. apply rtc_refl.
  - destruct who as [p|].
    + destruct (pstep p s) as [s1|] eqn:E; [|done]. intros H.
      eapply rtc_l; [by eapply step_producer|by apply IH].
    + destruct (cstep s) as [s1|] eqn:E; [|done]. intros H.
      eapply rtc_l; [by eapply step_consumer|by apply IH].
Qed.

Lemma one_thread_initial calls0 : initial (one_thread calls0).
Proof.
  split; simpl; try done.
  - by exists 1, 99.
  - intros p t H. apply lookup_singleton_Some in H as [<- <-].
    split; [done|]. by eexists _, _.
  - intros p th H. by apply lookup_singleton_Some in H as [<- <-].
  - intros p t H. apply lookup_singleton_Some in H as [<- <-].
    by rewrite lookup_singleton_eq.
Qed.

Lemma run_reachable calls0 schedule s :
  run schedule (one_thread calls0) = Some s → reachable s.
Proof.
  intros H. exists (one_thread calls0).
  split; [apply one_thread_initial|by eapply run_rtc].
Qed.

(** ** The producer's lock loop *)

(** In the runs of [step], where the load of line 441 reads the newest
    store: in every state a producer inside the lock loop of [Log] has
    failed at most two CASes, its next turn of the loop does not take the
    error branch, and no producer with a live TlsLogger has failed the
    assertion.  The error branch itself is what a third failure takes: it
    writes the synchronous error and fails the assertion. *)
Theorem Log_lock_within_three_attempts s p t th :
  reachable s →
  heap (proc s) !! p = Some t →
  threads s !! p = Some th →
  pc th ≠ PAborted ∧
  (∀ e w n, pc th = PLock e w n →
     n ≤ 2 ∧
     ∀ P', Log_lock_iteration p t w n (proc s) ≠ LockAssertFailed P') ∧
  (∀ t0 w0 P0,
     sel w0 (entry_states_ t0) ≠ Unlocked →
     Log_lock_iteration p t0 w0 2 P0 =
       LockAssertFailed
         (LogErrorSync "CAS failed." [("times", 3); ("line", 453)] P0)).
Proof.
  intros Hreach Ht Hth. apply sys_inv_reachable in Hreach.
  pose proof (inv_tls s Hreach p t th Ht Hth) as Hp.
  split; [apply (inv_not_aborted _ _ _ _ _ _ _ Hp)|]. split.
  - intros e w n Hpc. rewrite Hpc in Hp.
    destruct (EntryState_eqb (sel w (entry_states_ t)) Unlocked) eqn:E.
    + apply EntryState_eqb_eq in E.
      destruct (inv_cas_fail _ _ _ _ _ _ _ Hp e w n eq_refl) as [->|[-> _]];
        (split; [lia|]); intros P'; by rewrite Log_lock_iteration_ok.
    + assert (Hbusy : sel w (entry_states_ t) ≠ Unlocked).
      { intros H. apply EntryState_eqb_eq in H. congruence. }
      destruct (tls_inv_lock_fail _ _ _ _ _ _ _ _ _ Hbusy Hp) as [-> _].
      split; [lia|]. intros P'. by rewrite Log_lock_iteration_fail.
  - intros t0 w0 P0 Hbusy. by rewrite Log_lock_iteration_fail.
Qed.

(** ** Delivery *)

(** In the runs of [step], where the load of line 441 reads the newest
    store: in every state the entries the I/O thread has invoked for a
    producer, followed by the entries that wait in its two buffers (the
    read buffer first, unless its entries have just been invoked), are the
    entries the producer has submitted, in the order of submission: nothing
    is lost, doubled or reordered.  When no work is outstanding for the
    producer, everything it submitted has been invoked. *)
Theorem delivery_in_submission_order s p t th :
  reachable s →
  heap (proc s) !! p = Some t →
  threads s !! p = Some th →
  submitted th =
    delivered p (proc s)
    ++ (match phase p (cpc s) with
        | PhFinish => []
        | _ => sel (i_read_ t) (entries_ t)
        end)
    ++ sel (i_write_ t) (entries_ t) ∧
  (quiescent p t th s → delivered p (proc s) = submitted th).
Proof.
  intros Hreach Ht Hth. apply sys_inv_reachable in Hreach.
  pose proof (inv_tls s Hreach p t th Ht Hth) as Hp.
  split; [apply (inv_fifo _ _ _ _ _ _ _ Hp)|].
  intros (Hpc & Hq & Hph & Hcons).
  destruct Hp as [Hd Htok Hu Hphase Hws Hwl Hl Hc Ha Hdr Hcv Hf].
  rewrite Hpc, Hq, Hph in *. simpl in *.
  apply Z.eqb_eq in Hcons.
  rewrite (Hdr Hcons) in Hf.
  destruct (index_eqb (i_write_prev_ t) (i_write_ t)) eqn:E; [done|].
  destruct (sel (i_write_ t) (entries_ t)) eqn:Eb.
  - by rewrite !app_nil_r in Hf.
  - exfalso. assert (i_write_prev_ t = i_write_ t) by (by apply Hcv).
    apply index_eqb_eq in H. congruence.
Qed.
(** ** Runs in which the load of [i_write_] is stale *)

(** A step of the relaxed semantics that reads the newest store is a step
    of [pstep]; a step of its I/O thread is a step of [cstep]. *)
Lemma rpstep_newest p r : sys <$> rpstep 0 p r = pstep p (sys r).
Proof.
  unfold rpstep.
  destruct (threads (sys r) !! p) as [th|] eqn:Hth;
    [|by unfold pstep; rewrite Hth].
  destruct (heap (proc (sys r)) !! p) as [t|] eqn:Ht;
    [|by unfold pstep; rewrite Hth, Ht].
  destruct (pc th) eqn:Hpc.
  - destruct (ops th) as [|[] rest] eqn:Hops;
      try (by destruct (pstep p (sys r))).
    unfold may_read, stale_value. simpl.
    rewrite Nat.sub_0_r, lookup_ge_None_2 by (unfold newest; lia).
    unfold pstep. by rewrite Hth, Ht, Hpc, Hops.
  - by destruct (pstep p (sys r)).
  - by destruct (pstep p (sys r)).
  - by destruct (pstep p (sys r)).
  - by destruct (pstep p (sys r)).
  - by destruct (pstep p (sys r)).
  - by destruct (pstep p (sys r)).
  - by destruct (pstep p (sys r)).
  - by destruct (pstep p (sys r)).
Qed.

Lemma rcstep_sys r : sys <$> rcstep r = cstep (sys r).
Proof. unfold rcstep. by destruct (cstep (sys r)). Qed.

(** The one step that is not a step of [step]: at the load of line 441,
    a store behind the newest, at or after the oldest the owner can still
    read; the thread enters the lock loop with the value of that store. *)
Lemma rpstep_stale age p r r' :
  rpstep (S age) p r = Some r' →
  ∃ th t entry rest,
    threads (sys r) !! p = Some th ∧ heap (proc (sys r)) !! p = Some t ∧
    pc th = PIdle ∧ ops th = OLog entry :: rest ∧
    (observed (view_of p r) ≤ newest (view_of p r) - S age < newest (view_of p r))%nat ∧
    overwritten (view_of p r) !! (newest (view_of p r) - S age)%nat
      = Some (stale_value (S age) t (view_of p r)) ∧
    sys r' = producer_at p
               (set_pc (PLock entry (stale_value (S age) t (view_of p r)) 0)
                       (set_ops rest th))
               (proc (sys r)) (sys r).
Proof.
  unfold rpstep. intros H.
  destruct (threads (sys r) !! p) as [th|] eqn:Hth; [|done].
  destruct (heap (proc (sys r)) !! p) as [t|] eqn:Ht; [|done].
  destruct (pc th) eqn:Hpc; try done.
  destruct (ops th) as [|[] rest] eqn:Hops; try done.
  destruct (may_read (S age) (view_of p r)) eqn:Hm; [|done].
  simplify_eq. simpl.
  unfold may_read in Hm. apply Nat.leb_le in Hm.
  exists th, t, entry, rest.
  split; [done|]. split; [done|]. split; [done|]. split; [done|].
  split; [lia|]. split; [|done].
  unfold stale_value.
  destruct (overwritten (view_of p r) !! (newest (view_of p r) - S age)%nat)
    as [x|] eqn:E; [done|].
  apply lookup_ge_None_1 in E. unfold newest in *. lia.
Qed.

Lemma step_rstep s s' vs :
  step s s' → ∃ r', rstep (mkRelaxed s vs) r' ∧ sys r' = s'.
Proof.
  intros [p s1 s2 H|s1 s2 H].
  - pose proof (rpstep_newest p (mkRelaxed s1 vs)) as E. simpl in E.
    rewrite H in E.
    destruct (rpstep 0 p (mkRelaxed s1 vs)) as [r'|] eqn:Hr; [|done].
    exists r'. split; [by apply (rstep_turn (Owner p))|].
    by injection E.
  - pose proof (rcstep_sys (mkRelaxed s1 vs)) as E. simpl in E.
    rewrite H in E.
    destruct (rcstep (mkRelaxed s1 vs)) as [r'|] eqn:Hr; [|done].
    exists r'. split; [by apply (rstep_turn Io)|].
    by injection E.
Qed.

(** Every state of [reachable] is a state of [rreachable]. *)
Lemma reachable_rreachable s : reachable s → ∃ r, rreachable r ∧ sys r = s.
Proof.
  intros (s0 & Hinit & Hrun).
  assert (H : ∀ a b, rtc step a b → ∀ vs,
                ∃ r', rtc rstep (mkRelaxed a vs) r' ∧ sys r' = b).
  { clear. intros a b Hab. induction Hab as [x|x y z Hxy Hyz IH]; intros vs.
    - exists (mkRelaxed x vs). split; [apply rtc_refl|done].
    - destruct (step_rstep x y vs Hxy) as ([y1 vs1] & Hs & Hy). simpl in Hy.
      subst y1. destruct (IH vs1) as (r' & Hr & Hz).
      exists r'. split; [by eapply rtc_l|done]. }
  destruct (H s0 s Hrun ∅) as (r & Hr & Hs).
  exists r. split; [|done]. by exists s0.
Qed.

Lemma rrun_rtc schedule : ∀ r r', rrun schedule r = Some r' → rtc rstep r r'.
Proof.
  induction schedule as [|who rest IH]; intros r r'; simpl.
  - intros [= <-]. apply rtc_refl.
  - destruct (turn who r) as [r1|] eqn:E; [|done]. intros H.
    eapply rtc_l; [by eapply rstep_turn|by apply IH].
Qed.

Lemma rrun_reachable calls0 schedule r :
  rrun schedule (relaxed (one_thread calls0)) = Some r → rreachable r.
Proof.
  intros H. exists (one_thread calls0).
  split; [apply one_thread_initial|by eapply rrun_rtc].
Qed.

(** C1: the error branch of the lock loop is reached.  One thread calls
    [Log] five times and one I/O thread runs; the loads of line 441 of the
    third and of the fifth call each read the store before the newest,
    which neither coherence nor a release the thread has acquired forbids.
    The third call then takes a buffer that the I/O thread has released
    and not yet made the write buffer, the fourth the other one, and both
    ask for a swap: two requests of one thread are pending.  In the fifth
    call the first CAS fails against the read lock, the I/O thread swaps and
    takes the read lock of the other buffer, the second CAS fails, the I/O
    thread swaps for the second request and takes the read lock of the first
    buffer again, and the third CAS fails: [LogErrorSync] with times 3 at
    line 453, and the assertion [cas_fail_count < 3] fails. *)
Theorem Log_lock_fails_three_times :
  ∃ r r',
    rrun two_failures (relaxed five_logs) = Some r ∧
    rreachable r ∧
    submitted (thread_of 16 (sys r)) = map UserEntry ["a"; "b"; "c"; "d"] ∧
    pc (thread_of 16 (sys r)) = PLock (UserEntry "e") i0 2 ∧
    sel i0 (entry_states_ (tls_of 16 (sys r))) = ReadLock ∧
    Log_lock_iteration 16 (tls_of 16 (sys r)) i0 2 (proc (sys r))
      = LockAssertFailed
          (LogErrorSync "CAS failed." [("times", 3); ("line", 453)]
             (proc (sys r))) ∧
    turn (Owner 16) r = Some r' ∧
    pc (thread_of 16 (sys r')) = PAborted ∧
    sync_log (proc (sys r'))
      = [("CAS failed.", [("times", 3); ("line", 453)])].
Proof.
  destruct (rrun two_failures (relaxed five_logs)) as [r|] eqn:Hr;
    [|by vm_compute in Hr].
  destruct (turn (Owner 16) r) as [r'|] eqn:Hr'.
  2:{ vm_compute in Hr. injection Hr as <-. by vm_compute in Hr'. }
  exists r, r'. split; [done|].
  split; [by eapply rrun_reachable|].
  vm_compute in Hr. injection Hr as <-.
  vm_compute in Hr'. injection Hr' as <-.
  repeat split; vm_compute; reflexivity.
Qed.

(** C2: entries of one thread are invoked out of the order of submission.
    One thread calls [Log] with "a", "b", "c", "d" in turn and one I/O
    thread runs; the load of line 441 of the third call reads the store
    before the newest.  "b" is in buffer 0; the third call puts "c" into
    buffer 1, which the I/O thread has just released (line 481) and is
    about to make the write buffer (line 489); the fourth call reads the
    newest store, which still names buffer 0, and puts "d" behind "b".  The
    I/O thread reads buffer 0 first: [AsyncLog] gets "a", "b", "d", "c".
    Every entry is invoked once; at the end nothing is outstanding. *)
Theorem delivery_out_of_submission_order :
  ∃ r,
    rrun out_of_order (relaxed four_logs) = Some r ∧
    rreachable r ∧
    submitted (thread_of 16 (sys r)) = map UserEntry ["a"; "b"; "c"; "d"] ∧
    delivered 16 (proc (sys r)) = map UserEntry ["a"; "b"; "d"; "c"] ∧
    user_events (async_logger_ (logger (proc (sys r)))) = ["a"; "b"; "d"; "c"] ∧
    calls (thread_of 16 (sys r)) = [] ∧
    quiescent 16 (tls_of 16 (sys r)) (thread_of 16 (sys r)) (sys r) ∧
    entries_ (tls_of 16 (sys r)) = ([], []) ∧
    cpc (sys r) = CLoopHead ∧
    sync_log (proc (sys r)) = [].
Proof.
  destruct (rrun out_of_order (relaxed four_logs)) as [r|] eqn:Hr;
    [|by vm_compute in Hr].
  exists r. split; [done|].
  split; [by eapply rrun_reachable|].
  vm_compute in Hr. injection Hr as <-.
  repeat split; vm_compute; reflexivity.
Qed.

(** ** [unread_swaps_] *)


Ltac same_heap :=
  match goal with
  | Ht : heap _ !! ?p = Some ?t, Ht' : heap _ !! ?p = Some ?t' |- _ =>
    rewrite Ht in Ht'; by simplify_eq
  | Hh : heap ?P = heap _, Ht : heap _ !! ?p = Some ?t,
    Ht' : heap ?P !! ?p = Some ?t' |- _ =>
    rewrite Hh, Ht in Ht'; by simplify_eq
  end.



(** ** Barriers *)












(** ** Retiring a thread *)

Lemma is_Some_insert_same (h : gmap Z TlsLogger) q tq tq' p :
  h !! q = Some tq → (is_Some (<[q := tq']> h !! p) ↔ is_Some (h !! p)).
Proof.
  intros Hq. destruct (decide (q = p)) as [<- | Hne].
  - rewrite lookup_insert_eq, Hq. split; eauto.
  - by rewrite lookup_insert_ne.
Qed.

(** The I/O thread touches the orphanage in one place only: the last step
    of its loop, which comes after the flush, which comes after the whole
    of [threads_to_read_] has been visited. *)
Lemma cstep_orphans s s' :
  cstep s = Some s' →
  (cpc s ≠ CRetire →
     tls_logger_orphans_ (logger (proc s')) = tls_logger_orphans_ (logger (proc s)) ∧
     ∀ p, is_Some (heap (proc s') !! p) ↔ is_Some (heap (proc s) !! p)) ∧
  (cpc s = CRetire →
     cpc s' = CLoopHead ∧
     orphans_to_destroy_ (logger (proc s')) = [] ∧
     ∀ x, x ∈ tls_logger_orphans_ (logger (proc s'))
          ↔ x ∈ tls_logger_orphans_ (logger (proc s))
            ∧ x ∉ orphans_to_destroy_ (logger (proc s))) ∧
  (cpc s' = CRetire → cpc s = CFlush) ∧
  (cpc s' = CFlush →
     ∃ pos, cpc s = CProcess pos ∧
            threads_to_read_ (logger (proc s)) !! pos = None).
Proof.
  intros H. unfold cstep in H.
  destruct (cpc s) eqn:Hc.
  - repeat case_match; simplify_eq; simpl; done.
  - destruct retry_slots as [|sr rest]; [by simplify_eq|].
    destruct (GatherRetry_body_frame sr (threads_to_swap s) (proc s))
      as (tts' & P1 & Hbody & F). rewrite Hbody in H. simplify_eq. simpl.
    destruct (gather_frame_slots _ _ F) as (_ & _ & Ho & _).
    destruct F as (_ & Hh & _). rewrite Hh. done.
  - by simplify_eq.
  - destruct (_ <? _); [|by simplify_eq].
    destruct (GatherNew_body_frame (threads_to_swap s) (proc s))
      as (tts' & P1 & Hbody & F). rewrite Hbody in H. simplify_eq. simpl.
    destruct (gather_frame_slots _ _ F) as (_ & _ & Ho & _).
    destruct F as (_ & Hh & _). rewrite Hh. done.
  - repeat case_match; simplify_eq; simpl; done.
  - destruct (heap (proc s) !! thread) as [tq|] eqn:Hq; [|done].
    unfold SwapBuffers_release, cas_entry_state, compare_exchange_strong in H.
    repeat case_match; simplify_eq; simpl; try done.
    split; [|done]. intros _. split; [done|].
    intros p. by eapply is_Some_insert_same.
  - destruct (heap (proc s) !! thread) as [tq|] eqn:Hq; [|done].
    simplify_eq. simpl. split; [|done]. intros _. split; [done|].
    intros p. by eapply is_Some_insert_same.
  - destruct (threads_to_read_ (logger (proc s)) !! pos) as [q|] eqn:Hpos.
    + destruct (heap (proc s) !! q) as [tq|] eqn:Hq; [|done].
      unfold StartReadingEntries, cas_entry_state, compare_exchange_strong in H.
      repeat case_match; simplify_eq; simpl; try done.
      split; [|done]. intros _. split; [done|].
      intros p. by eapply is_Some_insert_same.
    + simplify_eq. simpl. split; [done|]. split; [done|]. split; [done|].
      intros _. by exists pos.
  - destruct (heap (proc s) !! thread) as [tq|] eqn:Hq; [|done].
    simplify_eq. simpl.
    destruct (IOThread_invoke_entries_spec thread tq i (proc s)) as (F & _).
    destruct (entry_frame_fields _ _ F) as (_ & _ & _ & Ho & _).
    destruct F as (Hh & _ & _).
    split; [|done]. intros _. split; [done|].
    intros p. specialize (Hh p).
    destruct (heap (proc s) !! p), (heap (IOThread_invoke_entries _ _ _ _) !! p);
      try done; split; eauto.
  - destruct (heap (proc s) !! thread) as [tq|] eqn:Hq; [|done].
    simplify_eq. simpl. split; [|done]. intros _. split; [done|].
    intros p. by eapply is_Some_insert_same.
  - simplify_eq. simpl. done.
  - simplify_eq. simpl.
    destruct (IOThread_retire_frame (proc s)) as (_ & _ & _ & _ & _ & _ & _ & Hd & Ho).
    done.
  - done.
  - done.
Qed.

Lemma CollectTlsLoggerStats_spec p P t :
  heap P !! p = Some t →
  let P' := CollectTlsLoggerStats p P in
  heap P' !! p =
    Some (set_swap_buffers_slot_retry_count_ 0 (set_log_cas_fail_count_ 0 t)) ∧
  tls_total_log_cas_fail_count_ (logger P')
    = wrap (tls_total_log_cas_fail_count_ (logger P) + log_cas_fail_count_ t) ∧
  tls_total_swap_buffers_slot_retry_count_ (logger P')
    = wrap (tls_total_swap_buffers_slot_retry_count_ (logger P)
            + swap_buffers_slot_retry_count_ t) ∧
  tls_logger_orphans_ (logger P') = tls_logger_orphans_ (logger P) ∧
  orphans_to_destroy_ (logger P') = orphans_to_destroy_ (logger P).
Proof.
  intros Ht. unfold CollectTlsLoggerStats. rewrite Ht. simpl.
  rewrite lookup_insert_eq, !Z.sub_diag. done.
Qed.

(** The step of the I/O thread that follows the visit of
    [threads_to_read_] is the flush, and it is followed by the step that
    erases the orphans. *)
Lemma cstep_flush s s' :
  cstep s = Some s' → cpc s = CFlush →
  cpc s' = CRetire ∧
  async_logger_ (logger (proc s')) = async_logger_ (logger (proc s)) ++ [EvFlush].
Proof.
  intros H Hc. unfold cstep in H. rewrite Hc in H. by simplify_eq.
Qed.

(** C7: [UnRegisterTlsLogger] first puts the logger at the front of the
    orphanage, the registered set untouched: that is the memory when the
    first mutex is released.  Then it erases the logger from the registered
    set, the orphanage untouched: that is the memory when the second mutex
    is released.  Then it submits through that logger's own [Log] one entry,
    which lands at the end of one of its buffers.  From the first block on
    the logger is in the orphanage at every point, so one that was
    registered is never in neither collection.  The entry, run, collects the
    logger's two contention counters into the totals and appends the orphan
    to [orphans_to_destroy_], leaving the orphanage alone.  The I/O thread
    erases the marked orphans only in the last step of a turn of its loop,
    directly after the flush, which comes directly after the last of
    [threads_to_read_] has been visited; no other step of it changes the
    orphanage or destroys a TlsLogger. *)
Theorem UnRegisterTlsLogger_order fuel tls_logger P t k :
  heap P !! tls_logger = Some t →
  let w := if EntryState_eqb (sel (i_write_ t) (entry_states_ t)) Unlocked
           then i_write_ t else flip (i_write_ t) in
  let id := swap_request_id_ (logger P) in
  sel w (entry_states_ t) = Unlocked →
  0 ≤ id < 2 ^ word_bits →
  (k < fuel)%nat →
  (∀ j, (j < k)%nat →
     load_slot (wrap (id + Z.of_nat j) mod slots_size P) P
       ≠ SwapRequestSlotIsWritableValue (wrap (id + Z.of_nat j))) →
  load_slot (wrap (id + Z.of_nat k) mod slots_size P) P
    = SwapRequestSlotIsWritableValue (wrap (id + Z.of_nat k)) →
  (∃ P1 P2 P3 t3,
     UnRegisterTlsLogger fuel tls_logger P = ([P1; P2], Some (Ok tt P3)) ∧
     (* first the orphanage *)
     (tls_logger_orphans_ (logger P1)
        = tls_logger :: tls_logger_orphans_ (logger P) ∧
      tls_loggers_registerd_ (logger P1) = tls_loggers_registerd_ (logger P) ∧
      heap P1 = heap P) ∧
     (* then the registered set *)
     ((tls_logger ∉ tls_loggers_registerd_ (logger P2)) ∧
      tls_loggers_registerd_ (logger P2)
        = tls_loggers_registerd_ (logger P) ∖ {[tls_logger]} ∧
      tls_logger_orphans_ (logger P2) = tls_logger_orphans_ (logger P1) ∧
      heap P2 = heap P) ∧
     (* then the last entry *)
     (TlsLogger_Log fuel tls_logger (RetireOrphan tls_logger) P2
        = Some (Ok tt P3) ∧
      heap P3 !! tls_logger = Some t3 ∧
      sel w (entries_ t3) = sel w (entries_ t) ++ [RetireOrphan tls_logger] ∧
      tls_logger_orphans_ (logger P3) = tls_logger_orphans_ (logger P2) ∧
      tls_loggers_registerd_ (logger P3) = tls_loggers_registerd_ (logger P2) ∧
      orphans_to_destroy_ (logger P3) = orphans_to_destroy_ (logger P)) ∧
     (* in the orphanage from the first block on *)
     (∀ Q, Q ∈ [P1; P2; P3] → tls_logger ∈ tls_logger_orphans_ (logger Q))) ∧
  (* what the entry does on the I/O thread *)
  (∀ Q tq, heap Q !! tls_logger = Some tq →
     let Q' := run_entry (RetireOrphan tls_logger) Q in
     orphans_to_destroy_ (logger Q') = orphans_to_destroy_ (logger Q) ++ [tls_logger] ∧
     tls_logger_orphans_ (logger Q') = tls_logger_orphans_ (logger Q) ∧
     tls_total_log_cas_fail_count_ (logger Q')
       = wrap (tls_total_log_cas_fail_count_ (logger Q) + log_cas_fail_count_ tq) ∧
     tls_total_swap_buffers_slot_retry_count_ (logger Q')
       = wrap (tls_total_swap_buffers_slot_retry_count_ (logger Q)
               + swap_buffers_slot_retry_count_ tq) ∧
     heap Q' !! tls_logger =
       Some (set_swap_buffers_slot_retry_count_ 0 (set_log_cas_fail_count_ 0 tq))) ∧
  (* when the I/O thread erases the marked orphans *)
  (∀ s s', cstep s = Some s' →
     (cpc s ≠ CRetire →
        tls_logger_orphans_ (logger (proc s'))
          = tls_logger_orphans_ (logger (proc s)) ∧
        ∀ p, is_Some (heap (proc s') !! p) ↔ is_Some (heap (proc s) !! p)) ∧
     (cpc s = CRetire →
        cpc s' = CLoopHead ∧
        orphans_to_destroy_ (logger (proc s')) = [] ∧
        ∀ x, x ∈ tls_logger_orphans_ (logger (proc s'))
             ↔ x ∈ tls_logger_orphans_ (logger (proc s))
               ∧ x ∉ orphans_to_destroy_ (logger (proc s))) ∧
     (cpc s' = CRetire → cpc s = CFlush) ∧
     (cpc s = CFlush →
        cpc s' = CRetire ∧
        async_logger_ (logger (proc s'))
          = async_logger_ (logger (proc s)) ++ [EvFlush]) ∧
     (cpc s' = CFlush →
        ∃ pos, cpc s = CProcess pos ∧
               threads_to_read_ (logger (proc s)) !! pos = None)).
Proof.
  intros Ht w id Hw Hid Hfuel Hbusy Hfree.
  set (P1 := UnRegister_adopt tls_logger P).
  set (P2 := UnRegister_erase tls_logger P1).
  split; [|split].
  - assert (Ht2 : heap P2 !! tls_logger = Some t) by done.
    destruct (TlsLogger_Log_spec fuel tls_logger (RetireOrphan tls_logger) P2 t k
                Ht2 Hw Hid Hfuel Hbusy Hfree)
      as (P3 & t3 & Hrun & Ht3 & (HL & _) & Hent & _).
    exists P1, P2, P3, t3.
    split; [unfold UnRegisterTlsLogger, UnRegister_submit; fold P1 P2;
            by rewrite Hrun|].
    split; [done|].
    split; [split; [|done]|].
    { apply not_elem_of_difference. right. by apply elem_of_singleton. }
    split.
    { split; [done|]. split; [done|].
      fold w in Hent. rewrite Hent, sel_upd_eq. split; [done|].
      rewrite HL. done. }
    intros Q HQ.
    assert (Ho : tls_logger ∈ tls_logger_orphans_ (logger P1))
      by (simpl; left).
    apply elem_of_cons in HQ as [->|HQ]; [exact Ho|].
    apply elem_of_cons in HQ as [->|HQ]; [exact Ho|].
    apply list_elem_of_singleton in HQ as ->. rewrite HL. exact Ho.
  - intros Q tq Hq Q'. unfold Q'. simpl.
    destruct (CollectTlsLoggerStats_spec tls_logger Q tq Hq)
      as (H1 & H2 & H3 & H4 & H5).
    rewrite H5. done.
  - intros s s' Hstep.
    destruct (cstep_orphans s s' Hstep) as (H1 & H2 & H3 & H4).
    split; [exact H1|]. split; [exact H2|]. split; [exact H3|].
    split; [by apply cstep_flush|exact H4].
Qed.

(** ** Sample runs *)

Lemma after_reachable calls0 schedule :
  reachable (after schedule (one_thread calls0)).
Proof.
  unfold after. destruct (run schedule (one_thread calls0)) as [s|] eqn:E; simpl.
  - by eapply run_reachable.
  - exists (one_thread calls0). split; [apply one_thread_initial|apply rtc_refl].
Qed.

(** After one failed CAS the producer is in its second attempt, which
    cannot take the error branch. *)
Lemma Log_lock_within_three_attempts_witness :
  reachable contended ∧
  heap (proc contended) !! 16 = Some (tls_of 16 contended) ∧
  threads contended !! 16 = Some (thread_of 16 contended) ∧
  pc (thread_of 16 contended) = PLock (UserEntry "b") i0 1 ∧
  (pc (thread_of 16 contended) ≠ PAborted ∧
   (∀ e w n, pc (thread_of 16 contended) = PLock e w n →
      n ≤ 2 ∧
      ∀ P', Log_lock_iteration 16 (tls_of 16 contended) w n (proc contended)
              ≠ LockAssertFailed P') ∧
   (∀ t0 w0 P0,
      sel w0 (entry_states_ t0) ≠ Unlocked →
      Log_lock_iteration 16 t0 w0 2 P0 =
        LockAssertFailed
          (LogErrorSync "CAS failed." [("times", 3); ("line", 453)] P0))).
Proof.
  assert (Hr : reachable contended) by apply after_reachable.
  assert (Ht : heap (proc contended) !! 16 = Some (tls_of 16 contended))
    by (vm_compute; reflexivity).
  assert (Hth : threads contended !! 16 = Some (thread_of 16 contended))
    by (vm_compute; reflexivity).
  split; [exact Hr|]. split; [exact Ht|]. split; [exact Hth|].
  split; [vm_compute; reflexivity|].
  exact (Log_lock_within_three_attempts contended 16 _ _ Hr Ht Hth).
Defined.

(** Two entries logged and the I/O thread gone round: both delivered, in
    order. *)
Lemma delivery_in_submission_order_witness :
  reachable drained ∧
  heap (proc drained) !! 16 = Some (tls_of 16 drained) ∧
  threads drained !! 16 = Some (thread_of 16 drained) ∧
  quiescent 16 (tls_of 16 drained) (thread_of 16 drained) drained ∧
  submitted (thread_of 16 drained) = [UserEntry "a"; UserEntry "b"] ∧
  (submitted (thread_of 16 drained) =
     delivered 16 (proc drained)
     ++ (match phase 16 (cpc drained) with
         | PhFinish => []
         | _ => sel (i_read_ (tls_of 16 drained)) (entries_ (tls_of 16 drained))
         end)
     ++ sel (i_write_ (tls_of 16 drained)) (entries_ (tls_of 16 drained)) ∧
   (quiescent 16 (tls_of 16 drained) (thread_of 16 drained) drained →
    delivered 16 (proc drained) = submitted (thread_of 16 drained))).
Proof.
  assert (Hr : reachable drained) by apply after_reachable.
  assert (Ht : heap (proc drained) !! 16 = Some (tls_of 16 drained))
    by (vm_compute; reflexivity).
  assert (Hth : threads drained !! 16 = Some (thread_of 16 drained))
    by (vm_compute; reflexivity).
  split; [exact Hr|]. split; [exact Ht|]. split; [exact Hth|].
  split; [vm_compute; repeat split|].
  split; [vm_compute; reflexivity|].
  exact (delivery_in_submission_order drained 16 _ _ Hr Ht Hth).
Defined.


(** The first [Log] of a thread: it writes buffer 1, [i_write_prev_] is
    buffer 0, so it requests a swap in slot 0. *)
Lemma Log_requests_swap_iff_witness :
  heap fresh !! 16 = Some (TlsLogger_ctor "pid tid" "tid") ∧
  sel i1 (entry_states_ (TlsLogger_ctor "pid tid" "tid")) = Unlocked ∧
  i_write_prev_ (TlsLogger_ctor "pid tid" "tid") ≠ i1 ∧
  load_slot 0 fresh = SwapRequestSlotIsWritableValue 0 ∧
  ∃ P' t',
    TlsLogger_Log 1 16 (UserEntry "a") fresh = Some (Ok tt P') ∧
    heap P' !! 16 = Some t' ∧
    sel i1 (entries_ t') = [UserEntry "a"] ∧
    sel i0 (entries_ t') = [] ∧
    (i_write_prev_ (TlsLogger_ctor "pid tid" "tid") ≠ i1 →
       i_write_prev_ t' = i1 ∧
       load_slot 0 P' = 16 ∧
       thread_swap_request_slots_ (logger P') =
         <[0%nat := 16]> (thread_swap_request_slots_ (logger fresh)) ∧
       swap_request_id_ (logger P') = 1) ∧
    (i_write_prev_ (TlsLogger_ctor "pid tid" "tid") = i1 →
       i_write_prev_ t' = i_write_prev_ (TlsLogger_ctor "pid tid" "tid") ∧
       thread_swap_request_slots_ (logger P')
         = thread_swap_request_slots_ (logger fresh) ∧
       swap_request_id_ (logger P') = 0).
Proof.
  assert (Ht : heap fresh !! 16 = Some (TlsLogger_ctor "pid tid" "tid"))
    by (vm_compute; reflexivity).
  assert (Hw : sel i1 (entry_states_ (TlsLogger_ctor "pid tid" "tid")) = Unlocked)
    by reflexivity.
  assert (Hfree : load_slot 0 fresh = SwapRequestSlotIsWritableValue 0)
    by (vm_compute; reflexivity).
  split; [exact Ht|]. split; [exact Hw|]. split; [discriminate|].
  split; [exact Hfree|].
  refine (Log_requests_swap_iff 1 16 (UserEntry "a") fresh _ 0 Ht Hw _ _ _ Hfree).
  - vm_compute. split; [intros H; discriminate H|reflexivity].
  - lia.
  - intros j Hj. lia.
Defined.

(** Gathering the one request of [requested]: slot 0 is readable. *)
Lemma GatherNewSwapRequests_each_witness :
  swap_request_id_read_ (logger requested) = 0 ∧
  swap_request_id_ (logger requested) = 1 ∧
  load_slot 0 requested = 16 ∧
  (∃ P',
     GatherNew_body [] requested = Ok [16] P' ∧
     swap_request_id_read_ (logger P') = 1 ∧
     swap_request_id_ (logger P') = 1 ∧
     heap P' = heap requested ∧
     thread_swap_request_slots_ (logger P') =
       <[0%nat := SwapRequestSlotIsWritableValue 2]>
         (thread_swap_request_slots_ (logger requested)) ∧
     swap_request_slots_to_retry_ (logger P')
       = swap_request_slots_to_retry_ (logger requested)) ∧
  (1 ≤ 0 → GatherNewSwapRequests [] requested = Ok [] requested) ∧
  (0 < 1 →
   GatherNewSwapRequests [] requested =
     match GatherNew_body [] requested with
     | Ok threads_to_swap' P1 => GatherNewSwapRequests threads_to_swap' P1
     | AssertFailed P1 => AssertFailed P1
     end).
Proof.
  split; [vm_compute; reflexivity|]. split; [vm_compute; reflexivity|].
  split; [vm_compute; reflexivity|].
  refine (GatherNewSwapRequests_each [] requested _ _ _).
  - vm_compute. split; [intros H; discriminate H|reflexivity].
  - vm_compute. split; [intros H; discriminate H|reflexivity].
  - vm_compute. intros _ H. discriminate H.
Defined.

(** Unregistering the one registered TlsLogger. *)
Lemma UnRegisterTlsLogger_order_witness :
  heap registered !! 16 = Some (TlsLogger_ctor "pid tid" "tid") ∧
  16 ∈ tls_loggers_registerd_ (logger registered) ∧
  load_slot 0 registered = SwapRequestSlotIsWritableValue 0 ∧
  (∃ P1 P2 P3 t3,
     UnRegisterTlsLogger 1 16 registered = ([P1; P2], Some (Ok tt P3)) ∧
     (tls_logger_orphans_ (logger P1)
        = 16 :: tls_logger_orphans_ (logger registered) ∧
      tls_loggers_registerd_ (logger P1)
        = tls_loggers_registerd_ (logger registered) ∧
      heap P1 = heap registered) ∧
     ((16 ∉ tls_loggers_registerd_ (logger P2)) ∧
      tls_loggers_registerd_ (logger P2)
        = tls_loggers_registerd_ (logger registered) ∖ {[16]} ∧
      tls_logger_orphans_ (logger P2) = tls_logger_orphans_ (logger P1) ∧
      heap P2 = heap registered) ∧
     (TlsLogger_Log 1 16 (RetireOrphan 16) P2 = Some (Ok tt P3) ∧
      heap P3 !! 16 = Some t3 ∧
      sel i1 (entries_ t3) = [RetireOrphan 16] ∧
      tls_logger_orphans_ (logger P3) = tls_logger_orphans_ (logger P2) ∧
      tls_loggers_registerd_ (logger P3) = tls_loggers_registerd_ (logger P2) ∧
      orphans_to_destroy_ (logger P3) = orphans_to_destroy_ (logger registered)) ∧
     (∀ Q, Q ∈ [P1; P2; P3] → 16 ∈ tls_logger_orphans_ (logger Q))) ∧
  (∀ Q tq, heap Q !! 16 = Some tq →
     orphans_to_destroy_ (logger (run_entry (RetireOrphan 16) Q))
       = orphans_to_destroy_ (logger Q) ++ [16] ∧
     tls_logger_orphans_ (logger (run_entry (RetireOrphan 16) Q))
       = tls_logger_orphans_ (logger Q) ∧
     tls_total_log_cas_fail_count_ (logger (run_entry (RetireOrphan 16) Q))
       = wrap (tls_total_log_cas_fail_count_ (logger Q) + log_cas_fail_count_ tq) ∧
     tls_total_swap_buffers_slot_retry_count_
       (logger (run_entry (RetireOrphan 16) Q))
       = wrap (tls_total_swap_buffers_slot_retry_count_ (logger Q)
               + swap_buffers_slot_retry_count_ tq) ∧
     heap (run_entry (RetireOrphan 16) Q) !! 16 =
       Some (set_swap_buffers_slot_retry_count_ 0 (set_log_cas_fail_count_ 0 tq))) ∧
  (∀ s s', cstep s = Some s' →
     (cpc s ≠ CRetire →
        tls_logger_orphans_ (logger (proc s'))
          = tls_logger_orphans_ (logger (proc s)) ∧
        ∀ p, is_Some (heap (proc s') !! p) ↔ is_Some (heap (proc s) !! p)) ∧
     (cpc s = CRetire →
        cpc s' = CLoopHead ∧
        orphans_to_destroy_ (logger (proc s')) = [] ∧
        ∀ x, x ∈ tls_logger_orphans_ (logger (proc s'))
             ↔ x ∈ tls_logger_orphans_ (logger (proc s))
               ∧ x ∉ orphans_to_destroy_ (logger (proc s))) ∧
     (cpc s' = CRetire → cpc s = CFlush) ∧
     (cpc s = CFlush →
        cpc s' = CRetire ∧
        async_logger_ (logger (proc s'))
          = async_logger_ (logger (proc s)) ++ [EvFlush]) ∧
     (cpc s' = CFlush →
        ∃ pos, cpc s = CProcess pos ∧
               threads_to_read_ (logger (proc s)) !! pos = None)).
Proof.
  assert (Ht : heap registered !! 16 = Some (TlsLogger_ctor "pid tid" "tid"))
    by (vm_compute; reflexivity).
  assert (Hfree : load_slot 0 registered = SwapRequestSlotIsWritableValue 0)
    by (vm_compute; reflexivity).
  split; [exact Ht|]. split; [vm_compute; reflexivity|]. split; [exact Hfree|].
  refine (UnRegisterTlsLogger_order 1 16 registered _ 0 Ht _ _ _ _ Hfree).
  - reflexivity.
  - vm_compute. split; [intros H; discriminate H|reflexivity].
  - lia.
  - intros j Hj. lia.
Defined.


(** * The ring, the counters and the I/O thread, function by function *)

(** ** The tags of the ring *)

Lemma tag_value id :
  SwapRequestSlotIsWritableValue id = 2 * (id mod 2 ^ (word_bits - 1)) + 1.
Proof.
  unfold SwapRequestSlotIsWritableValue, wrap, word_bits.
  rewrite Z.shiftl_mul_pow2 by lia.
  change (2 ^ 1) with 2. change (2 ^ 64) with (2 * 2 ^ 63).
  change (64 - 1) with 63.
  rewrite (Z.mul_comm id 2), Z.mul_mod_distr_l by lia.
  set (m := id mod 2 ^ 63).
  pose proof (Z.add_lor_land (2 * m) 1) as H.
  assert (E : Z.land (2 * m) 1 = (2 * m) mod 2)
    by exact (Z.land_ones (2 * m) 1 ltac:(lia)).
  assert (E2 : (2 * m) mod 2 = 0)
    by (rewrite (Z.mul_comm 2 m); apply Z.mod_mul; lia).
  lia.
Qed.

(** The tag of an id is the id shifted up one bit with the low bit set:
    shifting it down gives back the id less its top bit, it is never taken
    for a pointer, and two ids have the same tag exactly when they agree
    but for the top bit. *)
Theorem tag_decodes id :
  Z.shiftr (SwapRequestSlotIsWritableValue id) 1 = id mod 2 ^ (word_bits - 1) ∧
  SwapRequestSlotIsReadable (SwapRequestSlotIsWritableValue id) = false ∧
  ∀ id', SwapRequestSlotIsWritableValue id = SwapRequestSlotIsWritableValue id'
         ↔ id mod 2 ^ (word_bits - 1) = id' mod 2 ^ (word_bits - 1).
Proof.
  split; [|split].
  - rewrite tag_value, Z.shiftr_div_pow2 by lia. change (2 ^ 1) with 2.
    rewrite (Z.mul_comm 2), Z.div_add_l by lia. change (1 / 2) with 0. lia.
  - apply writable_not_readable.
  - intros id'. rewrite !tag_value. lia.
Qed.

(** ** The constructor of [Logger] *)

(** The constructor makes twice [max_threads_to_log] slots, slot [i] armed
    for request [i]; no slot holds a pointer and all the counters start at
    zero, so there is nothing to gather. *)
Theorem Logger_ctor_ring max_threads_to_log io_thread i :
  0 ≤ max_threads_to_log → max_threads_to_log * 2 < 2 ^ word_bits →
  0 ≤ i < 2 * max_threads_to_log →
  let L := Logger_ctor max_threads_to_log io_thread in
  Z.of_nat (length (thread_swap_request_slots_ L)) = 2 * max_threads_to_log ∧
  thread_swap_request_slots_ L !! Z.to_nat i
    = Some (SwapRequestSlotIsWritableValue i) ∧
  (∀ v, v ∈ thread_swap_request_slots_ L → SwapRequestSlotIsReadable v = false) ∧
  swap_request_id_ L = swap_request_id_read_ L.
Proof.
  intros Hmax Hfit Hi L. unfold L, Logger_ctor. simpl.
  rewrite wrap_small by lia.
  rewrite length_map, length_seq.
  split; [lia|]. split; [|split; [|done]].
  - rewrite list_lookup_fmap, lookup_seq_lt by lia. simpl.
    by rewrite Z2Nat.id by lia.
  - intros v Hv. apply list_elem_of_fmap in Hv as (n & -> & _).
    apply writable_not_readable.
Qed.

Lemma Logger_ctor_ring_witness :
  0 ≤ kMaxThreadsToLog ∧ kMaxThreadsToLog * 2 < 2 ^ word_bits ∧
  0 ≤ 2047 < 2 * kMaxThreadsToLog ∧
  Z.of_nat (length (thread_swap_request_slots_ (Logger_ctor kMaxThreadsToLog 99)))
    = 2 * kMaxThreadsToLog ∧
  thread_swap_request_slots_ (Logger_ctor kMaxThreadsToLog 99) !! Z.to_nat 2047
    = Some (SwapRequestSlotIsWritableValue 2047) ∧
  (∀ v, v ∈ thread_swap_request_slots_ (Logger_ctor kMaxThreadsToLog 99) →
        SwapRequestSlotIsReadable v = false) ∧
  swap_request_id_ (Logger_ctor kMaxThreadsToLog 99)
    = swap_request_id_read_ (Logger_ctor kMaxThreadsToLog 99).
Proof.
  assert (H1 : 0 ≤ kMaxThreadsToLog) by (vm_compute; discriminate).
  assert (H2 : kMaxThreadsToLog * 2 < 2 ^ word_bits) by reflexivity.
  assert (H3 : 0 ≤ 2047 < 2 * kMaxThreadsToLog)
    by (split; [vm_compute; discriminate|reflexivity]).
  split; [exact H1|]. split; [exact H2|]. split; [exact H3|].
  exact (Logger_ctor_ring kMaxThreadsToLog 99 2047 H1 H2 H3).
Defined.

(** ** [RequestSwapBuffers] *)

Lemma RequestSwapBuffers_loop_full this : ∀ fuel id P,
  (∀ x, SwapRequestSlotIsReadable (load_slot x P) = true) →
  RequestSwapBuffers_loop fuel this id P = None.
Proof.
  induction fuel as [|fuel IH]; intros id P Hfull; [done|]. simpl.
  rewrite RequestSwapBuffers_cas_fail
    by (apply readable_not_tag, Hfull).
  unfold RequestSwapBuffers_fetch. apply IH. intros x. apply (Hfull x).
Qed.

(** While every slot of a ring that has slots holds a pointer that the I/O
    thread has not gathered, [RequestSwapBuffers] finds no slot to take: its
    loop does not end, however many slots it tries.  (Of a ring without
    slots nothing is said: there line 141 divides by zero.) *)
Theorem RequestSwapBuffers_spins_on_full_ring fuel tls_logger P :
  0 < slots_size P →
  SwapRequestSlotIsReadable tls_logger = true →
  (∀ x, SwapRequestSlotIsReadable (load_slot x P) = true) →
  RequestSwapBuffers fuel tls_logger P = None.
Proof.
  intros _ _ Hfull. unfold RequestSwapBuffers, RequestSwapBuffers_fetch.
  apply RequestSwapBuffers_loop_full. intros x. apply (Hfull x).
Qed.

Lemma RequestSwapBuffers_spins_on_full_ring_witness :
  slots_size ring_full = 2 ∧
  SwapRequestSlotIsReadable 16 = true ∧
  (∀ x, SwapRequestSlotIsReadable (load_slot x ring_full) = true) ∧
  RequestSwapBuffers 1000 16 ring_full = None.
Proof.
  assert (Hfull : ∀ x, SwapRequestSlotIsReadable (load_slot x ring_full) = true).
  { intros x. unfold load_slot.
    change (thread_swap_request_slots_ (logger ring_full)) with [16; 16].
    destruct (Z.to_nat x) as [|[|n]]; reflexivity. }
  split; [reflexivity|]. split; [reflexivity|]. split; [exact Hfull|].
  exact (RequestSwapBuffers_spins_on_full_ring 1000 16 ring_full eq_refl eq_refl
           Hfull).
Defined.

Lemma RequestSwapBuffers_loop_retries this k :
  ∀ fuel id P P' t,
  (k < fuel)%nat →
  swap_request_id_ (logger P) = wrap (id + 1) →
  (∀ j, (j < k)%nat →
     load_slot (wrap (id + Z.of_nat j) mod slots_size P) P
       ≠ SwapRequestSlotIsWritableValue (wrap (id + Z.of_nat j))) →
  load_slot (wrap (id + Z.of_nat k) mod slots_size P) P
    = SwapRequestSlotIsWritableValue (wrap (id + Z.of_nat k)) →
  0 ≤ id < 2 ^ word_bits →
  heap P !! this = Some t →
  0 ≤ swap_buffers_slot_retry_count_ t < 2 ^ word_bits →
  RequestSwapBuffers_loop fuel this id P = Some P' →
  heap P' !! this =
    Some (set_swap_buffers_slot_retry_count_
            (wrap (swap_buffers_slot_retry_count_ t + Z.of_nat k)) t).
Proof.
  induction k as [|k IH];
    intros fuel id P P' t Hfuel Hcur Hbusy Hfree Hid Ht Hc Hrun.
  - destruct fuel as [|fuel]; [lia|]. simpl in Hrun.
    rewrite Z.add_0_r, wrap_small in Hfree by done.
    rewrite (RequestSwapBuffers_cas_ok _ _ _ Hfree) in Hrun.
    simplify_eq. simpl. rewrite Ht, Z.add_0_r, wrap_small by done.
    by destruct t.
  - destruct fuel as [|fuel]; [lia|]. simpl in Hrun.
    pose proof (Hbusy O ltac:(lia)) as H0. simpl in H0.
    rewrite Z.add_0_r, wrap_small in H0 by done.
    rewrite (RequestSwapBuffers_cas_fail _ _ _ H0) in Hrun.
    unfold RequestSwapBuffers_fetch in Hrun. rewrite Hcur in Hrun.
    set (P1 := RequestSwapBuffers_retried this
                 (on_logger (set_swap_request_id_ (wrap (wrap (id + 1) + 1))) P))
      in Hrun.
    assert (Hsz : slots_size P1 = slots_size P) by done.
    assert (Hld : ∀ x, load_slot x P1 = load_slot x P) by done.
    assert (Ht1 : heap P1 !! this = Some (RequestSwapBuffersSlotRetried t)).
    { unfold P1, RequestSwapBuffers_retried. simpl.
      by rewrite lookup_alter_eq, Ht. }
    rewrite (IH fuel (wrap (id + 1)) P1 P' (RequestSwapBuffersSlotRetried t)
               ltac:(lia) eq_refl); [| | | |exact Ht1| |exact Hrun].
    + unfold RequestSwapBuffersSlotRetried. simpl.
      rewrite wrap_wrap_add. f_equal.
      replace (swap_buffers_slot_retry_count_ t + Z.of_nat (S k))
        with (swap_buffers_slot_retry_count_ t + 1 + Z.of_nat k) by lia.
      by destruct t.
    + intros j Hj. rewrite Hsz, Hld, wrap_wrap_add.
      replace (id + 1 + Z.of_nat j) with (id + Z.of_nat (S j)) by lia.
      apply Hbusy. lia.
    + rewrite Hsz, Hld, wrap_wrap_add.
      replace (id + 1 + Z.of_nat k) with (id + Z.of_nat (S k)) by lia. done.
    + apply wrap_range.
    + simpl. apply wrap_range.
Qed.

(** [RequestSwapBuffers] that meets [k] slots not armed for the id it
    drew before one that is: it has drawn [k + 1] ids, put the pointer in
    the slot of the last, left every other slot as it was, and counted
    [k] retries on the TlsLogger; nothing else of the TlsLogger changes. *)
Theorem RequestSwapBuffers_counts_retries fuel tls_logger P t k :
  let id := swap_request_id_ (logger P) in
  SwapRequestSlotIsReadable tls_logger = true →
  heap P !! tls_logger = Some t →
  0 ≤ id < 2 ^ word_bits →
  0 ≤ swap_buffers_slot_retry_count_ t < 2 ^ word_bits →
  (k < fuel)%nat →
  (∀ j, (j < k)%nat →
     load_slot (wrap (id + Z.of_nat j) mod slots_size P) P
       ≠ SwapRequestSlotIsWritableValue (wrap (id + Z.of_nat j))) →
  load_slot (wrap (id + Z.of_nat k) mod slots_size P) P
    = SwapRequestSlotIsWritableValue (wrap (id + Z.of_nat k)) →
  ∃ P',
    RequestSwapBuffers fuel tls_logger P = Some P' ∧
    swap_request_id_ (logger P') = wrap (id + Z.of_nat k + 1) ∧
    thread_swap_request_slots_ (logger P') =
      <[Z.to_nat (wrap (id + Z.of_nat k) mod slots_size P) := tls_logger]>
        (thread_swap_request_slots_ (logger P)) ∧
    heap P' !! tls_logger =
      Some (set_swap_buffers_slot_retry_count_
              (wrap (swap_buffers_slot_retry_count_ t + Z.of_nat k)) t) ∧
    (∀ q, q ≠ tls_logger → heap P' !! q = heap P !! q) ∧
    swap_request_id_read_ (logger P') = swap_request_id_read_ (logger P) ∧
    swap_request_slots_to_retry_ (logger P')
      = swap_request_slots_to_retry_ (logger P) ∧
    sync_log P' = sync_log P.
Proof.
  intros id _ Ht Hid Hc Hfuel Hbusy Hfree.
  unfold RequestSwapBuffers, RequestSwapBuffers_fetch. fold id.
  set (P1 := on_logger (set_swap_request_id_ (wrap (id + 1))) P).
  assert (Hsz : slots_size P1 = slots_size P) by done.
  assert (Hld : ∀ x, load_slot x P1 = load_slot x P) by done.
  assert (Hbusy1 : ∀ j, (j < k)%nat →
     load_slot (wrap (id + Z.of_nat j) mod slots_size P1) P1
       ≠ SwapRequestSlotIsWritableValue (wrap (id + Z.of_nat j))).
  { intros j Hj. rewrite Hsz, Hld. by apply Hbusy. }
  assert (Hfree1 : load_slot (wrap (id + Z.of_nat k) mod slots_size P1) P1
                   = SwapRequestSlotIsWritableValue (wrap (id + Z.of_nat k))).
  { by rewrite Hsz, Hld. }
  destruct (RequestSwapBuffers_loop_spec tls_logger k fuel id P1
              Hfuel eq_refl Hbusy1 Hfree1 Hid)
    as (P' & Hrun & Hslots & Hnext & HL & Hother & _ & _ & _ & Hsync & _).
  exists P'. split; [done|]. split; [done|]. split; [by rewrite Hslots, Hsz|].
  split.
  { by apply (RequestSwapBuffers_loop_retries tls_logger k fuel id P1 P' t). }
  split; [intros q Hq; by rewrite (Hother q Hq)|].
  rewrite HL. simpl. done.
Qed.

Lemma RequestSwapBuffers_counts_retries_witness :
  SwapRequestSlotIsReadable 16 = true ∧
  heap one_slot_busy !! 16 = Some (tls_of 16 logged_once) ∧
  swap_request_id_ (logger one_slot_busy) = 1 ∧
  load_slot 1 one_slot_busy = 16 ∧
  load_slot 0 one_slot_busy = SwapRequestSlotIsWritableValue 2 ∧
  ∃ P',
    RequestSwapBuffers 2 16 one_slot_busy = Some P' ∧
    swap_request_id_ (logger P') = 3 ∧
    thread_swap_request_slots_ (logger P') = [16; 16] ∧
    swap_buffers_slot_retry_count_ (default (tls_of 16 logged_once) (heap P' !! 16)) = 1.
Proof.
  split; [reflexivity|].
  split; [vm_compute; reflexivity|]. split; [vm_compute; reflexivity|].
  split; [vm_compute; reflexivity|]. split; [vm_compute; reflexivity|].
  destruct (RequestSwapBuffers_counts_retries 2 16 one_slot_busy
              (tls_of 16 logged_once) 1)
    as (P' & Hrun & Hid & Hslots & Hheap & _).
  - reflexivity.
  - vm_compute; reflexivity.
  - vm_compute. split; [intros H; discriminate H|reflexivity].
  - vm_compute. split; [intros H; discriminate H|reflexivity].
  - lia.
  - intros j Hj. assert (j = O) as -> by lia. vm_compute. discriminate.
  - vm_compute; reflexivity.
  - exists P'. split; [exact Hrun|]. split; [exact Hid|].
    split; [exact Hslots|]. rewrite Hheap. reflexivity.
Defined.

(** ** From the producer to the I/O thread through the ring *)

Lemma load_store_slot x v P :
  (Z.to_nat x < length (thread_swap_request_slots_ (logger P)))%nat →
  load_slot x (store_slot x v P) = v.
Proof.
  intros H. unfold load_slot, store_slot. simpl.
  by rewrite list_lookup_insert_eq.
Qed.

(** A request made when the I/O thread has caught up with the ids, whose
    slot is armed for it, comes out of the next [GatherNewSwapRequests]
    once: the gathering appends exactly that pointer, arms the slot for the
    id one turn of the ring later, and has caught up again, so that a
    second gathering appends nothing. *)
Theorem request_then_gather fuel tls_logger threads_to_swap P :
  let id := swap_request_id_ (logger P) in
  let the_slot := id mod slots_size P in
  tls_logger ≠ 0 →
  SwapRequestSlotIsReadable tls_logger = true →
  swap_request_id_read_ (logger P) = id →
  0 ≤ id → id + 1 < 2 ^ word_bits →
  load_slot the_slot P = SwapRequestSlotIsWritableValue id →
  ∃ P1 P2,
    RequestSwapBuffers (S fuel) tls_logger P = Some P1 ∧
    GatherNewSwapRequests threads_to_swap P1
      = Ok (threads_to_swap ++ [tls_logger]) P2 ∧
    load_slot the_slot P2
      = SwapRequestSlotIsWritableValue (wrap (id + slots_size P)) ∧
    swap_request_id_read_ (logger P2) = id + 1 ∧
    swap_request_id_ (logger P2) = id + 1 ∧
    swap_request_slots_to_retry_ (logger P2)
      = swap_request_slots_to_retry_ (logger P) ∧
    heap P2 = heap P ∧
    ∀ threads_to_swap',
      GatherNewSwapRequests threads_to_swap' P2 = Ok threads_to_swap' P2.
Proof.
  intros id the_slot Hnull Hptr Hread Hid0 Hid1 Hfree.
  assert (Hin : (Z.to_nat the_slot
                 < length (thread_swap_request_slots_ (logger P)))%nat).
  { apply load_slot_in_range. rewrite Hfree. apply tag_nonzero. }
  unfold RequestSwapBuffers, RequestSwapBuffers_fetch. fold id. simpl.
  set (P0 := on_logger (set_swap_request_id_ (wrap (id + 1))) P).
  assert (Hfree0 : load_slot (id mod slots_size P0) P0
                   = SwapRequestSlotIsWritableValue id) by done.
  rewrite (RequestSwapBuffers_cas_ok tls_logger id P0 Hfree0).
  change (id mod slots_size P0) with the_slot.
  set (P1 := store_slot the_slot tls_logger P0).
  assert (Hsz : slots_size P1 = slots_size P).
  { unfold slots_size, P1, P0. simpl. by rewrite length_insert. }
  assert (Hld : load_slot the_slot P1 = tls_logger).
  { unfold P1. by apply load_store_slot. }
  assert (Hget : GetTlsLoggerThatRequestedSwap the_slot
                   (wrap (id + slots_size P)) P1
                 = Ok tls_logger
                     (store_slot the_slot
                        (SwapRequestSlotIsWritableValue (wrap (id + slots_size P)))
                        P1)).
  { rewrite Get_readable by (by rewrite Hld). by rewrite Hld. }
  set (P2 := on_logger (fun L =>
               set_swap_request_id_read_ (wrap (swap_request_id_read_ L + 1)) L)
               (store_slot the_slot
                  (SwapRequestSlotIsWritableValue (wrap (id + slots_size P))) P1)).
  assert (Hbody : GatherNew_body threads_to_swap P1
                  = Ok (threads_to_swap ++ [tls_logger]) P2).
  { unfold GatherNew_body. rewrite Hsz.
    change (swap_request_id_read_ (logger P1))
      with (swap_request_id_read_ (logger P)).
    rewrite Hread. fold the_slot. rewrite Hget.
    destruct (Z.eqb_spec tls_logger 0) as [E|_]; [done|]. done. }
  assert (Hr2 : swap_request_id_read_ (logger P2) = id + 1).
  { unfold P2. simpl. rewrite Hread. apply wrap_small. lia. }
  assert (Hi2 : swap_request_id_ (logger P2) = id + 1).
  { unfold P2. simpl. apply wrap_small. lia. }
  exists P1, P2. split; [done|]. split.
  { unfold GatherNewSwapRequests.
    change (swap_request_id_ (logger P1)) with (wrap (id + 1)).
    change (swap_request_id_read_ (logger P1))
      with (swap_request_id_read_ (logger P)).
    rewrite Hread, (wrap_small (id + 1)) by lia.
    replace (Z.to_nat (id + 1 - id)) with 1%nat by lia. simpl.
    change (swap_request_id_read_ (logger P1))
      with (swap_request_id_read_ (logger P)).
    rewrite Hread.
    destruct (Z.ltb_spec id (id + 1)) as [_|?]; [|lia].
    by rewrite Hbody. }
  split.
  { unfold P2. change (load_slot the_slot (on_logger ?f ?Q))
      with (load_slot the_slot Q).
    apply load_store_slot. unfold P1, P0. simpl. by rewrite length_insert. }
  split; [done|]. split; [done|]. split; [done|]. split; [done|].
  intros tts'. unfold GatherNewSwapRequests. rewrite Hr2, Hi2.
  by rewrite Z.sub_diag.
Qed.

Lemma request_then_gather_witness :
  (16 ≠ 0 ∧ SwapRequestSlotIsReadable 16 = true ∧
   swap_request_id_read_ (logger fresh) = swap_request_id_ (logger fresh) ∧
   load_slot 0 fresh = SwapRequestSlotIsWritableValue 0) ∧
  ∃ P1 P2,
    RequestSwapBuffers 1 16 fresh = Some P1 ∧
    GatherNewSwapRequests [] P1 = Ok [16] P2 ∧
    load_slot 0 P2 = SwapRequestSlotIsWritableValue 2 ∧
    swap_request_id_read_ (logger P2) = 1 ∧
    swap_request_id_ (logger P2) = 1 ∧
    swap_request_slots_to_retry_ (logger P2)
      = swap_request_slots_to_retry_ (logger fresh) ∧
    heap P2 = heap fresh ∧
    ∀ threads_to_swap',
      GatherNewSwapRequests threads_to_swap' P2 = Ok threads_to_swap' P2.
Proof.
  split; [repeat split; discriminate|].
  refine (request_then_gather 0 16 [] fresh _ _ _ _ _ _).
  - discriminate.
  - reflexivity.
  - reflexivity.
  - vm_compute. discriminate.
  - reflexivity.
  - vm_compute; reflexivity.
Defined.

(** ** The two gatherings *)

Lemma GatherRetry_body_cases sr tts P :
  ∃ tts' P', GatherRetry_body sr tts P = Ok tts' P' ∧ heap P' = heap P ∧
    swap_request_id_ (logger P') = swap_request_id_ (logger P) ∧
    swap_request_id_read_ (logger P') = swap_request_id_read_ (logger P) ∧
    ((∃ v, tts' = tts ++ [v] ∧ v = load_slot (slot sr) P ∧ v ≠ 0 ∧
           SwapRequestSlotIsReadable v = true ∧
           swap_request_slots_to_retry_ (logger P')
             = swap_request_slots_to_retry_ (logger P) ∧
           swap_request_slots_retry_retry_count_ (logger P')
             = swap_request_slots_retry_retry_count_ (logger P)) ∨
     (tts' = tts ∧
      swap_request_slots_to_retry_ (logger P')
        = swap_request_slots_to_retry_ (logger P) ++ [sr] ∧
      swap_request_slots_retry_retry_count_ (logger P')
        = wrap (swap_request_slots_retry_retry_count_ (logger P) + 1))).
Proof.
  unfold GatherRetry_body.
  destruct (Get_cases (slot sr) (next_id sr) P) as [[Hr ->] | [Hr ->]].
  - destruct (Z.eqb_spec (load_slot (slot sr) P) 0) as [E|E].
    + eexists _, _. split; [done|]. split; [done|]. split; [done|].
      split; [done|]. right. done.
    + eexists _, _. split; [done|]. split; [done|]. split; [done|].
      split; [done|]. left. by exists (load_slot (slot sr) P).
  - simpl. eexists _, _. split; [done|]. split; [done|]. split; [done|].
    split; [done|]. right. done.
Qed.

Lemma GatherRetry_loop_partitions l : ∀ tts P,
  ∃ tts' P' kept,
    GatherRetry_loop l tts P = Ok tts' P' ∧ heap P' = heap P ∧
    swap_request_id_ (logger P') = swap_request_id_ (logger P) ∧
    swap_request_id_read_ (logger P') = swap_request_id_read_ (logger P) ∧
    tts `prefix_of` tts' ∧
    kept `sublist_of` l ∧
    swap_request_slots_to_retry_ (logger P')
      = swap_request_slots_to_retry_ (logger P) ++ kept ∧
    (length tts' + length kept = length tts + length l)%nat ∧
    wrap (swap_request_slots_retry_retry_count_ (logger P'))
      = wrap (swap_request_slots_retry_retry_count_ (logger P)
              + Z.of_nat (length kept)) ∧
    (∀ v, v ∈ tts' → v ∈ tts ∨ (v ≠ 0 ∧ SwapRequestSlotIsReadable v = true)).
Proof.
  induction l as [|sr l IH]; intros tts P; simpl.
  - exists tts, P, []. split; [done|]. split; [done|]. split; [done|].
    split; [done|]. split; [done|]. split; [done|].
    split; [by rewrite app_nil_r|]. split; [done|].
    split; [by rewrite Z.add_0_r|]. intros v Hv. by left.
  - destruct (GatherRetry_body_cases sr tts P)
      as (tts1 & P1 & -> & Hh1 & Hi1 & Hr1 & Hcase).
    destruct (IH tts1 P1)
      as (tts' & P' & kept & -> & Hh & Hi & Hr & Hpre & Hsub & Hretry & Hlen
          & Hcount & Hptr).
    destruct Hcase as [(v & -> & Hv & Hv0 & Hvr & Hl1 & Hc1) | (-> & Hl1 & Hc1)].
    + exists tts', P', kept. split; [done|].
      split; [by rewrite Hh|]. split; [by rewrite Hi|]. split; [by rewrite Hr|].
      split; [by eapply prefix_app_l|].
      split; [by apply sublist_cons|].
      split; [by rewrite Hretry, Hl1|].
      split; [rewrite length_app in Hlen; simpl in *; lia|].
      split; [by rewrite Hcount, Hc1|].
      intros x Hx. destruct (Hptr x Hx) as [Hin | ?]; [|by right].
      apply elem_of_app in Hin as [? | Hin]; [by left|].
      apply list_elem_of_singleton in Hin as ->. by right.
    + exists tts', P', (sr :: kept). split; [done|].
      split; [by rewrite Hh|]. split; [by rewrite Hi|]. split; [by rewrite Hr|].
      split; [done|].
      split; [by apply sublist_skip|].
      split; [by rewrite Hretry, Hl1, <- app_assoc|].
      split; [simpl in *; lia|].
      split; [|done].
      rewrite Hcount, Hc1, wrap_wrap_add. f_equal.
      simpl length. lia.
Qed.

(** [GatherRetrySwapRequests] always returns (its checked CAS cannot fail
    when nothing interferes) and sorts the retry list in two: each entry
    either gives a pointer, appended to [threads_to_swap], or stays in the
    retry list, in the order it had, and is counted in
    [swap_request_slots_retry_retry_count_].  What was in
    [threads_to_swap] stays in front, every pointer appended is non-null,
    and neither the ids nor a TlsLogger change. *)
Theorem GatherRetrySwapRequests_partitions threads_to_swap P :
  ∃ threads_to_swap' P',
    GatherRetrySwapRequests threads_to_swap P = Ok threads_to_swap' P' ∧
    threads_to_swap `prefix_of` threads_to_swap' ∧
    swap_request_slots_to_retry_ (logger P')
      `sublist_of` swap_request_slots_to_retry_ (logger P) ∧
    (length threads_to_swap' + length (swap_request_slots_to_retry_ (logger P'))
     = length threads_to_swap + length (swap_request_slots_to_retry_ (logger P)))%nat ∧
    wrap (swap_request_slots_retry_retry_count_ (logger P'))
      = wrap (swap_request_slots_retry_retry_count_ (logger P)
              + Z.of_nat (length (swap_request_slots_to_retry_ (logger P')))) ∧
    (∀ v, v ∈ threads_to_swap' →
          v ∈ threads_to_swap ∨ (v ≠ 0 ∧ SwapRequestSlotIsReadable v = true)) ∧
    heap P' = heap P ∧
    swap_request_id_ (logger P') = swap_request_id_ (logger P) ∧
    swap_request_id_read_ (logger P') = swap_request_id_read_ (logger P).
Proof.
  unfold GatherRetrySwapRequests.
  destruct (swap_request_slots_to_retry_ (logger P)) as [|sr l] eqn:E.
  - exists threads_to_swap, P. rewrite E. split; [done|]. split; [done|].
    split; [done|]. split; [done|]. split; [by rewrite Z.add_0_r|].
    split; [|done]. intros v Hv. by left.
  - destruct (GatherRetry_loop_partitions (sr :: l) threads_to_swap
                (on_logger (set_swap_request_slots_to_retry_ []) P))
      as (tts' & P' & kept & Hrun & Hh & Hi & Hr & Hpre & Hsub & Hretry & Hlen
          & Hcount & Hptr).
    exists tts', P'. split; [done|]. simpl in Hretry. rewrite Hretry.
    split; [done|]. split; [done|]. split; [done|]. split; [done|].
    split; [done|]. done.
Qed.

Lemma GatherNew_body_cases tts P :
  ∃ tts' P', GatherNew_body tts P = Ok tts' P' ∧ heap P' = heap P ∧
    swap_request_id_ (logger P') = swap_request_id_ (logger P) ∧
    swap_request_id_read_ (logger P')
      = wrap (swap_request_id_read_ (logger P) + 1) ∧
    ((∃ v, tts' = tts ++ [v] ∧ v ≠ 0 ∧ SwapRequestSlotIsReadable v = true ∧
           swap_request_slots_retry_count_ (logger P')
             = swap_request_slots_retry_count_ (logger P)) ∨
     (tts' = tts ∧
      swap_request_slots_retry_count_ (logger P')
        = wrap (swap_request_slots_retry_count_ (logger P) + 1))).
Proof.
  unfold GatherNew_body.
  set (the_slot := swap_request_id_read_ (logger P) mod slots_size P).
  set (next := wrap (swap_request_id_read_ (logger P) + slots_size P)).
  destruct (Get_cases the_slot next P) as [[Hr ->] | [Hr ->]].
  - destruct (Z.eqb_spec (load_slot the_slot P) 0) as [E|E].
    + simpl.
      destruct (update_retry the_slot next
                  (swap_request_slots_to_retry_ (logger P)));
        (eexists _, _; split; [done|]; split; [done|]; split; [done|];
         split; [done|]; right; done).
    + eexists _, _. split; [done|]. split; [done|]. split; [done|].
      split; [done|]. left. by exists (load_slot the_slot P).
  - simpl.
    destruct (update_retry the_slot next
                (swap_request_slots_to_retry_ (logger P)));
      (eexists _, _; split; [done|]; split; [done|]; split; [done|];
       split; [done|]; right; done).
Qed.

Lemma GatherNew_loop_catches_up n : ∀ tts P,
  let read := swap_request_id_read_ (logger P) in
  0 ≤ read → read + Z.of_nat n < 2 ^ word_bits →
  ∃ tts' P' (gathered retried : nat),
    GatherNew_loop n (read + Z.of_nat n) tts P = Ok tts' P' ∧
    swap_request_id_read_ (logger P') = read + Z.of_nat n ∧
    swap_request_id_ (logger P') = swap_request_id_ (logger P) ∧
    heap P' = heap P ∧
    tts `prefix_of` tts' ∧
    length tts' = (length tts + gathered)%nat ∧
    wrap (swap_request_slots_retry_count_ (logger P'))
      = wrap (swap_request_slots_retry_count_ (logger P) + Z.of_nat retried) ∧
    (gathered + retried = n)%nat ∧
    (∀ v, v ∈ tts' → v ∈ tts ∨ (v ≠ 0 ∧ SwapRequestSlotIsReadable v = true)).
Proof.
  induction n as [|n IH]; intros tts P read Hread Hend.
  - exists tts, P, O, O. simpl. split; [done|]. split; [lia|]. split; [done|].
    split; [done|]. split; [done|]. split; [lia|].
    split; [by rewrite Z.add_0_r|]. split; [done|]. intros v Hv. by left.
  - simpl GatherNew_loop. fold read.
    destruct (Z.ltb_spec read (read + Z.of_nat (S n))) as [_|?]; [|lia].
    destruct (GatherNew_body_cases tts P)
      as (tts1 & P1 & -> & Hh1 & Hi1 & Hr1 & Hcase).
    fold read in Hr1. rewrite wrap_small in Hr1 by lia.
    destruct (IH tts1 P1)
      as (tts' & P' & g & r & Hrun & Hr & Hi & Hh & Hpre & Hlen & Hcount
          & Hsum & Hptr).
    { rewrite Hr1. lia. }
    { rewrite Hr1. lia. }
    rewrite Hr1 in Hrun, Hr.
    replace (read + 1 + Z.of_nat n) with (read + Z.of_nat (S n)) in Hrun, Hr by lia.
    destruct Hcase as [(v & -> & Hv0 & Hvr & Hc1) | (-> & Hc1)].
    + exists tts', P', (S g), r. split; [done|]. split; [done|].
      split; [by rewrite Hi|]. split; [by rewrite Hh|].
      split; [by eapply prefix_app_l|].
      split; [rewrite length_app in Hlen; simpl in Hlen; lia|].
      split; [by rewrite Hcount, Hc1|]. split; [lia|].
      intros x Hx. destruct (Hptr x Hx) as [Hin | ?]; [|by right].
      apply elem_of_app in Hin as [? | Hin]; [by left|].
      apply list_elem_of_singleton in Hin as ->. by right.
    + exists tts', P', g, (S r). split; [done|]. split; [done|].
      split; [by rewrite Hi|]. split; [by rewrite Hh|].
      split; [done|]. split; [done|].
      split; [|split; [lia|done]].
      rewrite Hcount, Hc1, wrap_wrap_add. f_equal. lia.
Qed.

(** [GatherNewSwapRequests] always returns, with [swap_request_id_read_]
    moved up to the [swap_request_id_] it loaded: every id of the window is
    taken, and each one either gives a pointer, appended to
    [threads_to_swap], or is counted in [swap_request_slots_retry_count_].
    What was in [threads_to_swap] stays in front, every pointer appended is
    non-null, and no TlsLogger changes. *)
Theorem GatherNewSwapRequests_catches_up threads_to_swap P :
  let read := swap_request_id_read_ (logger P) in
  let swap_request_end := swap_request_id_ (logger P) in
  0 ≤ read → read ≤ swap_request_end → swap_request_end < 2 ^ word_bits →
  ∃ threads_to_swap' P' (gathered retried : nat),
    GatherNewSwapRequests threads_to_swap P = Ok threads_to_swap' P' ∧
    swap_request_id_read_ (logger P') = swap_request_end ∧
    swap_request_id_ (logger P') = swap_request_end ∧
    threads_to_swap `prefix_of` threads_to_swap' ∧
    length threads_to_swap' = (length threads_to_swap + gathered)%nat ∧
    wrap (swap_request_slots_retry_count_ (logger P'))
      = wrap (swap_request_slots_retry_count_ (logger P) + Z.of_nat retried) ∧
    Z.of_nat (gathered + retried) = swap_request_end - read ∧
    (∀ v, v ∈ threads_to_swap' →
          v ∈ threads_to_swap ∨ (v ≠ 0 ∧ SwapRequestSlotIsReadable v = true)) ∧
    heap P' = heap P.
Proof.
  intros read swap_request_end Hread Hle Hend.
  unfold GatherNewSwapRequests. fold read swap_request_end.
  set (n := Z.to_nat (swap_request_end - read)).
  assert (Hn : swap_request_end = read + Z.of_nat n) by lia.
  destruct (GatherNew_loop_catches_up n threads_to_swap P)
    as (tts' & P' & g & r & Hrun & Hr & Hi & Hh & Hpre & Hlen & Hcount
        & Hsum & Hptr).
  { done. }
  { fold read. lia. }
  fold read in Hrun, Hr. rewrite <- Hn in Hrun, Hr.
  exists tts', P', g, r. split; [done|]. split; [done|]. split; [done|].
  split; [done|]. split; [done|]. split; [done|]. split; [lia|]. done.
Qed.

Lemma GatherNewSwapRequests_catches_up_witness :
  (0 ≤ swap_request_id_read_ (logger requested) ∧
   swap_request_id_read_ (logger requested) ≤ swap_request_id_ (logger requested) ∧
   swap_request_id_ (logger requested) < 2 ^ word_bits) ∧
  ∃ threads_to_swap' P' (gathered retried : nat),
    GatherNewSwapRequests [] requested = Ok threads_to_swap' P' ∧
    swap_request_id_read_ (logger P') = swap_request_id_ (logger requested) ∧
    swap_request_id_ (logger P') = swap_request_id_ (logger requested) ∧
    [] `prefix_of` threads_to_swap' ∧
    length threads_to_swap' = (length (@nil Z) + gathered)%nat ∧
    wrap (swap_request_slots_retry_count_ (logger P'))
      = wrap (swap_request_slots_retry_count_ (logger requested)
              + Z.of_nat retried) ∧
    Z.of_nat (gathered + retried)
      = swap_request_id_ (logger requested)
        - swap_request_id_read_ (logger requested) ∧
    (∀ v, v ∈ threads_to_swap' →
          v ∈ @nil Z ∨ (v ≠ 0 ∧ SwapRequestSlotIsReadable v = true)) ∧
    heap P' = heap requested.
Proof.
  assert (H1 : 0 ≤ swap_request_id_read_ (logger requested))
    by (vm_compute; discriminate).
  assert (H2 : swap_request_id_read_ (logger requested)
               ≤ swap_request_id_ (logger requested))
    by (vm_compute; discriminate).
  assert (H3 : swap_request_id_ (logger requested) < 2 ^ word_bits)
    by (vm_compute; reflexivity).
  split; [exact (conj H1 (conj H2 H3))|].
  exact (GatherNewSwapRequests_catches_up [] requested H1 H2 H3).
Defined.

Lemma GatherNew_loop_NoDup n : ∀ swap_request_end tts P tts' P',
  NoDup (map slot (swap_request_slots_to_retry_ (logger P))) →
  GatherNew_loop n swap_request_end tts P = Ok tts' P' →
  NoDup (map slot (swap_request_slots_to_retry_ (logger P'))).
Proof.
  induction n as [|n IH]; intros e tts P tts' P' Hnd Hrun; simpl in Hrun.
  - by simplify_eq.
  - destruct (_ <? _); [|by simplify_eq].
    destruct (GatherNew_body tts P) as [tts1 P1|] eqn:Hbody; [|done].
    eapply IH; [|exact Hrun]. by eapply GatherNew_body_NoDup.
Qed.

(** The retry list never waits twice for one slot: when its slots are
    distinct before [GatherRetrySwapRequests] or [GatherNewSwapRequests],
    they are distinct after. *)
Theorem retry_slots_stay_distinct threads_to_swap P :
  NoDup (map slot (swap_request_slots_to_retry_ (logger P))) →
  (∀ threads_to_swap' P',
     GatherRetrySwapRequests threads_to_swap P = Ok threads_to_swap' P' →
     NoDup (map slot (swap_request_slots_to_retry_ (logger P')))) ∧
  (∀ threads_to_swap' P',
     GatherNewSwapRequests threads_to_swap P = Ok threads_to_swap' P' →
     NoDup (map slot (swap_request_slots_to_retry_ (logger P')))).
Proof.
  intros Hnd. split.
  - intros tts' P' Hrun. unfold GatherRetrySwapRequests in Hrun.
    destruct (swap_request_slots_to_retry_ (logger P)) as [|sr l] eqn:E.
    + simplify_eq. by rewrite E.
    + destruct (GatherRetry_loop_partitions (sr :: l) threads_to_swap
                  (on_logger (set_swap_request_slots_to_retry_ []) P))
        as (tts1 & P1 & kept & Hrun1 & _ & _ & _ & _ & Hsub & Hretry & _).
      rewrite Hrun1 in Hrun. simplify_eq. simpl in Hretry. rewrite Hretry.
      eapply sublist_NoDup; [exact Hnd|]. by apply fmap_sublist.
  - intros tts' P' Hrun. by eapply GatherNew_loop_NoDup.
Qed.

Lemma retry_slots_stay_distinct_witness :
  swap_request_slots_to_retry_ (logger slot_awaited)
    = [{| slot := 0; next_id := 2 |}] ∧
  NoDup (map slot (swap_request_slots_to_retry_ (logger slot_awaited))) ∧
  (∀ threads_to_swap' P',
     GatherRetrySwapRequests [] slot_awaited = Ok threads_to_swap' P' →
     NoDup (map slot (swap_request_slots_to_retry_ (logger P')))) ∧
  (∀ threads_to_swap' P',
     GatherNewSwapRequests [] slot_awaited = Ok threads_to_swap' P' →
     NoDup (map slot (swap_request_slots_to_retry_ (logger P')))).
Proof.
  assert (E : swap_request_slots_to_retry_ (logger slot_awaited)
              = [{| slot := 0; next_id := 2 |}]) by (vm_compute; reflexivity).
  assert (Hnd : NoDup (map slot (swap_request_slots_to_retry_ (logger slot_awaited)))).
  { rewrite E. simpl. apply NoDup_singleton. }
  split; [exact E|]. split; [exact Hnd|].
  exact (retry_slots_stay_distinct [] slot_awaited Hnd).
Defined.

(** ** The reader side of a TlsLogger *)

(** One round of the I/O thread on a TlsLogger whose read buffer is
    consumed and read-locked.  [SwapBuffers] makes the old write buffer the
    read buffer.  When the producer does not hold that buffer,
    [StartReadingEntries] locks it and returns it with the entries the
    producer put there, and [FinishReadingEntries] clears it and brings
    [unread_swaps_] back to zero: the TlsLogger is ready for the next
    [SwapBuffers], the two buffers having changed roles.  When the producer
    holds that buffer, [StartReadingEntries] returns [nullptr] and changes
    nothing, and the swap stays unread. *)
Theorem swap_read_finish_cycle t :
  sel (i_read_ t) (entry_states_ t) = ReadLock →
  unread_swaps_ t = 0 →
  i_write_ t = flip (i_read_ t) →
  ∃ t1,
    TlsLogger_SwapBuffers t = Some t1 ∧
    ReadBufferHasBeenConsumed t1 = false ∧
    i_read_ t1 = i_write_ t ∧ i_write_ t1 = i_read_ t ∧
    entries_ t1 = entries_ t ∧
    (sel (i_write_ t) (entry_states_ t) = Unlocked →
     ∃ t2,
       StartReadingEntries t1 = (t2, Some (i_write_ t)) ∧
       entries_ t2 = entries_ t ∧
       let t3 := FinishReadingEntries t2 in
       sel (i_read_ t3) (entries_ t3) = [] ∧
       sel (i_write_ t3) (entries_ t3) = sel (i_read_ t) (entries_ t) ∧
       ReadBufferHasBeenConsumed t3 = true ∧
       sel (i_read_ t3) (entry_states_ t3) = ReadLock ∧
       sel (i_write_ t3) (entry_states_ t3) = Unlocked ∧
       i_write_ t3 = flip (i_read_ t3)) ∧
    (sel (i_write_ t) (entry_states_ t) ≠ Unlocked →
     StartReadingEntries t1 = (t1, None)).
Proof.
  destruct t as [ir [b0 b1] [s0 s1] iw cf sr un prev pt ts]. simpl.
  intros Hlock -> ->.
  destruct ir; simpl in *; subst.
  - eexists. split; [reflexivity|]. simpl.
    split; [done|]. split; [done|]. split; [done|]. split; [done|]. split.
    + intros ->. eexists. split; [reflexivity|]. done.
    + intros Hs. destruct s1; done.
  - eexists. split; [reflexivity|]. simpl.
    split; [done|]. split; [done|]. split; [done|]. split; [done|]. split.
    + intros ->. eexists. split; [reflexivity|]. done.
    + intros Hs. destruct s0; done.
Qed.

Lemma swap_read_finish_cycle_witness :
  (sel (i_read_ (tls_of 16 logged_once)) (entry_states_ (tls_of 16 logged_once))
     = ReadLock ∧
   unread_swaps_ (tls_of 16 logged_once) = 0 ∧
   i_write_ (tls_of 16 logged_once) = flip (i_read_ (tls_of 16 logged_once)) ∧
   sel i1 (entries_ (tls_of 16 logged_once)) = [UserEntry "a"]) ∧
  ∃ t1,
    TlsLogger_SwapBuffers (tls_of 16 logged_once) = Some t1 ∧
    ReadBufferHasBeenConsumed t1 = false ∧
    i_read_ t1 = i_write_ (tls_of 16 logged_once) ∧
    i_write_ t1 = i_read_ (tls_of 16 logged_once) ∧
    entries_ t1 = entries_ (tls_of 16 logged_once) ∧
    (sel (i_write_ (tls_of 16 logged_once)) (entry_states_ (tls_of 16 logged_once))
       = Unlocked →
     ∃ t2,
       StartReadingEntries t1 = (t2, Some (i_write_ (tls_of 16 logged_once))) ∧
       entries_ t2 = entries_ (tls_of 16 logged_once) ∧
       sel (i_read_ (FinishReadingEntries t2)) (entries_ (FinishReadingEntries t2))
         = [] ∧
       sel (i_write_ (FinishReadingEntries t2)) (entries_ (FinishReadingEntries t2))
         = sel (i_read_ (tls_of 16 logged_once)) (entries_ (tls_of 16 logged_once)) ∧
       ReadBufferHasBeenConsumed (FinishReadingEntries t2) = true ∧
       sel (i_read_ (FinishReadingEntries t2))
           (entry_states_ (FinishReadingEntries t2)) = ReadLock ∧
       sel (i_write_ (FinishReadingEntries t2))
           (entry_states_ (FinishReadingEntries t2)) = Unlocked ∧
       i_write_ (FinishReadingEntries t2) = flip (i_read_ (FinishReadingEntries t2))) ∧
    (sel (i_write_ (tls_of 16 logged_once)) (entry_states_ (tls_of 16 logged_once))
       ≠ Unlocked →
     StartReadingEntries t1 = (t1, None)).
Proof.
  split; [repeat split|].
  exact (swap_read_finish_cycle (tls_of 16 logged_once) eq_refl eq_refl eq_refl).
Defined.

(** ** The contention counters *)

Lemma wrap_wrap x : wrap (wrap x) = wrap x.
Proof. unfold wrap. apply Z.mod_mod. by compute. Qed.

Lemma CollectTlsLoggerStats_found p P t :
  heap P !! p = Some t →
  CollectTlsLoggerStats p P =
    set_heap (<[p := set_swap_buffers_slot_retry_count_ 0
                       (set_log_cas_fail_count_ 0 t)]> (heap P))
      (on_logger (fun L =>
         set_tls_total_swap_buffers_slot_retry_count_
           (wrap (tls_total_swap_buffers_slot_retry_count_ L
                  + swap_buffers_slot_retry_count_ t))
           (set_tls_total_log_cas_fail_count_
              (wrap (tls_total_log_cas_fail_count_ L + log_cas_fail_count_ t)) L))
         P).
Proof.
  intros Ht. unfold CollectTlsLoggerStats. rewrite Ht. simpl.
  by rewrite !Z.sub_diag.
Qed.

(** [CollectTlsLoggerStats] moves the two counters of a TlsLogger into the
    totals and leaves them at zero, and changes nothing else; so collecting
    from the same TlsLogger again adds nothing, and collecting from two
    TlsLoggers gives the same state in either order. *)
Theorem CollectTlsLoggerStats_once p q P t :
  heap P !! p = Some t → is_Some (heap P !! q) →
  let P' := CollectTlsLoggerStats p P in
  (* the counters, and the totals *)
  (heap P' !! p
     = Some (set_swap_buffers_slot_retry_count_ 0 (set_log_cas_fail_count_ 0 t)) ∧
   tls_total_log_cas_fail_count_ (logger P')
     = wrap (tls_total_log_cas_fail_count_ (logger P) + log_cas_fail_count_ t) ∧
   tls_total_swap_buffers_slot_retry_count_ (logger P')
     = wrap (tls_total_swap_buffers_slot_retry_count_ (logger P)
             + swap_buffers_slot_retry_count_ t)) ∧
  (* the whole of the state *)
  P' = set_heap (<[p := set_swap_buffers_slot_retry_count_ 0
                          (set_log_cas_fail_count_ 0 t)]> (heap P))
         (on_logger (fun L =>
            set_tls_total_swap_buffers_slot_retry_count_
              (wrap (tls_total_swap_buffers_slot_retry_count_ L
                     + swap_buffers_slot_retry_count_ t))
              (set_tls_total_log_cas_fail_count_
                 (wrap (tls_total_log_cas_fail_count_ L + log_cas_fail_count_ t))
                 L))
            P) ∧
  (* once is enough, and the order does not matter *)
  CollectTlsLoggerStats p P' = P' ∧
  CollectTlsLoggerStats p (CollectTlsLoggerStats q P)
    = CollectTlsLoggerStats q P'.
Proof.
  intros Ht Hq P'. unfold P'.
  split.
  { rewrite (CollectTlsLoggerStats_found p P t Ht). simpl.
    by rewrite lookup_insert_eq. }
  split; [by apply CollectTlsLoggerStats_found|].
  clear t Ht Hq P'.
  assert (Hidem : ∀ x, CollectTlsLoggerStats x (CollectTlsLoggerStats x P)
                       = CollectTlsLoggerStats x P).
  { intros x. destruct (heap P !! x) as [t|] eqn:Ht.
    - rewrite (CollectTlsLoggerStats_found x P t Ht).
      erewrite CollectTlsLoggerStats_found
        by (simpl; apply lookup_insert_eq).
      destruct P as [L h pr sl inv]. unfold set_heap, on_logger. simpl.
      rewrite insert_insert_eq, !Z.add_0_r, !wrap_wrap.
      by destruct L, t.
    - unfold CollectTlsLoggerStats. by rewrite !Ht. }
  split; [apply Hidem|].
  destruct (decide (p = q)) as [-> | Hne]; [done|].
  destruct (heap P !! p) as [tp|] eqn:Hp, (heap P !! q) as [tq|] eqn:Hq.
  - rewrite (CollectTlsLoggerStats_found p P tp Hp),
            (CollectTlsLoggerStats_found q P tq Hq).
    erewrite (CollectTlsLoggerStats_found p)
      by (simpl; rewrite lookup_insert_ne by done; exact Hp).
    erewrite (CollectTlsLoggerStats_found q)
      by (simpl; rewrite lookup_insert_ne by done; exact Hq).
    destruct P as [L h pr sl inv]. unfold set_heap, on_logger. simpl.
    rewrite (insert_insert_ne h p q) by done.
    rewrite !wrap_wrap_add.
    f_equal. destruct L. unfold set_tls_total_swap_buffers_slot_retry_count_,
      set_tls_total_log_cas_fail_count_. simpl. f_equal; f_equal; lia.
  - rewrite (CollectTlsLoggerStats_found p P tp Hp).
    assert (E : CollectTlsLoggerStats q P = P)
      by (unfold CollectTlsLoggerStats; by rewrite Hq).
    rewrite E, (CollectTlsLoggerStats_found p P tp Hp).
    unfold CollectTlsLoggerStats at 1. simpl.
    by rewrite lookup_insert_ne, Hq by done.
  - rewrite (CollectTlsLoggerStats_found q P tq Hq).
    assert (E : CollectTlsLoggerStats p P = P)
      by (unfold CollectTlsLoggerStats; by rewrite Hp).
    rewrite E, (CollectTlsLoggerStats_found q P tq Hq).
    unfold CollectTlsLoggerStats at 1. simpl.
    by rewrite lookup_insert_ne, Hp by done.
  - assert (Ep : CollectTlsLoggerStats p P = P)
      by (unfold CollectTlsLoggerStats; by rewrite Hp).
    assert (Eq : CollectTlsLoggerStats q P = P)
      by (unfold CollectTlsLoggerStats; by rewrite Hq).
    by rewrite Eq, Ep, Eq.
Qed.

Lemma entry_frame_counters P P' :
  entry_frame P P' →
  swap_request_slots_retry_count_ (logger P')
    = swap_request_slots_retry_count_ (logger P) ∧
  swap_request_slots_retry_retry_count_ (logger P')
    = swap_request_slots_retry_retry_count_ (logger P) ∧
  swap_request_slots_retry_reencounter_count_ (logger P')
    = swap_request_slots_retry_reencounter_count_ (logger P) ∧
  start_reading_entries_retry_count_ (logger P')
    = start_reading_entries_retry_count_ (logger P) ∧
  tls_loggers_registerd_ (logger P') = tls_loggers_registerd_ (logger P).
Proof.
  intros (_ & HL & _). rewrite HL. by destruct (logger P).
Qed.

Lemma fold_Collect_zero l : ∀ P p t',
  heap (foldl (fun P' x => CollectTlsLoggerStats x P') P l) !! p = Some t' →
  p ∈ l ∨ (∃ t, heap P !! p = Some t ∧ log_cas_fail_count_ t = 0
                ∧ swap_buffers_slot_retry_count_ t = 0) →
  log_cas_fail_count_ t' = 0 ∧ swap_buffers_slot_retry_count_ t' = 0.
Proof.
  induction l as [|q l IH]; intros P p t' Ht' Hcase; simpl in Ht'.
  - destruct Hcase as [Hin | (t & Ht & Hz)]; [by apply elem_of_nil in Hin|].
    by simplify_eq.
  - apply (IH (CollectTlsLoggerStats q P) p t' Ht').
    destruct (decide (p ∈ l)) as [Hin | Hnin]; [by left|]. right.
    destruct (decide (p = q)) as [-> | Hne].
    + destruct (heap P !! q) as [t|] eqn:Ht.
      * rewrite (CollectTlsLoggerStats_found q P t Ht). simpl.
        rewrite lookup_insert_eq. by eexists.
      * exfalso.
        destruct (fold_Collect_frame l (CollectTlsLoggerStats q P))
          as ((Hdom & _) & _).
        specialize (Hdom q). rewrite Ht' in Hdom.
        unfold CollectTlsLoggerStats in Hdom at 1. rewrite Ht in Hdom.
        by rewrite Ht in Hdom.
    + destruct Hcase as [Hin | (t & Ht & Hz)].
      { apply elem_of_cons in Hin as [? | ?]; done. }
      exists t. split; [|done].
      destruct (heap P !! q) as [tq|] eqn:Hq.
      * rewrite (CollectTlsLoggerStats_found q P tq Hq). simpl.
        by rewrite lookup_insert_ne.
      * unfold CollectTlsLoggerStats. by rewrite Hq.
Qed.

Lemma CollectTlsLoggerStats_once_witness :
  (heap two_loggers !! 16 = Some (tls_of 16 contended) ∧
   is_Some (heap two_loggers !! 32) ∧
   log_cas_fail_count_ (tls_of 16 contended) = 1) ∧
  (heap (CollectTlsLoggerStats 16 two_loggers) !! 16
     = Some (set_swap_buffers_slot_retry_count_ 0
               (set_log_cas_fail_count_ 0 (tls_of 16 contended))) ∧
   tls_total_log_cas_fail_count_ (logger (CollectTlsLoggerStats 16 two_loggers))
     = wrap (tls_total_log_cas_fail_count_ (logger two_loggers)
             + log_cas_fail_count_ (tls_of 16 contended)) ∧
   tls_total_swap_buffers_slot_retry_count_
     (logger (CollectTlsLoggerStats 16 two_loggers))
     = wrap (tls_total_swap_buffers_slot_retry_count_ (logger two_loggers)
             + swap_buffers_slot_retry_count_ (tls_of 16 contended))) ∧
  CollectTlsLoggerStats 16 two_loggers
    = set_heap (<[16 := set_swap_buffers_slot_retry_count_ 0
                           (set_log_cas_fail_count_ 0 (tls_of 16 contended))]>
                  (heap two_loggers))
        (on_logger (fun L =>
           set_tls_total_swap_buffers_slot_retry_count_
             (wrap (tls_total_swap_buffers_slot_retry_count_ L
                    + swap_buffers_slot_retry_count_ (tls_of 16 contended)))
             (set_tls_total_log_cas_fail_count_
                (wrap (tls_total_log_cas_fail_count_ L
                       + log_cas_fail_count_ (tls_of 16 contended)))
                L))
           two_loggers) ∧
  CollectTlsLoggerStats 16 (CollectTlsLoggerStats 16 two_loggers)
    = CollectTlsLoggerStats 16 two_loggers ∧
  CollectTlsLoggerStats 16 (CollectTlsLoggerStats 32 two_loggers)
    = CollectTlsLoggerStats 32 (CollectTlsLoggerStats 16 two_loggers).
Proof.
  assert (H16 : heap two_loggers !! 16 = Some (tls_of 16 contended))
    by (vm_compute; reflexivity).
  assert (H32 : is_Some (heap two_loggers !! 32)) by (vm_compute; eauto).
  split; [split; [exact H16|split; [exact H32|vm_compute; reflexivity]]|].
  exact (CollectTlsLoggerStats_once 16 32 two_loggers _ H16 H32).
Defined.

(** The entry that [StopLogging] submits first, run on the I/O thread:
    it leaves both contention counters of every registered and every
    orphaned TlsLogger at zero, and hands [AsyncLog] seven details, the
    heading and the six counters of the [Logger], the two totals as they are
    after the collection.  It destroys and creates no TlsLogger. *)
Theorem ReportContention_reports P :
  let P' := run_entry ReportContention P in
  (∀ p t', p ∈ tls_loggers_registerd_ (logger P)
           ∨ p ∈ tls_logger_orphans_ (logger P) →
     heap P' !! p = Some t' →
     log_cas_fail_count_ t' = 0 ∧ swap_buffers_slot_retry_count_ t' = 0) ∧
  async_logger_ (logger P') =
    async_logger_ (logger P) ++
    [EvLogDetail "Log Contention Counters:" None;
     EvLogDetail "swap_request_slots_retry_count"
       (Some (swap_request_slots_retry_count_ (logger P)));
     EvLogDetail "swap_request_slots_retry_retry_count"
       (Some (swap_request_slots_retry_retry_count_ (logger P)));
     EvLogDetail "swap_request_slots_retry_reencounter_count"
       (Some (swap_request_slots_retry_reencounter_count_ (logger P)));
     EvLogDetail "start_reading_entries_retry_count"
       (Some (start_reading_entries_retry_count_ (logger P)));
     EvLogDetail "tls_total_log_cas_fail_count"
       (Some (tls_total_log_cas_fail_count_ (logger P')));
     EvLogDetail "tls_total_swap_buffers_slot_retry_count"
       (Some (tls_total_swap_buffers_slot_retry_count_ (logger P')))] ∧
  (∀ p, is_Some (heap P' !! p) ↔ is_Some (heap P !! p)) ∧
  sync_log P' = sync_log P ∧ promises P' = promises P.
Proof.
  intros P'. unfold P'. simpl.
  set (P1 := foldl (fun P' x => CollectTlsLoggerStats x P') P
               (elements (tls_loggers_registerd_ (logger P)))).
  set (P2 := foldl (fun P' x => CollectTlsLoggerStats x P') P1
               (tls_logger_orphans_ (logger P1))).
  destruct (fold_Collect_frame (elements (tls_loggers_registerd_ (logger P))) P)
    as (F1 & _ & Ha1 & Hp1 & _). fold P1 in F1, Ha1, Hp1.
  destruct (fold_Collect_frame (tls_logger_orphans_ (logger P1)) P1)
    as (F2 & _ & Ha2 & Hp2 & _). fold P2 in F2, Ha2, Hp2.
  pose proof (entry_frame_trans _ _ _ F1 F2) as F.
  destruct (entry_frame_counters _ _ F) as (C1 & C2 & C3 & C4 & _).
  destruct (entry_frame_fields _ _ F1) as (_ & _ & _ & Ho1 & _).
  split; [|split; [|split; [|split]]].
  - intros p t' Hp Ht'.
    change (heap P2 !! p = Some t') in Ht'.
    apply (fold_Collect_zero _ P1 p t' Ht').
    destruct Hp as [Hreg | Horph].
    + right. destruct (heap P2 !! p) as [t2|] eqn:E2; [|done].
      destruct F2 as (Hdom2 & _). specialize (Hdom2 p). rewrite E2 in Hdom2.
      destruct (heap P1 !! p) as [t1|] eqn:E1; [|done].
      exists t1. split; [done|].
      apply (fold_Collect_zero _ P p t1 E1). left.
      by apply elem_of_elements.
    + left. by rewrite Ho1.
  - unfold log_detail. simpl.
    rewrite Ha2, Ha1, C1, C2, C3, C4, <- !app_assoc. done.
  - intros p. destruct F as (Hdom & _). specialize (Hdom p).
    change (is_Some (heap P2 !! p) ↔ is_Some (heap P !! p)).
    destruct (heap P !! p), (heap P2 !! p); try done; split; eauto.
  - change (sync_log P2 = sync_log P). by destruct F as (_ & _ & ->).
  - change (promises P2 = promises P). by rewrite Hp2, Hp1.
Qed.

(** ** [StopLogging] on the I/O thread *)

(** [StopLogging] called on the I/O thread itself writes one synchronous
    error and returns at once: it submits no entry, waits for nothing and
    does not touch the [Logger], so the log files stay as they were set. *)
Theorem StopLogging_from_io_thread p s th t cs :
  threads s !! p = Some th →
  heap (proc s) !! p = Some t →
  pc th = PIdle → ops th = [] →
  calls th = CallStopLogging :: cs →
  thread_id th = io_thread_ (logger (proc s)) →
  ∃ s1 s2 th2,
    pstep p s = Some s1 ∧ pstep p s1 = Some s2 ∧
    threads s2 !! p = Some th2 ∧
    started th2 = started th ++ [CallStopLogging] ∧
    returned (length (started th)) th2 ∧
    calls th2 = cs ∧
    submitted th2 = submitted th ∧
    sync_log (proc s2) =
      sync_log (proc s) ++ [("StopLogging() not supported from IO thread.", [])] ∧
    logger (proc s2) = logger (proc s) ∧
    heap (proc s2) = heap (proc s) ∧
    promises (proc s2) = promises (proc s) ∧
    cpc s2 = cpc s.
Proof.
  intros Hth Ht Hpc Hops Hcalls Hio.
  unfold pstep at 1. rewrite Hth, Ht, Hpc, Hops, Hcalls. simpl.
  unfold StopLogging. rewrite Hio, Z.eqb_refl.
  eexists. eexists. eexists. split; [reflexivity|].
  unfold pstep. unfold producer_at at 1 2. simpl.
  rewrite lookup_insert_eq, Ht. simpl.
  split; [reflexivity|]. simpl. rewrite lookup_insert_eq.
  split; [reflexivity|]. simpl. split; [done|].
  split; [right; simpl; rewrite length_app; simpl; split; [lia|done]|].
  done.
Qed.

Lemma StopLogging_from_io_thread_witness :
  (threads io_caller !! 16 = Some (thread_of 16 io_caller) ∧
   heap (proc io_caller) !! 16 = Some (tls_of 16 io_caller) ∧
   calls (thread_of 16 io_caller) = [CallStopLogging] ∧
   thread_id (thread_of 16 io_caller) = io_thread_ (logger (proc io_caller))) ∧
  ∃ s1 s2 th2,
    pstep 16 io_caller = Some s1 ∧ pstep 16 s1 = Some s2 ∧
    threads s2 !! 16 = Some th2 ∧
    started th2 = started (thread_of 16 io_caller) ++ [CallStopLogging] ∧
    returned (length (started (thread_of 16 io_caller))) th2 ∧
    calls th2 = [] ∧
    submitted th2 = submitted (thread_of 16 io_caller) ∧
    sync_log (proc s2) =
      sync_log (proc io_caller)
      ++ [("StopLogging() not supported from IO thread.", [])] ∧
    logger (proc s2) = logger (proc io_caller) ∧
    heap (proc s2) = heap (proc io_caller) ∧
    promises (proc s2) = promises (proc io_caller) ∧
    cpc s2 = cpc io_caller.
Proof.
  assert (Hth : threads io_caller !! 16 = Some (thread_of 16 io_caller))
    by (vm_compute; reflexivity).
  assert (Ht : heap (proc io_caller) !! 16 = Some (tls_of 16 io_caller))
    by (vm_compute; reflexivity).
  split; [split; [exact Hth|split; [exact Ht|split; reflexivity]]|].
  exact (StopLogging_from_io_thread 16 io_caller _ _ [] Hth Ht
           eq_refl eq_refl eq_refl eq_refl).
Defined.

(** ** Who writes which field *)

Lemma pstep_owner_fields q s s' p t t' :
  pstep q s = Some s' →
  heap (proc s) !! p = Some t → heap (proc s') !! p = Some t' →
  i_read_ t' = i_read_ t ∧ i_write_ t' = i_write_ t ∧
  unread_swaps_ t' = unread_swaps_ t ∧ (q ≠ p → t' = t).
Proof.
  unfold pstep, Log_lock_iteration, Log_try_lock, Log_release, Log_unlock,
    cas_entry_state, compare_exchange_strong, RequestSwapBuffers_fetch,
    RequestSwapBuffers_cas, RequestSwapBuffers_retried.
  intros H Ht Ht'.
  repeat case_match; simplify_eq; simpl in *;
    try (destruct (decide (q = p)) as [-> | Hne];
         [rewrite ?lookup_insert_eq, ?lookup_alter_eq in Ht'
         |rewrite ?lookup_insert_ne, ?lookup_alter_ne in Ht' by done]);
    simplify_eq; simpl in *; try done;
    try (rewrite Ht in Ht'; simplify_eq; simpl; done).
  match goal with
  | H : heap _ !! _ = Some _, H' : _ <$> heap _ !! _ = Some _ |- _ =>
    rewrite H in H'; simpl in H'; by simplify_eq
  end.
Qed.

Lemma cstep_owner_fields s s' p t t' :
  cstep s = Some s' →
  heap (proc s) !! p = Some t → heap (proc s') !! p = Some t' →
  i_write_prev_ t' = i_write_prev_ t ∧
  (entries_ t' = entries_ t ∨
   ∃ pos, cpc s = CFinish pos p ∧ entries_ t' = upd (i_read_ t) [] (entries_ t)).
Proof.
  intros H Ht Ht'. unfold cstep in H.
  destruct (cpc s) eqn:Hc.
  - repeat case_match; simplify_eq; simpl in *; (split; [|left]); same_heap.
  - destruct retry_slots as [|sr rest];
      [simplify_eq; simpl in *; (split; [|left]); same_heap|].
    destruct (GatherRetry_body_frame sr (threads_to_swap s) (proc s))
      as (tts' & P1 & Hbody & _ & Hh & _). rewrite Hbody in H.
    simplify_eq. simpl in *. (split; [|left]); same_heap.
  - simplify_eq. simpl in *. (split; [|left]); same_heap.
  - destruct (_ <? _); [|simplify_eq; simpl in *; (split; [|left]); same_heap].
    destruct (GatherNew_body_frame (threads_to_swap s) (proc s))
      as (tts' & P1 & Hbody & _ & Hh & _). rewrite Hbody in H.
    simplify_eq. simpl in *. (split; [|left]); same_heap.
  - repeat case_match; simplify_eq; simpl in *; (split; [|left]); same_heap.
  - unfold SwapBuffers_release, cas_entry_state, compare_exchange_strong in H.
    repeat case_match; simplify_eq; simpl in *; try ((split; [|left]); same_heap).
    destruct (decide (thread = p)) as [-> | Hne].
    + rewrite lookup_insert_eq in Ht'. by simplify_eq; simpl; split; [|left].
    + rewrite lookup_insert_ne in Ht' by done. (split; [|left]); same_heap.
  - repeat case_match; simplify_eq; simpl in *.
    destruct (decide (thread = p)) as [-> | Hne].
    + rewrite lookup_insert_eq in Ht'. simplify_eq. simpl. split; [done|by left].
    + rewrite lookup_insert_ne in Ht' by done. (split; [|left]); same_heap.
  - unfold StartReadingEntries, cas_entry_state, compare_exchange_strong in H.
    repeat case_match; simplify_eq; simpl in *; try ((split; [|left]); same_heap).
    match goal with H : heap _ !! ?q = Some _ |- _ =>
      destruct (decide (q = p)) as [-> | Hne];
      [rewrite lookup_insert_eq in Ht'; by simplify_eq; simpl; split; [|left]
      |rewrite lookup_insert_ne in Ht' by done; (split; [|left]); same_heap]
    end.
  - destruct (heap (proc s) !! thread) as [tq|] eqn:Hq; [|done].
    simplify_eq. simpl in *.
    destruct (IOThread_invoke_entries_spec thread tq i (proc s))
      as ((Hh & _) & _).
    specialize (Hh p). rewrite Ht, Ht' in Hh. rewrite Hh. split; [done|by left].
  - destruct (heap (proc s) !! thread) as [tq|] eqn:Hq; [|done].
    simplify_eq. simpl in *.
    destruct (decide (thread = p)) as [-> | Hne].
    + rewrite lookup_insert_eq in Ht'. simplify_eq. simpl.
      split; [done|]. right. by eexists.
    + rewrite lookup_insert_ne in Ht' by done. (split; [|left]); same_heap.
  - simplify_eq. simpl in *. (split; [|left]); same_heap.
  - simplify_eq. simpl in *.
    destruct (IOThread_retire_frame (proc s)) as (Hh & _).
    rewrite (Hh p t' Ht') in Ht. by simplify_eq; split; [|left].
  - done.
  - done.
Qed.

(** The fields of a TlsLogger that are not atomic have one writer each.
    No step of a producer changes [i_read_] or [unread_swaps_] (nor
    [i_write_]) of any TlsLogger, or anything of a TlsLogger other than its
    own.  No step of the I/O thread changes [i_write_prev_], and the only
    thing it does to a buffer is to clear the read buffer in
    [FinishReadingEntries]. *)
Theorem fields_have_one_writer s s' p t t' :
  heap (proc s) !! p = Some t → heap (proc s') !! p = Some t' →
  (∀ q, pstep q s = Some s' →
     i_read_ t' = i_read_ t ∧ i_write_ t' = i_write_ t ∧
     unread_swaps_ t' = unread_swaps_ t ∧ (q ≠ p → t' = t)) ∧
  (cstep s = Some s' →
     i_write_prev_ t' = i_write_prev_ t ∧
     (entries_ t' = entries_ t ∨
      ∃ pos, cpc s = CFinish pos p
             ∧ entries_ t' = upd (i_read_ t) [] (entries_ t))).
Proof.
  intros Ht Ht'. split.
  - intros q H. by eapply pstep_owner_fields.
  - intros H. by eapply cstep_owner_fields.
Qed.

Lemma fields_have_one_writer_witness :
  (heap (proc contended) !! 16 = Some (tls_of 16 contended) ∧
   heap (proc (after [Some 16] contended)) !! 16
     = Some (tls_of 16 (after [Some 16] contended)) ∧
   pstep 16 contended = Some (after [Some 16] contended)) ∧
  (∀ q, pstep q contended = Some (after [Some 16] contended) →
     i_read_ (tls_of 16 (after [Some 16] contended))
       = i_read_ (tls_of 16 contended) ∧
     i_write_ (tls_of 16 (after [Some 16] contended))
       = i_write_ (tls_of 16 contended) ∧
     unread_swaps_ (tls_of 16 (after [Some 16] contended))
       = unread_swaps_ (tls_of 16 contended) ∧
     (q ≠ 16 → tls_of 16 (after [Some 16] contended) = tls_of 16 contended)) ∧
  (cstep contended = Some (after [Some 16] contended) →
     i_write_prev_ (tls_of 16 (after [Some 16] contended))
       = i_write_prev_ (tls_of 16 contended) ∧
     (entries_ (tls_of 16 (after [Some 16] contended))
        = entries_ (tls_of 16 contended) ∨
      ∃ pos, cpc contended = CFinish pos 16
             ∧ entries_ (tls_of 16 (after [Some 16] contended))
               = upd (i_read_ (tls_of 16 contended)) []
                     (entries_ (tls_of 16 contended)))).
Proof.
  assert (Ht : heap (proc contended) !! 16 = Some (tls_of 16 contended))
    by (vm_compute; reflexivity).
  assert (Ht' : heap (proc (after [Some 16] contended)) !! 16
                = Some (tls_of 16 (after [Some 16] contended)))
    by (vm_compute; reflexivity).
  split; [split; [exact Ht|split; [exact Ht'|vm_compute; reflexivity]]|].
  exact (fields_have_one_writer contended (after [Some 16] contended) 16 _ _ Ht Ht').
Defined.

(** ** Consequences of the invariant of the double buffer *)





(** ** The pointers the I/O thread follows *)


















(** ** Running a batch, and the check of [SwapBuffers] *)

Lemma invoke_user_entries thread labels : ∀ P,
  foldl (invoke_entry thread) P (map UserEntry labels) =
    set_invoked
      (invoked P ++ map (fun l => (thread, UserEntry l)) labels)
      (on_logger (fun L =>
         set_async_logger_ (async_logger_ L ++ map EvUser labels) L) P).
Proof.
  induction labels as [|l labels IH]; intros P; simpl.
  - destruct P as [[] ? ? ? ?]. unfold set_invoked, on_logger. simpl.
    by rewrite !app_nil_r.
  - rewrite IH. unfold invoke_entry. simpl.
    destruct P as [[] ? ? ? ?]. unfold set_invoked, on_logger. simpl.
    by rewrite <- !app_assoc.
Qed.

(** A batch of entries handed in by callers of [Log] is run in the order
    of the buffer, after [AsyncLog] has been told the pid and tid of the
    thread that logged them; running it changes nothing else of the
    [Logger] and no TlsLogger. *)
Theorem entries_run_under_their_thread thread t i P labels :
  sel i (entries_ t) = map UserEntry labels →
  let P' := IOThread_invoke_entries thread t i P in
  async_logger_ (logger P') =
    async_logger_ (logger P)
    ++ EvSetCurrentTracePidTidString (trace_pid_tid_ t) :: map EvUser labels ∧
  invoked P' = invoked P ++ map (fun l => (thread, UserEntry l)) labels ∧
  logger P' = set_async_logger_ (async_logger_ (logger P')) (logger P) ∧
  heap P' = heap P ∧ promises P' = promises P ∧ sync_log P' = sync_log P.
Proof.
  intros Hes P'. unfold P', IOThread_invoke_entries. rewrite Hes.
  rewrite invoke_user_entries. simpl.
  rewrite <- app_assoc. simpl.
  split; [done|]. split; [done|]. split; [by destruct (logger P)|]. done.
Qed.

Lemma entries_run_under_their_thread_witness :
  sel i1 (entries_ (tls_of 16 logged_once)) = map UserEntry ["a"] ∧
  async_logger_
    (logger (IOThread_invoke_entries 16 (tls_of 16 logged_once) i1
               (proc logged_once))) =
    async_logger_ (logger (proc logged_once))
    ++ EvSetCurrentTracePidTidString (trace_pid_tid_ (tls_of 16 logged_once))
       :: map EvUser ["a"] ∧
  invoked (IOThread_invoke_entries 16 (tls_of 16 logged_once) i1 (proc logged_once))
    = invoked (proc logged_once)
      ++ map (fun l => (16, UserEntry l)) ["a"] ∧
  logger (IOThread_invoke_entries 16 (tls_of 16 logged_once) i1 (proc logged_once))
    = set_async_logger_
        (async_logger_
           (logger (IOThread_invoke_entries 16 (tls_of 16 logged_once) i1
                      (proc logged_once))))
        (logger (proc logged_once)) ∧
  heap (IOThread_invoke_entries 16 (tls_of 16 logged_once) i1 (proc logged_once))
    = heap (proc logged_once) ∧
  promises (IOThread_invoke_entries 16 (tls_of 16 logged_once) i1 (proc logged_once))
    = promises (proc logged_once) ∧
  sync_log (IOThread_invoke_entries 16 (tls_of 16 logged_once) i1 (proc logged_once))
    = sync_log (proc logged_once).
Proof.
  assert (H : sel i1 (entries_ (tls_of 16 logged_once)) = map UserEntry ["a"])
    by reflexivity.
  split; [exact H|].
  exact (entries_run_under_their_thread 16 (tls_of 16 logged_once) i1
           (proc logged_once) ["a"] H).
Defined.

(** [SwapBuffers] checks the read lock and nothing else.  On a read buffer
    that is not read-locked it reports "CAS failed." with its line and fails
    its assertion, the TlsLogger untouched.  On a read-locked one it swaps
    whatever [unread_swaps_] is: called while the last swap is unread, it
    hands the buffer being read to the producer and counts a second unread
    swap. *)
Theorem SwapBuffers_checks_the_read_lock this P t :
  heap P !! this = Some t →
  (sel (i_read_ t) (entry_states_ t) ≠ ReadLock →
   SwapBuffers this P
     = Some (AssertFailed (LogErrorSync "CAS failed." [("line", 484)] P)) ∧
   heap (LogErrorSync "CAS failed." [("line", 484)] P) !! this = Some t) ∧
  (sel (i_read_ t) (entry_states_ t) = ReadLock →
   ∃ t', SwapBuffers this P = Some (Ok tt (set_heap (<[this := t']> (heap P)) P)) ∧
         i_write_ t' = i_read_ t ∧ i_read_ t' = flip (i_read_ t) ∧
         unread_swaps_ t' = wrap (unread_swaps_ t + 1) ∧
         sel (i_write_ t') (entry_states_ t') = Unlocked ∧
         entries_ t' = entries_ t).
Proof.
  intros Ht. unfold SwapBuffers. rewrite Ht.
  unfold TlsLogger_SwapBuffers, SwapBuffers_release, cas_entry_state,
    compare_exchange_strong.
  destruct t as [ir [b0 b1] [s0 s1] iw cf sr un prev pt ts]. simpl.
  split.
  - intros Hs. destruct ir, s0, s1; simpl in *; done.
  - intros Hs. destruct ir; simpl in *; subst; simpl;
      (eexists; split; [reflexivity|]; done).
Qed.

Lemma SwapBuffers_checks_the_read_lock_witness :
  (heap (proc both_inside) !! 16 = Some (tls_of 16 both_inside) ∧
   sel (i_read_ (tls_of 16 both_inside)) (entry_states_ (tls_of 16 both_inside))
     = ReadLock ∧
   unread_swaps_ (tls_of 16 both_inside) = 1) ∧
  (sel (i_read_ (tls_of 16 both_inside)) (entry_states_ (tls_of 16 both_inside))
     ≠ ReadLock →
   SwapBuffers 16 (proc both_inside)
     = Some (AssertFailed
               (LogErrorSync "CAS failed." [("line", 484)] (proc both_inside))) ∧
   heap (LogErrorSync "CAS failed." [("line", 484)] (proc both_inside)) !! 16
     = Some (tls_of 16 both_inside)) ∧
  (sel (i_read_ (tls_of 16 both_inside)) (entry_states_ (tls_of 16 both_inside))
     = ReadLock →
   ∃ t', SwapBuffers 16 (proc both_inside)
           = Some (Ok tt (set_heap (<[16 := t']> (heap (proc both_inside)))
                            (proc both_inside))) ∧
         i_write_ t' = i_read_ (tls_of 16 both_inside) ∧
         i_read_ t' = flip (i_read_ (tls_of 16 both_inside)) ∧
         unread_swaps_ t' = wrap (unread_swaps_ (tls_of 16 both_inside) + 1) ∧
         sel (i_write_ t') (entry_states_ t') = Unlocked ∧
         entries_ t' = entries_ (tls_of 16 both_inside)).
Proof.
  assert (Ht : heap (proc both_inside) !! 16 = Some (tls_of 16 both_inside))
    by (vm_compute; reflexivity).
  split; [split; [exact Ht|split; vm_compute; reflexivity]|].
  exact (SwapBuffers_checks_the_read_lock 16 (proc both_inside) _ Ht).
Defined.

(** ** The end of a thread *)

Lemma run_None s s1 rest :
  cstep s = Some s1 → run (None :: rest) s = run rest s1.
Proof. intros H. simpl. by rewrite H. Qed.

Ltac io_norm :=
  cbn -[run replicate wrap Z.modulo Z.add Z.ltb Z.eqb lookup insert delete
        GatherNew_body IOThread_invoke_entries IOThread_retire RemoveValue
        SwapRequestSlotIsWritableValue].

Ltac io_flat :=
  unfold consumer_at, set_heap, on_logger, store_slot, set_invoked,
    set_promises, set_thread_swap_request_slots_, set_swap_request_id_,
    set_swap_request_id_read_, set_swap_request_slots_to_retry_,
    set_threads_to_swap_deferred_, set_threads_to_read_,
    set_tls_logger_orphans_, set_orphans_to_destroy_,
    set_swap_request_slots_retry_count_, set_tls_total_log_cas_fail_count_,
    set_tls_total_swap_buffers_slot_retry_count_, set_async_logger_,
    set_i_read_, set_entries_, set_entry_states_, set_i_write_,
    set_log_cas_fail_count_, set_swap_buffers_slot_retry_count_,
    set_unread_swaps_;
  io_norm.

Ltac io_proj :=
  cbv beta iota delta
    [consumer_at set_heap on_logger store_slot set_invoked
     set_promises set_thread_swap_request_slots_ set_swap_request_id_
     set_swap_request_id_read_ set_swap_request_slots_to_retry_
     set_threads_to_swap_deferred_ set_threads_to_read_
     set_tls_logger_orphans_ set_orphans_to_destroy_
     set_swap_request_slots_retry_count_ set_tls_total_log_cas_fail_count_
     set_tls_total_swap_buffers_slot_retry_count_ set_async_logger_
     set_start_reading_entries_retry_count_
     set_i_read_ set_entries_ set_entry_states_ set_i_write_
     set_log_cas_fail_count_ set_swap_buffers_slot_retry_count_
     set_unread_swaps_
     proc threads cpc threads_to_swap
     logger heap promises sync_log invoked
     max_threads_to_log_ thread_swap_request_slots_ swap_request_id_
     swap_request_id_read_ swap_request_slots_to_retry_
     threads_to_swap_deferred_ threads_to_read_ tls_loggers_registerd_
     tls_logger_orphans_ orphans_to_destroy_ swap_request_slots_retry_count_
     swap_request_slots_retry_retry_count_
     swap_request_slots_retry_reencounter_count_
     start_reading_entries_retry_count_ tls_total_log_cas_fail_count_
     tls_total_swap_buffers_slot_retry_count_ async_logger_ io_thread_
     keep_io_thread_alive_
     i_read_ entries_ entry_states_ i_write_ log_cas_fail_count_
     swap_buffers_slot_retry_count_ unread_swaps_ i_write_prev_
     trace_pid_tid_ tid_as_string_].

Ltac io_step :=
  io_flat;
  match goal with
  | |- context [replicate (S ?n) (@None Z)] =>
    change (replicate (S n) (@None Z)) with (@None Z :: replicate n None)
  end;
  erewrite run_None; [|unfold cstep; io_norm].

(** The end of a thread, on the I/O thread, tracing left out.
    [UnRegisterTlsLogger] leaves the TlsLogger of the thread in the
    orphanage, its last entry at the end of the write buffer and one swap
    request in the ring.  From there (the request the only one pending, the
    read buffer consumed, the entries before the last handed in by callers
    of [Log]) thirteen steps of the I/O thread gather the request, swap, run
    the entries in order and the last one after them, call
    [FinishReadingEntries] and flush: at that point the TlsLogger is still
    in the memory and in the orphanage, read and emptied, marked in
    [orphans_to_destroy_], its two counters in the totals.  The next step,
    the last of the turn, is the one that erases it from both. *)
Theorem orphan_is_flushed_then_destroyed s p t labels :
  let L := logger (proc s) in
  let read := swap_request_id_read_ L in
  cpc s = CLoopHead →
  keep_io_thread_alive_ L = true →
  swap_request_slots_to_retry_ L = [] →
  threads_to_swap_deferred_ L = [] →
  threads_to_read_ L = [] →
  orphans_to_destroy_ L = [] →
  swap_request_id_ L = read + 1 → 0 ≤ read → read + 1 < 2 ^ word_bits →
  load_slot (read mod slots_size (proc s)) (proc s) = p →
  p ≠ 0 → SwapRequestSlotIsReadable p = true →
  heap (proc s) !! p = Some t →
  unread_swaps_ t = 0 →
  sel (i_read_ t) (entry_states_ t) = ReadLock →
  i_write_ t = flip (i_read_ t) →
  sel (i_write_ t) (entry_states_ t) = Unlocked →
  sel (i_write_ t) (entries_ t) = map UserEntry labels ++ [RetireOrphan p] →
  ∃ s13 s' t13,
    run (replicate 13 None) s = Some s13 ∧
    cstep s13 = Some s' ∧
    (* after the flush *)
    cpc s13 = CRetire ∧
    heap (proc s13) = <[p := t13]> (heap (proc s)) ∧
    (i_read_ t13 = i_write_ t ∧ i_write_ t13 = i_read_ t ∧
     sel (i_read_ t13) (entries_ t13) = [] ∧
     sel (i_read_ t13) (entry_states_ t13) = ReadLock ∧
     unread_swaps_ t13 = 0 ∧
     log_cas_fail_count_ t13 = 0 ∧ swap_buffers_slot_retry_count_ t13 = 0) ∧
    tls_logger_orphans_ (logger (proc s13)) = tls_logger_orphans_ L ∧
    orphans_to_destroy_ (logger (proc s13)) = [p] ∧
    invoked (proc s13) =
      invoked (proc s)
      ++ map (fun e => (p, e)) (map UserEntry labels ++ [RetireOrphan p]) ∧
    async_logger_ (logger (proc s13)) =
      async_logger_ L
      ++ EvSetCurrentTracePidTidString (trace_pid_tid_ t) :: map EvUser labels
      ++ [EvFlush] ∧
    tls_total_log_cas_fail_count_ (logger (proc s13))
      = wrap (tls_total_log_cas_fail_count_ L + log_cas_fail_count_ t) ∧
    tls_total_swap_buffers_slot_retry_count_ (logger (proc s13))
      = wrap (tls_total_swap_buffers_slot_retry_count_ L
              + swap_buffers_slot_retry_count_ t) ∧
    (* the last step of the turn *)
    cpc s' = CLoopHead ∧
    heap (proc s') = delete p (heap (proc s)) ∧
    tls_logger_orphans_ (logger (proc s'))
      = filter (fun x => x ≠ p) (tls_logger_orphans_ L) ∧
    orphans_to_destroy_ (logger (proc s')) = [] ∧
    invoked (proc s') = invoked (proc s13) ∧
    async_logger_ (logger (proc s')) = async_logger_ (logger (proc s13)) ∧
    tls_total_log_cas_fail_count_ (logger (proc s'))
      = tls_total_log_cas_fail_count_ (logger (proc s13)) ∧
    tls_total_swap_buffers_slot_retry_count_ (logger (proc s'))
      = tls_total_swap_buffers_slot_retry_count_ (logger (proc s13)) ∧
    threads_to_read_ (logger (proc s')) = [] ∧
    threads_to_swap_deferred_ (logger (proc s')) = [] ∧
    swap_request_id_read_ (logger (proc s')) = swap_request_id_ L.
Proof.
  destruct s as [[L h pr sl inv] thr c tts].
  destruct L as [mx slots sid srd retry deferred rd reg orph des
                 c1 c2 c3 c4 tot1 tot2 al io keep].
  destruct t as [ir [b0 b1] [s0 s1] iw cf sr un prev pt ts].
  unfold load_slot, slots_size.
  cbv zeta.
  intros Hc Hk Hr Hd Hrd Hdes Hid Hrd0 Hrd1 Hslot Hnull Hptr Ht Hun Hs Hiw Hw Hes.
  simpl in * |-. subst c keep retry deferred rd des sid un iw.
  assert (E1 : (srd <? srd + 1) = true) by lia.
  assert (E2 : (p =? 0) = false) by lia.
  destruct ir; simpl in Hs, Hw, Hes; subst s0 s1; [subst b1|subst b0].
  - eexists _, _, _. split.
    { (* the head of the loop *)
      io_step; [|reflexivity].
      io_step; [|reflexivity].
      (* gathering *)
      io_step.
      2:{ rewrite E1. unfold GatherNew_body, GetTlsLoggerThatRequestedSwap,
            load_slot, slots_size, compare_exchange_strong.
          io_norm. rewrite Hslot, Hptr, Z.eqb_refl, E2. io_norm. reflexivity. }
      io_step.
      2:{ rewrite wrap_small by lia. rewrite Z.ltb_irrefl. reflexivity. }
      (* swapping *)
      io_step.
      2:{ rewrite Ht. io_norm. reflexivity. }
      io_step.
      2:{ rewrite Ht. reflexivity. }
      io_step.
      2:{ rewrite lookup_insert_eq. io_norm. rewrite insert_insert_eq.
          unfold SwapBuffers_publish, set_i_write_, set_i_read_,
            set_unread_swaps_, set_entry_states_. io_norm. reflexivity. }
      io_step; [|reflexivity].
      (* reading *)
      io_step.
      2:{ change ([p] !! 0%nat) with (Some p). io_norm.
          rewrite lookup_insert_eq. io_norm. rewrite insert_insert_eq.
          reflexivity. }
      io_step.
      2:{ rewrite lookup_insert_eq. reflexivity. }
      io_flat. unfold IOThread_invoke_entries.
      cbn [sel entries_ fst snd trace_pid_tid_].
      rewrite foldl_app, invoke_user_entries. cbn [foldl].
      unfold invoke_entry. cbn [run_entry].
      erewrite CollectTlsLoggerStats_found
        by (unfold set_invoked, on_logger; cbn [heap]; apply lookup_insert_eq).
      io_proj. rewrite insert_insert_eq.
      io_step.
      2:{ rewrite lookup_insert_eq. unfold FinishReadingEntries. io_proj.
          cbn [upd sel fst snd]. rewrite insert_insert_eq.
          change (<[0%nat := 0]> [p]) with [0]. reflexivity. }
      io_step.
      2:{ change ([0] !! 1%nat) with (@None Z). io_norm.
          change (RemoveValue [0] 0) with (@nil Z). reflexivity. }
      (* flushing *)
      io_step; [|reflexivity].
      io_proj. reflexivity. }
    split.
    { (* the end of the orphan *)
      unfold cstep. io_norm.
      unfold IOThread_retire, erase_orphan. io_proj. cbn [app foldl].
      io_proj. rewrite delete_insert_eq. reflexivity. }
    io_proj.
    split; [reflexivity|]. split; [reflexivity|].
    split; [repeat split; reflexivity|].
    split; [reflexivity|]. split; [reflexivity|].
    split; [by rewrite map_app, map_map, app_assoc|].
    split; [by rewrite <- !app_assoc|].
    split; [reflexivity|]. split; [reflexivity|].
    repeat split; reflexivity.
  - eexists _, _, _. split.
    { (* the head of the loop *)
      io_step; [|reflexivity].
      io_step; [|reflexivity].
      (* gathering *)
      io_step.
      2:{ rewrite E1. unfold GatherNew_body, GetTlsLoggerThatRequestedSwap,
            load_slot, slots_size, compare_exchange_strong.
          io_norm. rewrite Hslot, Hptr, Z.eqb_refl, E2. io_norm. reflexivity. }
      io_step.
      2:{ rewrite wrap_small by lia. rewrite Z.ltb_irrefl. reflexivity. }
      (* swapping *)
      io_step.
      2:{ rewrite Ht. io_norm. reflexivity. }
      io_step.
      2:{ rewrite Ht. reflexivity. }
      io_step.
      2:{ rewrite lookup_insert_eq. io_norm. rewrite insert_insert_eq.
          unfold SwapBuffers_publish, set_i_write_, set_i_read_,
            set_unread_swaps_, set_entry_states_. io_norm. reflexivity. }
      io_step; [|reflexivity].
      (* reading *)
      io_step.
      2:{ change ([p] !! 0%nat) with (Some p). io_norm.
          rewrite lookup_insert_eq. io_norm. rewrite insert_insert_eq.
          reflexivity. }
      io_step.
      2:{ rewrite lookup_insert_eq. reflexivity. }
      io_flat. unfold IOThread_invoke_entries.
      cbn [sel entries_ fst snd trace_pid_tid_].
      rewrite foldl_app, invoke_user_entries. cbn [foldl].
      unfold invoke_entry. cbn [run_entry].
      erewrite CollectTlsLoggerStats_found
        by (unfold set_invoked, on_logger; cbn [heap]; apply lookup_insert_eq).
      io_proj. rewrite insert_insert_eq.
      io_step.
      2:{ rewrite lookup_insert_eq. unfold FinishReadingEntries. io_proj.
          cbn [upd sel fst snd]. rewrite insert_insert_eq.
          change (<[0%nat := 0]> [p]) with [0]. reflexivity. }
      io_step.
      2:{ change ([0] !! 1%nat) with (@None Z). io_norm.
          change (RemoveValue [0] 0) with (@nil Z). reflexivity. }
      (* flushing *)
      io_step; [|reflexivity].
      io_proj. reflexivity. }
    split.
    { (* the end of the orphan *)
      unfold cstep. io_norm.
      unfold IOThread_retire, erase_orphan. io_proj. cbn [app foldl].
      io_proj. rewrite delete_insert_eq. reflexivity. }
    io_proj.
    split; [reflexivity|]. split; [reflexivity|].
    split; [repeat split; reflexivity|].
    split; [reflexivity|]. split; [reflexivity|].
    split; [by rewrite map_app, map_map, app_assoc|].
    split; [by rewrite <- !app_assoc|].
    split; [reflexivity|]. split; [reflexivity|].
    repeat split; reflexivity.
Qed.

Lemma orphan_is_flushed_then_destroyed_witness :
  (16 ∈ tls_logger_orphans_ (logger (proc orphaned)) ∧
   heap (proc orphaned) !! 16 = Some (tls_of 16 orphaned) ∧
   load_slot (swap_request_id_read_ (logger (proc orphaned))
              mod slots_size (proc orphaned)) (proc orphaned) = 16 ∧
   sel (i_write_ (tls_of 16 orphaned)) (entries_ (tls_of 16 orphaned))
     = map UserEntry [] ++ [RetireOrphan 16]) ∧
  ∃ s13 s' t13,
    run (replicate 13 None) orphaned = Some s13 ∧
    cstep s13 = Some s' ∧
    cpc s13 = CRetire ∧
    heap (proc s13) = <[16 := t13]> (heap (proc orphaned)) ∧
    (i_read_ t13 = i_write_ (tls_of 16 orphaned) ∧
     i_write_ t13 = i_read_ (tls_of 16 orphaned) ∧
     sel (i_read_ t13) (entries_ t13) = [] ∧
     sel (i_read_ t13) (entry_states_ t13) = ReadLock ∧
     unread_swaps_ t13 = 0 ∧
     log_cas_fail_count_ t13 = 0 ∧ swap_buffers_slot_retry_count_ t13 = 0) ∧
    tls_logger_orphans_ (logger (proc s13))
      = tls_logger_orphans_ (logger (proc orphaned)) ∧
    orphans_to_destroy_ (logger (proc s13)) = [16] ∧
    invoked (proc s13) =
      invoked (proc orphaned)
      ++ map (fun e => (16, e)) (map UserEntry [] ++ [RetireOrphan 16]) ∧
    async_logger_ (logger (proc s13)) =
      async_logger_ (logger (proc orphaned))
      ++ EvSetCurrentTracePidTidString (trace_pid_tid_ (tls_of 16 orphaned))
         :: map EvUser []
      ++ [EvFlush] ∧
    tls_total_log_cas_fail_count_ (logger (proc s13))
      = wrap (tls_total_log_cas_fail_count_ (logger (proc orphaned))
              + log_cas_fail_count_ (tls_of 16 orphaned)) ∧
    tls_total_swap_buffers_slot_retry_count_ (logger (proc s13))
      = wrap (tls_total_swap_buffers_slot_retry_count_ (logger (proc orphaned))
              + swap_buffers_slot_retry_count_ (tls_of 16 orphaned)) ∧
    cpc s' = CLoopHead ∧
    heap (proc s') = delete 16 (heap (proc orphaned)) ∧
    tls_logger_orphans_ (logger (proc s'))
      = filter (fun x => x ≠ 16) (tls_logger_orphans_ (logger (proc orphaned))) ∧
    orphans_to_destroy_ (logger (proc s')) = [] ∧
    invoked (proc s') = invoked (proc s13) ∧
    async_logger_ (logger (proc s')) = async_logger_ (logger (proc s13)) ∧
    tls_total_log_cas_fail_count_ (logger (proc s'))
      = tls_total_log_cas_fail_count_ (logger (proc s13)) ∧
    tls_total_swap_buffers_slot_retry_count_ (logger (proc s'))
      = tls_total_swap_buffers_slot_retry_count_ (logger (proc s13)) ∧
    threads_to_read_ (logger (proc s')) = [] ∧
    threads_to_swap_deferred_ (logger (proc s')) = [] ∧
    swap_request_id_read_ (logger (proc s'))
      = swap_request_id_ (logger (proc orphaned)).
Proof.
  assert (Ht : heap (proc orphaned) !! 16 = Some (tls_of 16 orphaned))
    by (vm_compute; reflexivity).
  assert (Hslot : load_slot (swap_request_id_read_ (logger (proc orphaned))
                             mod slots_size (proc orphaned)) (proc orphaned) = 16)
    by (vm_compute; reflexivity).
  assert (Hes : sel (i_write_ (tls_of 16 orphaned)) (entries_ (tls_of 16 orphaned))
                = map UserEntry [] ++ [RetireOrphan 16])
    by (vm_compute; reflexivity).
  split.
  { split; [vm_compute; by left|]. split; [exact Ht|]. split; [exact Hslot|exact Hes]. }
  refine (orphan_is_flushed_then_destroyed orphaned 16 (tls_of 16 orphaned) []
            _ _ _ _ _ _ _ _ _ Hslot _ _ Ht _ _ _ _ Hes);
    try (vm_compute; reflexivity); vm_compute; discriminate.
Defined.
